(** * convertRawJavaScriptAst: conversion of a parsed JavaScript tree into builder IR

    A shallow embedding of [src/compiler/util/convertRawJavaScriptAst.js].

    The source is one recursive JavaScript function, [convert], closed over an
    injected [builder].  It reads the properties of the nodes it is given,
    overwrites the elements of the arrays it is given ([nodes[i] = converted]),
    and can fail: with a [TypeError] when it reads a property of [null] or
    [undefined], and with what [new RegExp] throws on a pattern or flags it
    does not accept.  The embedding therefore has

    - a store of objects and arrays addressed by reference, so that two fields
      holding the same array really share it;
    - a state-and-exception monad over that store;
    - the builder as a parameter: a record of constructors into an abstract
      type of IR nodes, and with it the [RegExp] constructor of the engine;
    - recursion bounded by fuel, since a store may be cyclic. *)

From stdpp Require Import gmap strings list pretty.
From Stdlib Require Import ZArith.

Local Open Scope string_scope.
Local Open Scope list_scope.

(** ** JavaScript values *)

Definition loc := positive.

(** The values a field of the tree or a variable of [convert] can hold.
    Numbers are the integer-valued ones (the converter only tests a number for
    truthiness and an array length against 1).  [VRegExp source flags] is a
    [RegExp] object, with the strings its [source] and [flags] properties
    read; its other properties ([lastIndex], [global], the methods) are not
    in the model: the converter reads none of them.  [VIR x] is an IR node
    made by the builder. *)
Inductive value (ir : Type) : Type :=
  | VUndefined
  | VNull
  | VBool (b : bool)
  | VNum (n : Z)
  | VStr (s : string)
  | VRegExp (source flags : string)
  | VRef (l : loc)
  | VIR (x : ir).

Arguments VUndefined {ir}.
Arguments VNull {ir}.
Arguments VBool {ir} b.
Arguments VNum {ir} n.
Arguments VStr {ir} s.
Arguments VRegExp {ir} source flags.
Arguments VRef {ir} l%_positive.
Arguments VIR {ir} x.

(** A cell of the store: a plain object (a node of the tree) or an array.  An
    array has its elements and, as any JavaScript object, named properties. *)
Inductive cell (ir : Type) : Type :=
  | Obj (fields : gmap string (value ir))
  | Arr (elements : list (value ir)) (props : gmap string (value ir)).

Arguments Obj {ir} fields.
Arguments Arr {ir} elements props.

(** What an observer of [convert] sees: a call with its argument, and a call
    returning with its result. *)
Inductive event (ir : Type) : Type :=
  | Call (node : value ir)
  | Return (node result : value ir).

Arguments Call {ir} node.
Arguments Return {ir} node result.

(** The state: the store, and the calls and returns of [convert] so far,
    oldest first.  [trace] is a ghost component: nothing reads it. *)
Record state (ir : Type) : Type := State {
  heap : gmap loc (cell ir);
  trace : list (event ir)
}.

Arguments State {ir} heap trace.
Arguments heap {ir} s.
Arguments trace {ir} s.

(** The exceptions: the [TypeError] of reading a property of [null] or
    [undefined], of iterating or mapping over what cannot be, and the
    [SyntaxError] of [new RegExp] on an invalid pattern or invalid flags. *)
Inductive error : Type := TypeError | SyntaxError.

(** How a computation ends: it returns a value or it throws. *)
Inductive result (ir A : Type) : Type :=
  | Ok (a : A) (s : state ir)
  | Throw (e : error) (s : state ir).

Arguments Ok {ir A} a s.
Arguments Throw {ir A} e s.

(** A computation; [None] is "fuel exhausted". *)
Definition M (ir A : Type) : Type := state ir -> option (result ir A).

Definition ret {ir A} (a : A) : M ir A := fun s => Some (Ok a s).

Definition throw {ir A} (e : error) : M ir A := fun s => Some (Throw e s).

Definition bind {ir A B} (m : M ir A) (k : A -> M ir B) : M ir B :=
  fun s =>
    match m s with
    | Some (Ok a s') => k a s'
    | Some (Throw e s') => Some (Throw e s')
    | None => None
    end.

Definition out_of_fuel {ir A} : M ir A := fun _ => None.

Notation "'let*' x ':=' m 'in' k" := (bind m (fun x => k))
  (at level 10, x name, m at level 100, k at level 200).

Notation "'do' m 'in' k" := (bind m (fun _ => k))
  (at level 10, m at level 100, k at level 200).

(** The final state of a result. *)
Definition final {ir A} (r : result ir A) : state ir :=
  match r with Ok _ s => s | Throw _ s => s end.

(** ** Operators on values *)

Section Operators.
Context {ir : Type}.
Implicit Types (v : value ir) (s : state ir).

(** [!v] is false: JavaScript truthiness. *)
Definition truthy v : bool :=
  match v with
  | VUndefined | VNull => false
  | VBool b => b
  | VNum n => negb (n =? 0)%Z
  | VStr t => negb (String.eqb t "")
  | VRegExp _ _ | VRef _ | VIR _ => true
  end.

(** [v == null]. *)
Definition nullish v : bool :=
  match v with
  | VUndefined | VNull => true
  | _ => false
  end.

(** [v === "t"]. *)
Definition is_str v (t : string) : bool :=
  match v with
  | VStr u => String.eqb u t
  | _ => false
  end.

(** [v === true]. *)
Definition is_true v : bool :=
  match v with
  | VBool b => b
  | _ => false
  end.

(** [v === n]. *)
Definition is_num v (n : Z) : bool :=
  match v with
  | VNum m => (m =? n)%Z
  | _ => false
  end.

(** [Array.isArray(v)]. *)
Definition isArray s v : bool :=
  match v with
  | VRef l => match heap s !! l with Some (Arr _ _) => true | _ => false end
  | _ => false
  end.

(** The [i]-th character of a string, as a string. *)
Definition char_at (t : string) (i : nat) : value ir :=
  match String.get i t with
  | Some c => VStr (String c EmptyString)
  | None => VUndefined
  end.

End Operators.

(** ** The builder *)

(** The builder capability: one constructor per IR kind, named as in the
    source, and the three ways the converter touches an IR node afterwards:
    reading a property ([key.type], [key.name]), writing one
    ([quasi.nonstandard = true]) and [container.appendChild(child)].  The
    builder lives outside the converter's source file; it is taken as a
    parameter.  Its constructors are functions: each returns a fresh object
    (truthy, and not an array) and has no other effect, so the two in-place
    updates of an IR node are modelled as functions too.

    The last field is not the builder's.  It is the other thing the
    converter calls that its source file does not define: the engine's
    [RegExp] constructor.  [newRegExp store pattern flags] is what
    [new RegExp(pattern, flags)] does in a store: it throws (a [SyntaxError]
    on a pattern or flags that are not valid, a [TypeError] on an operand
    that has no string conversion), or it returns a [RegExp] object, given
    here by its [source] and its [flags].  It reads the store, to convert an
    operand that is an object or an array to a string, and writes nothing. *)
Record Builder (ir : Type) : Type := {
  arrayExpression : value ir -> ir;
  assignment : value ir -> value ir -> value ir -> ir;
  binaryExpression : value ir -> value ir -> value ir -> ir;
  functionCall : value ir -> value ir -> ir;
  conditionalExpression : value ir -> value ir -> value ir -> ir;
  functionDeclaration : value ir -> value ir -> value ir -> ir;
  identifier : value ir -> ir;
  literal : value ir -> ir;
  templateLiteral : list (value ir) -> value ir -> ir;
  logicalExpression : value ir -> value ir -> value ir -> ir;
  memberExpression : value ir -> value ir -> value ir -> ir;
  newExpression : value ir -> value ir -> ir;
  containerNode : ir;
  objectExpression : value ir -> ir;
  property : value ir -> value ir -> value ir -> ir;
  returnStatement : value ir -> ir;
  thisExpression : ir;
  unaryExpression : value ir -> value ir -> value ir -> ir;
  updateExpression : value ir -> value ir -> value ir -> ir;
  variableDeclarator : value ir -> value ir -> ir;
  vars : value ir -> value ir -> ir;
  ifStatement : value ir -> value ir -> ir;
  elseIfStatement : value ir -> value ir -> ir;
  elseStatement : value ir -> ir;
  forStatement : value ir -> value ir -> value ir -> value ir -> ir;
  whileStatement : value ir -> value ir -> ir;
  ir_get : ir -> string -> value ir;
  ir_set : ir -> string -> value ir -> ir;
  appendChild : ir -> value ir -> ir;
  newRegExp : gmap loc (cell ir) -> value ir -> value ir -> error + string * string
}.

Arguments arrayExpression {ir} _ _.
Arguments assignment {ir} _ _ _ _.
Arguments binaryExpression {ir} _ _ _ _.
Arguments functionCall {ir} _ _ _.
Arguments conditionalExpression {ir} _ _ _ _.
Arguments functionDeclaration {ir} _ _ _ _.
Arguments identifier {ir} _ _.
Arguments literal {ir} _ _.
Arguments templateLiteral {ir} _ _ _.
Arguments logicalExpression {ir} _ _ _ _.
Arguments memberExpression {ir} _ _ _ _.
Arguments newExpression {ir} _ _ _.
Arguments containerNode {ir} _.
Arguments objectExpression {ir} _ _.
Arguments property {ir} _ _ _ _.
Arguments returnStatement {ir} _ _.
Arguments thisExpression {ir} _.
Arguments unaryExpression {ir} _ _ _ _.
Arguments updateExpression {ir} _ _ _ _.
Arguments variableDeclarator {ir} _ _ _.
Arguments vars {ir} _ _ _.
Arguments ifStatement {ir} _ _ _.
Arguments elseIfStatement {ir} _ _ _.
Arguments elseStatement {ir} _ _.
Arguments forStatement {ir} _ _ _ _ _.
Arguments whileStatement {ir} _ _ _.
Arguments ir_get {ir} _ _ _.
Arguments ir_set {ir} _ _ _ _.
Arguments appendChild {ir} _ _ _.
Arguments newRegExp {ir} _ _ _ _.

(** ** Reading and writing the store *)

(** The three ways a computation touches the state. *)
Definition reads {ir A} (f : state ir -> A) : M ir A :=
  fun s => Some (Ok (f s) s).

Definition reads_or_throws {ir A} (f : state ir -> option A) : M ir A :=
  fun s =>
    match f s with
    | Some a => Some (Ok a s)
    | None => Some (Throw TypeError s)
    end.

Definition modify {ir} (f : state ir -> state ir) : M ir unit :=
  fun s => Some (Ok tt (f s)).

Section Store.
Context {ir : Type} (builder : Builder ir).
Implicit Types (v node : value ir) (s : state ir).

(** A property of an object; a missing property reads [undefined]. *)
Definition field (fields : gmap string (value ir)) (name : string) : value ir :=
  default VUndefined (fields !! name).

(** [v.name]: [None] stands for the [TypeError] that reading a property of
    [null] or [undefined] raises. *)
Definition get_prop s v (name : string) : option (value ir) :=
  match v with
  | VUndefined | VNull => None
  | VRef l =>
      match heap s !! l with
      | Some (Obj fields) => Some (field fields name)
      | Some (Arr elements props) =>
          Some (if String.eqb name "length"
                then VNum (Z.of_nat (length elements))
                else field props name)
      | None => Some VUndefined
      end
  | VIR x => Some (ir_get builder x name)
  | VStr t =>
      Some (if String.eqb name "length"
            then VNum (Z.of_nat (String.length t))
            else VUndefined)
  | VRegExp source flags =>
      Some (if String.eqb name "flags" then VStr flags
            else if String.eqb name "source" then VStr source
            else VUndefined)
  | VBool _ | VNum _ => Some VUndefined
  end.

(** [v[i]]. *)
Definition get_elem s v (i : nat) : option (value ir) :=
  match v with
  | VUndefined | VNull => None
  | VRef l =>
      match heap s !! l with
      | Some (Obj fields) => Some (field fields (pretty i))
      | Some (Arr elements props) => Some (default VUndefined (elements !! i))
      | None => Some VUndefined
      end
  | VIR x => Some (ir_get builder x (pretty i))
  | VStr t => Some (char_at t i)
  | VBool _ | VNum _ | VRegExp _ _ => Some VUndefined
  end.

Definition get v (name : string) : M ir (value ir) :=
  reads_or_throws (fun s => get_prop s v name).

Definition get_index v (i : nat) : M ir (value ir) :=
  reads_or_throws (fun s => get_elem s v i).

(** [Array.isArray(v)], giving the array when it is one. *)
Definition as_array s v : option loc :=
  match v with
  | VRef l => if isArray s v then Some l else None
  | _ => None
  end.

Definition array_ref v : M ir (option loc) :=
  reads (fun s => as_array s v).

(** [nodes.length] for an array [nodes] of the store. *)
Definition length_of s (nodes : loc) : nat :=
  match heap s !! nodes with
  | Some (Arr elements _) => length elements
  | _ => 0
  end.

Definition array_length (nodes : loc) : M ir nat :=
  reads (fun s => length_of s nodes).

(** [elements[i] = x] on a JavaScript array: overwrite within range, extend
    (with holes, read as [undefined]) beyond it. *)
Definition array_set (elements : list (value ir)) (i : nat) (x : value ir)
  : list (value ir) :=
  if decide (i < length elements) then <[i := x]> elements
  else elements ++ replicate (i - length elements) VUndefined ++ [x].

(** The state after [nodes[i] = x], for an array [nodes] of the store. *)
Definition stored (nodes : loc) (i : nat) (x : value ir) s : state ir :=
  match heap s !! nodes with
  | Some (Arr elements props) =>
      State (<[nodes := Arr (array_set elements i x) props]> (heap s)) (trace s)
  | _ => s
  end.

Definition store_index (nodes : loc) (i : nat) (x : value ir) : M ir unit :=
  modify (stored nodes i x).

(** The state after [v.name = x], for a reference [v]: the write goes to the
    object or array that [v] refers to. *)
Definition assigned (l : loc) (name : string) (x : value ir) s : state ir :=
  match heap s !! l with
  | Some (Obj fields) =>
      State (<[l := Obj (<[name := x]> fields)]> (heap s)) (trace s)
  | Some (Arr elements props) =>
      State (<[l := Arr elements (<[name := x]> props)]> (heap s)) (trace s)
  | None => s
  end.

(** [v.name = x; v], for a truthy [v].  On an IR node the write is the
    builder's; on a primitive the assignment does nothing (the module is not
    in strict mode). *)
Definition assign v (name : string) (x : value ir) : M ir (value ir) :=
  match v with
  | VIR n => ret (VIR (ir_set builder n name x))
  | VRef l => do modify (assigned l name x) in ret v
  | _ => ret v
  end.

(** The state after an event, and the ghost record of one. *)
Definition logged (e : event ir) s : state ir :=
  State (heap s) (trace s ++ [e]).

Definition log (e : event ir) : M ir unit := modify (logged e).

(** [v.map(f)] for a function [f] that only reads: defined on arrays, a
    [TypeError] on everything else (no other value of the model has a [map]
    method). *)
Definition elements_of s v : option (list (value ir)) :=
  match v with
  | VRef l =>
      match heap s !! l with
      | Some (Arr elements _) => Some elements
      | _ => None
      end
  | _ => None
  end.

Fixpoint map_values (f : value ir -> M ir (value ir)) (l : list (value ir))
  : M ir (list (value ir)) :=
  match l with
  | [] => ret []
  | x :: l' =>
      let* y := f x in
      let* ys := map_values f l' in
      ret (y :: ys)
  end.

Definition array_map v (f : value ir -> M ir (value ir)) : M ir (list (value ir)) :=
  let* elements := reads_or_throws (fun s => elements_of s v) in
  map_values f elements.

(** [for (let child of v)]: the number of iterations and the way the [i]-th
    child is fetched, or [None] for the [TypeError] on a value that is not
    iterable.  Arrays are read through the store at each step; a string
    yields its characters; nothing else in the model is iterable. *)
Definition iterator s v : option (nat * (nat -> M ir (value ir))) :=
  match v with
  | VStr t => Some (String.length t, fun i => ret (char_at t i))
  | VRef l =>
      match heap s !! l with
      | Some (Arr elements _) => Some (length elements, get_index v)
      | _ => None
      end
  | _ => None
  end.

Definition iterate v : M ir (nat * (nat -> M ir (value ir))) :=
  reads_or_throws (fun s => iterator s v).

End Store.

(** ** The converter *)

(** One call of [convert], with the recursive calls it makes taken as a
    parameter (also named [convert]), and a bound [fuel] on the iterations of
    the [do ... while (alternate)] loop, which follows a chain of the store.
    Each case of the [switch] is a definition of its own, in source order. *)
Section Convert.
Context {ir : Type} (builder : Builder ir).
Variable convert : value ir -> M ir (value ir).
Variable fuel : nat.
Implicit Types (node : value ir).

Local Abbreviation get := (get builder).
Local Abbreviation get_index := (get_index builder).

(** [convert(node.name)]. *)
Definition convert_field node (name : string) : M ir (value ir) :=
  let* child := get node name in convert child.

(** The loop of the array branch (lines 5-11):
    [for (let i = 0; i < nodes.length; i++)], with [n] iterations left.
    [nodes.length] is the same at every test: the only write to the elements
    of an array is the one below, at an index within range. *)
Fixpoint convert_elements (n : nat) (nodes : loc) (i : nat) : M ir (value ir) :=
  match n with
  | O => ret (VRef nodes)
  | S n' =>
      let* x := get_index (VRef nodes) i in
      let* converted := convert x in
      if nullish converted then ret VNull
      else
        do store_index nodes i converted in
        convert_elements n' nodes (S i)
  end.

(** [if (Array.isArray(node))] (lines 3-13). *)
Definition convert_array (nodes : loc) : M ir (value ir) :=
  let* len := array_length nodes in
  convert_elements len nodes 0.

(** [case "ArrayExpression"] (lines 16-22). *)
Definition convert_ArrayExpression node : M ir (value ir) :=
  let* elements := convert_field node "elements" in
  if negb (truthy elements) then ret VNull
  else ret (VIR (arrayExpression builder elements)).

(** [case "AssignmentExpression"] (lines 23-35). *)
Definition convert_AssignmentExpression node : M ir (value ir) :=
  let* left := convert_field node "left" in
  if negb (truthy left) then ret VNull
  else
    let* right := convert_field node "right" in
    if negb (truthy right) then ret VNull
    else
      let* operator := get node "operator" in
      ret (VIR (assignment builder left right operator)).

(** [case "BinaryExpression"] (lines 36-48). *)
Definition convert_BinaryExpression node : M ir (value ir) :=
  let* left := convert_field node "left" in
  if negb (truthy left) then ret VNull
  else
    let* right := convert_field node "right" in
    if negb (truthy right) then ret VNull
    else
      let* operator := get node "operator" in
      ret (VIR (binaryExpression builder left operator right)).

(** [case "BlockStatement"] (lines 49-56). *)
Definition convert_BlockStatement node : M ir (value ir) :=
  let* body := convert_field node "body" in
  if negb (truthy body) then ret VNull
  else ret body.

(** [case "CallExpression"] (lines 57-70). *)
Definition convert_CallExpression node : M ir (value ir) :=
  let* callee := convert_field node "callee" in
  if negb (truthy callee) then ret VNull
  else
    let* args := convert_field node "arguments" in
    if negb (truthy args) then ret VNull
    else ret (VIR (functionCall builder callee args)).

(** [case "ConditionalExpression"] (lines 71-95). *)
Definition convert_ConditionalExpression node : M ir (value ir) :=
  let* test := convert_field node "test" in
  if negb (truthy test) then ret VNull
  else
    let* consequent := convert_field node "consequent" in
    if negb (truthy consequent) then ret VNull
    else
      let* alternate := convert_field node "alternate" in
      if negb (truthy alternate) then ret VNull
      else ret (VIR (conditionalExpression builder test consequent alternate)).

(** [case "ExpressionStatement"] (lines 96-98). *)
Definition convert_ExpressionStatement node : M ir (value ir) :=
  convert_field node "expression".

(** The function cases once [name] is known (lines 110-120). *)
Definition convert_Function_rest (name : value ir) node : M ir (value ir) :=
  let* params := convert_field node "params" in
  if negb (truthy params) then ret VNull
  else
    let* body := convert_field node "body" in
    if negb (truthy body) then ret VNull
    else ret (VIR (functionDeclaration builder name params body)).

(** [case "FunctionDeclaration": case "FunctionExpression"] (lines 99-121). *)
Definition convert_Function node : M ir (value ir) :=
  let* id := get node "id" in
  if truthy id then
    let* name := convert_field node "id" in
    if nullish name then ret VNull
    else convert_Function_rest name node
  else convert_Function_rest VNull node.

(** [case "Identifier"] (lines 122-124). *)
Definition convert_Identifier node : M ir (value ir) :=
  let* name := get node "name" in
  ret (VIR (identifier builder name)).

(** [new RegExp(pattern, flags)] (lines 129-132): the object the engine
    builds, or the exception it throws. *)
Definition new_RegExp (pattern flags : value ir) : M ir (value ir) :=
  fun s =>
    match newRegExp builder (heap s) pattern flags with
    | inl e => Some (Throw e s)
    | inr (source, flags') => Some (Ok (VRegExp source flags') s)
    end.

(** [case "Literal"] (lines 125-138). *)
Definition convert_Literal node : M ir (value ir) :=
  let* regex := get node "regex" in
  let* literalValue :=
    if truthy regex then
      let* pattern := get regex "pattern" in
      let* flags := get regex "flags" in
      new_RegExp pattern flags
    else get node "value" in
  ret (VIR (literal builder literalValue)).

(** [case "TaggedTemplateExpression"] (lines 139-148). *)
Definition convert_TaggedTemplateExpression node : M ir (value ir) :=
  let* tag := get node "tag" in
  let* name := get tag "name" in
  if is_str name "$nonstandard" then
    let* quasi := convert_field node "quasi" in
    if truthy quasi then assign builder quasi "nonstandard" (VBool true)
    else ret VNull
  else ret VNull.

(** [case "TemplateLiteral"] (lines 149-156). *)
Definition convert_TemplateLiteral node : M ir (value ir) :=
  let* qs := get node "quasis" in
  let* quasis :=
    array_map qs (fun q => let* v := get q "value" in get v "cooked") in
  let* expressions := convert_field node "expressions" in
  if truthy expressions then ret (VIR (templateLiteral builder quasis expressions))
  else ret VNull.

(** [case "LogicalExpression"] (lines 157-169). *)
Definition convert_LogicalExpression node : M ir (value ir) :=
  let* left := convert_field node "left" in
  if negb (truthy left) then ret VNull
  else
    let* right := convert_field node "right" in
    if negb (truthy right) then ret VNull
    else
      let* operator := get node "operator" in
      ret (VIR (logicalExpression builder left operator right)).

(** [case "MemberExpression"] (lines 170-186). *)
Definition convert_MemberExpression node : M ir (value ir) :=
  let* object := convert_field node "object" in
  if negb (truthy object) then ret VNull
  else
    let* prop := convert_field node "property" in
    if negb (truthy prop) then ret VNull
    else
      let* computed := get node "computed" in
      ret (VIR (memberExpression builder object prop computed)).

(** [case "NewExpression"] (lines 187-200). *)
Definition convert_NewExpression node : M ir (value ir) :=
  let* callee := convert_field node "callee" in
  if negb (truthy callee) then ret VNull
  else
    let* args := convert_field node "arguments" in
    if negb (truthy args) then ret VNull
    else ret (VIR (newExpression builder callee args)).

(** [for (let child of node.body)] of the [Program] case (lines 207-214),
    with [n] children left; [next i] fetches the [i]-th child.  The number of
    children is fixed when the loop starts: no array changes length. *)
Fixpoint append_children (n : nat) (next : nat -> M ir (value ir)) (i : nat)
    (container : ir) : M ir (value ir) :=
  match n with
  | O => ret (VIR container)
  | S n' =>
      let* child := next i in
      let* convertedChild := convert child in
      if truthy convertedChild then
        append_children n' next (S i) (appendChild builder container convertedChild)
      else ret VNull
  end.

(** [case "Program"] (lines 201-216). *)
Definition convert_Program node : M ir (value ir) :=
  let* body := get node "body" in
  let* single :=
    if truthy body then
      let* len := get body "length" in ret (is_num len 1)
    else ret false in
  if single then
    let* first := get_index body 0 in convert first
  else
    let* children := iterate builder body in
    append_children (fst children) (snd children) 0 (containerNode builder).

(** [case "ObjectExpression"] (lines 217-223). *)
Definition convert_ObjectExpression node : M ir (value ir) :=
  let* properties := convert_field node "properties" in
  if negb (truthy properties) then ret VNull
  else ret (VIR (objectExpression builder properties)).

(** The key of a property, from its conversion (lines 236-240). *)
Definition property_key (computed : bool) (key : value ir) : M ir (value ir) :=
  if negb computed then
    let* type := get key "type" in
    if is_str type "Identifier" then
      let* name := get key "name" in ret (VIR (literal builder name))
    else ret key
  else ret key.

(** [case "Property"] (lines 224-248). *)
Definition convert_Property node : M ir (value ir) :=
  let* c := get node "computed" in
  let computed := is_true c in
  let* key := convert_field node "key" in
  if negb (truthy key) then ret VNull
  else
    let* kind := get node "kind" in
    if is_str kind "get" || is_str kind "set" then ret VNull
    else
      let* key := property_key computed key in
      let* value := convert_field node "value" in
      if negb (truthy value) then ret VNull
      else ret (VIR (property builder key value (VBool computed))).

(** [case "ReturnStatement"] (lines 249-260). *)
Definition convert_ReturnStatement node : M ir (value ir) :=
  let* argument := get node "argument" in
  if negb (nullish argument) then
    let* argument := convert_field node "argument" in
    if negb (truthy argument) then ret VNull
    else ret (VIR (returnStatement builder argument))
  else ret (VIR (returnStatement builder argument)).

(** [case "ThisExpression"] (lines 261-263). *)
Definition convert_ThisExpression node : M ir (value ir) :=
  ret (VIR (thisExpression builder)).

(** [case "UnaryExpression"] (lines 264-275). *)
Definition convert_UnaryExpression node : M ir (value ir) :=
  let* argument := convert_field node "argument" in
  if negb (truthy argument) then ret VNull
  else
    let* operator := get node "operator" in
    let* prefix := get node "prefix" in
    ret (VIR (unaryExpression builder argument operator prefix)).

(** [case "UpdateExpression"] (lines 276-287). *)
Definition convert_UpdateExpression node : M ir (value ir) :=
  let* argument := convert_field node "argument" in
  if negb (truthy argument) then ret VNull
  else
    let* operator := get node "operator" in
    let* prefix := get node "prefix" in
    ret (VIR (updateExpression builder argument operator prefix)).

(** [case "VariableDeclarator"] (lines 288-304). *)
Definition convert_VariableDeclarator node : M ir (value ir) :=
  let* id := convert_field node "id" in
  if negb (truthy id) then ret VNull
  else
    let* i := get node "init" in
    if truthy i then
      let* init := convert_field node "init" in
      if negb (truthy init) then ret VNull
      else ret (VIR (variableDeclarator builder id init))
    else ret (VIR (variableDeclarator builder id VUndefined)).

(** [case "VariableDeclaration"] (lines 305-314). *)
Definition convert_VariableDeclaration node : M ir (value ir) :=
  let* kind := get node "kind" in
  let* declarations := convert_field node "declarations" in
  if negb (truthy declarations) then ret VNull
  else ret (VIR (vars builder declarations kind)).

(** The [do ... while (alternate)] loop of the [IfStatement] case (lines
    333-361), with [n] iterations of fuel left; [next] is the end of the loop
    body, [alternate = alternate.alternate], and the test. *)
Fixpoint else_chain (n : nat) (alternate : value ir) (container : ir)
  : M ir (value ir) :=
  match n with
  | O => out_of_fuel
  | S n' =>
      let next (container : ir) : M ir (value ir) :=
        let* alternate := get alternate "alternate" in
        if truthy alternate then else_chain n' alternate container
        else ret (VIR container) in
      let* consequent := get alternate "consequent" in
      if truthy consequent then
        let* elseIfNodeTest := convert_field alternate "test" in
        let* elseIfNodeBody := convert_field alternate "consequent" in
        if negb (truthy elseIfNodeTest) || negb (truthy elseIfNodeBody) then ret VNull
        else
          next (appendChild builder container
                  (VIR (elseIfStatement builder elseIfNodeTest elseIfNodeBody)))
      else
        let* elseNodeBody := convert alternate in
        if negb (truthy elseNodeBody) then ret VNull
        else next (appendChild builder container (VIR (elseStatement builder elseNodeBody)))
  end.

(** [case "IfStatement"] (lines 315-364). *)
Definition convert_IfStatement node : M ir (value ir) :=
  let* ifNodeTest := convert_field node "test" in
  let* ifNodeBody := convert_field node "consequent" in
  if negb (truthy ifNodeTest) || negb (truthy ifNodeBody) then ret VNull
  else
    let ifNode := ifStatement builder ifNodeTest ifNodeBody in
    let* alternate := get node "alternate" in
    if negb (truthy alternate) then ret (VIR ifNode)
    else
      else_chain fuel alternate (appendChild builder (containerNode builder) (VIR ifNode)).

(** [case "ForStatement"] (lines 365-386). *)
Definition convert_ForStatement node : M ir (value ir) :=
  let* forNodeInit := convert_field node "init" in
  let* forNodeTest := convert_field node "test" in
  let* forNodeUpdate := convert_field node "update" in
  let* forNodeBody := convert_field node "body" in
  if negb (truthy forNodeInit) || negb (truthy forNodeTest)
     || negb (truthy forNodeUpdate) || negb (truthy forNodeBody)
  then ret VNull
  else ret (VIR (forStatement builder forNodeInit forNodeTest forNodeUpdate forNodeBody)).

(** [case "WhileStatement"] (lines 387-396). *)
Definition convert_WhileStatement node : M ir (value ir) :=
  let* whileNodeTest := convert_field node "test" in
  let* whileNodeBody := convert_field node "body" in
  if negb (truthy whileNodeTest) || negb (truthy whileNodeBody) then ret VNull
  else ret (VIR (whileStatement builder whileNodeTest whileNodeBody)).

(** [switch (node.type)] (lines 15-399): strict equality with each label in
    turn, [default] (lines 397-398) last. *)
Definition convert_switch (type : value ir) node : M ir (value ir) :=
  if is_str type "ArrayExpression" then convert_ArrayExpression node
  else if is_str type "AssignmentExpression" then convert_AssignmentExpression node
  else if is_str type "BinaryExpression" then convert_BinaryExpression node
  else if is_str type "BlockStatement" then convert_BlockStatement node
  else if is_str type "CallExpression" then convert_CallExpression node
  else if is_str type "ConditionalExpression" then convert_ConditionalExpression node
  else if is_str type "ExpressionStatement" then convert_ExpressionStatement node
  else if is_str type "FunctionDeclaration" then convert_Function node
  else if is_str type "FunctionExpression" then convert_Function node
  else if is_str type "Identifier" then convert_Identifier node
  else if is_str type "Literal" then convert_Literal node
  else if is_str type "TaggedTemplateExpression" then convert_TaggedTemplateExpression node
  else if is_str type "TemplateLiteral" then convert_TemplateLiteral node
  else if is_str type "LogicalExpression" then convert_LogicalExpression node
  else if is_str type "MemberExpression" then convert_MemberExpression node
  else if is_str type "NewExpression" then convert_NewExpression node
  else if is_str type "Program" then convert_Program node
  else if is_str type "ObjectExpression" then convert_ObjectExpression node
  else if is_str type "Property" then convert_Property node
  else if is_str type "ReturnStatement" then convert_ReturnStatement node
  else if is_str type "ThisExpression" then convert_ThisExpression node
  else if is_str type "UnaryExpression" then convert_UnaryExpression node
  else if is_str type "UpdateExpression" then convert_UpdateExpression node
  else if is_str type "VariableDeclarator" then convert_VariableDeclarator node
  else if is_str type "VariableDeclaration" then convert_VariableDeclaration node
  else if is_str type "IfStatement" then convert_IfStatement node
  else if is_str type "ForStatement" then convert_ForStatement node
  else if is_str type "WhileStatement" then convert_WhileStatement node
  else ret VNull.

(** The body of [convert] (lines 2-400). *)
Definition convert_call node : M ir (value ir) :=
  do log (Call node) in
  let* result :=
    let* nodes := array_ref node in
    match nodes with
    | Some nodes => convert_array nodes
    | None => let* type := get node "type" in convert_switch type node
    end in
  do log (Return node result) in
  ret result.

End Convert.

(** [convert], by recursion on fuel. *)
Fixpoint convert {ir : Type} (builder : Builder ir) (fuel : nat) (node : value ir)
  : M ir (value ir) :=
  match fuel with
  | O => out_of_fuel
  | S fuel' => convert_call builder (convert builder fuel') fuel' node
  end.

(** The exported function: [return convert(ast)]. *)
Definition convertRawJavaScriptAst {ir : Type} (fuel : nat) (ast : value ir)
    (builder : Builder ir) : M ir (value ir) :=
  convert builder fuel ast.

(** [convert node] started in [s] ends with [r]. *)
Definition converts {ir : Type} (builder : Builder ir) (node : value ir)
    (s : state ir) (r : result ir (value ir)) : Prop :=
  exists fuel, convert builder fuel node s = Some r.

(** ** A builder stub *)

(** A concrete builder for the examples: an IR node records the name of the
    constructor that made it (as its [type]), the arguments under their
    parameter names, and the children appended to it (for a template, the
    cooked strings).  The identifier and literal nodes have the [type] and
    [name] the [Property] case looks at.

    With it comes a [RegExp] constructor for the examples.  It knows a
    fragment of the language only: patterns made of letters, digits and the
    quantifiers [+], [*] and [?], and flags among [dgimsuvy].  On this
    fragment it does what an engine does: the pattern is valid when each
    quantifier follows a letter or a digit (a [?] may also follow a
    quantifier, once), the flags when no letter is repeated and [u] and [v]
    do not come together; [source] is the pattern ([(?:)] for the empty one)
    and [flags] the letters in the order [dgimsuvy].  An operand left out
    ([undefined]) is the empty string.  Anything outside the fragment it
    refuses with a [SyntaxError]: no example goes there. *)
#[warnings="-register-all"] Inductive tree : Type :=
  | Node (fields : list (string * value tree)) (children : list (value tree)).

Module Stub.

Definition node (type : string) (fields : list (string * value tree)) : tree :=
  Node (("type", VStr type) :: fields) [].

Fixpoint assoc (name : string) (fields : list (string * value tree)) : value tree :=
  match fields with
  | [] => VUndefined
  | (k, x) :: fields' => if String.eqb k name then x else assoc name fields'
  end.

Definition read (n : tree) (name : string) : value tree :=
  match n with Node fields _ => assoc name fields end.

Definition write (n : tree) (name : string) (x : value tree) : tree :=
  match n with Node fields children => Node ((name, x) :: fields) children end.

Definition append (n : tree) (x : value tree) : tree :=
  match n with Node fields children => Node fields (children ++ [x]) end.

(** [c] is a letter or a digit. *)
Definition is_alnum (c : Ascii.ascii) : bool :=
  let n := Ascii.nat_of_ascii c in
  Nat.leb 48 n && Nat.leb n 57 || Nat.leb 65 n && Nat.leb n 90 || Nat.leb 97 n && Nat.leb n 122.

Definition is_char (c : Ascii.ascii) (t : string) : bool :=
  existsb (Ascii.eqb c) (String.list_ascii_of_string t).

(** Where the reading of a pattern stands: nothing to repeat, after a letter
    or digit, after a quantifier, after a quantifier made lazy. *)
Inductive pattern_state : Type := Nothing | Atom | Quantifier | Lazy.

Fixpoint pattern_ok (st : pattern_state) (p : list Ascii.ascii) : bool :=
  match p with
  | [] => true
  | c :: p' =>
      if is_alnum c then pattern_ok Atom p'
      else if is_char c "+*" then
        match st with
        | Atom => pattern_ok Quantifier p'
        | _ => false
        end
      else if is_char c "?" then
        match st with
        | Atom => pattern_ok Quantifier p'
        | Quantifier => pattern_ok Lazy p'
        | _ => false
        end
      else false
  end.

Fixpoint flags_ok (f : list Ascii.ascii) : bool :=
  match f with
  | [] => true
  | c :: f' =>
      is_char c "dgimsuvy" && negb (existsb (Ascii.eqb c) f')
      && negb (is_char c "uv" && existsb (fun c' => is_char c' "uv") f')
      && flags_ok f'
  end.

Definition ordered_flags (f : string) : string :=
  String.string_of_list_ascii
    (List.filter (fun c => is_char c f) (String.list_ascii_of_string "dgimsuvy")).

(** The string of an operand of [new RegExp], of the two kinds the stub
    knows. *)
Definition operand (v : value tree) : option string :=
  match v with
  | VUndefined => Some ""
  | VStr t => Some t
  | _ => None
  end.

Definition regExp (store : gmap loc (cell tree)) (pattern flags : value tree)
  : error + string * string :=
  match operand pattern, operand flags with
  | Some p, Some f =>
      if pattern_ok Nothing (String.list_ascii_of_string p) && flags_ok (String.list_ascii_of_string f)
      then inr (if String.eqb p "" then "(?:)" else p, ordered_flags f)
      else inl SyntaxError
  | _, _ => inl SyntaxError
  end.

Definition builder : Builder tree := {|
  arrayExpression elements := node "ArrayExpression" [("elements", elements)];
  assignment left right operator :=
    node "Assignment" [("left", left); ("right", right); ("operator", operator)];
  binaryExpression left operator right :=
    node "BinaryExpression" [("left", left); ("operator", operator); ("right", right)];
  functionCall callee args := node "FunctionCall" [("callee", callee); ("args", args)];
  conditionalExpression test consequent alternate :=
    node "ConditionalExpression"
      [("test", test); ("consequent", consequent); ("alternate", alternate)];
  functionDeclaration name params body :=
    node "FunctionDeclaration" [("name", name); ("params", params); ("body", body)];
  identifier name := node "Identifier" [("name", name)];
  literal value := node "Literal" [("value", value)];
  templateLiteral quasis expressions :=
    Node [("type", VStr "TemplateLiteral"); ("expressions", expressions)] quasis;
  logicalExpression left operator right :=
    node "LogicalExpression" [("left", left); ("operator", operator); ("right", right)];
  memberExpression object prop computed :=
    node "MemberExpression" [("object", object); ("property", prop); ("computed", computed)];
  newExpression callee args := node "NewExpression" [("callee", callee); ("args", args)];
  containerNode := node "ContainerNode" [];
  objectExpression properties := node "ObjectExpression" [("properties", properties)];
  property key value computed :=
    node "Property" [("key", key); ("value", value); ("computed", computed)];
  returnStatement argument := node "Return" [("argument", argument)];
  thisExpression := node "ThisExpression" [];
  unaryExpression argument operator prefix :=
    node "UnaryExpression" [("argument", argument); ("operator", operator); ("prefix", prefix)];
  updateExpression argument operator prefix :=
    node "UpdateExpression" [("argument", argument); ("operator", operator); ("prefix", prefix)];
  variableDeclarator id init := node "VariableDeclarator" [("id", id); ("init", init)];
  vars declarations kind := node "Vars" [("declarations", declarations); ("kind", kind)];
  ifStatement test body := node "If" [("test", test); ("body", body)];
  elseIfStatement test body := node "ElseIf" [("test", test); ("body", body)];
  elseStatement body := node "Else" [("body", body)];
  forStatement init test update body :=
    node "ForStatement" [("init", init); ("test", test); ("update", update); ("body", body)];
  whileStatement test body := node "WhileStatement" [("test", test); ("body", body)];
  ir_get := read;
  ir_set := write;
  appendChild := append;
  newRegExp := regExp
|}.

(** An object of the source tree, from its properties. *)
Definition obj (fields : list (string * value tree)) : cell tree :=
  Obj (list_to_map fields).

(** An array of the source tree. *)
Definition arr (elements : list (value tree)) : cell tree := Arr elements ∅.

(** The properties of a cell. *)
Definition fields_of (c : cell tree) : gmap string (value tree) :=
  match c with
  | Obj fields => fields
  | Arr _ props => props
  end.

(** A store, from its cells, with an empty trace. *)
Definition put (l : loc) (c : cell tree) : loc * cell tree := (l, c).

Arguments put l%_positive c.

Definition store (cells : list (loc * cell tree)) : state tree :=
  State (list_to_map cells) [].

(** The IR identifier [name], as [builder.identifier] makes it. *)
Definition ident (name : string) : value tree :=
  VIR (node "Identifier" [("name", VStr name)]).

(** The nodes the examples are made of. *)
Definition Identifier (name : string) : cell tree :=
  obj [("type", VStr "Identifier"); ("name", VStr name)].

Definition Literal (value : value tree) : cell tree :=
  obj [("type", VStr "Literal"); ("value", value)].

Definition ExpressionStatement (expression : loc) : cell tree :=
  obj [("type", VStr "ExpressionStatement"); ("expression", VRef expression)].

Definition BlockStatement (body : loc) : cell tree :=
  obj [("type", VStr "BlockStatement"); ("body", VRef body)].

Definition IfStatement (test consequent : loc) (alternate : value tree) : cell tree :=
  obj [("type", VStr "IfStatement"); ("test", VRef test);
       ("consequent", VRef consequent); ("alternate", alternate)].

Definition ForStatement (init test update : value tree) (body : loc) : cell tree :=
  obj [("type", VStr "ForStatement"); ("init", init); ("test", test);
       ("update", update); ("body", VRef body)].

Definition SequenceExpression (expressions : loc) : cell tree :=
  obj [("type", VStr "SequenceExpression"); ("expressions", VRef expressions)].

Definition Property (kind : string) (computed : bool) (key value : loc) : cell tree :=
  obj [("type", VStr "Property"); ("kind", VStr kind); ("computed", VBool computed);
       ("key", VRef key); ("value", VRef value)].

Arguments ExpressionStatement expression%_positive.
Arguments BlockStatement body%_positive.
Arguments IfStatement (test consequent)%_positive alternate.
Arguments ForStatement init test update body%_positive.
Arguments SequenceExpression expressions%_positive.
Arguments Property kind computed (key value)%_positive.

End Stub.

(** ** Example trees *)

Module Examples.
Import Stub.

(** The array [[a, (b, c), <hole>]]: an identifier, a sequence expression
    (not a supported kind) and [null]. *)
Definition array_with_unsupported : state tree := store [
  put 1 (arr [VRef 2; VRef 3; VNull]);
  put 2 (Identifier "a");
  put 3 (SequenceExpression 4);
  put 4 (arr [VRef 5; VRef 6]);
  put 5 (Identifier "b");
  put 6 (Identifier "c") ].

(** The array [[a]]. *)
Definition array_of_identifier : state tree := store [
  put 1 (arr [VRef 2]);
  put 2 (Identifier "a") ].

(** [if (a) { x; } else if (b) { y; } else { z; }] *)
Definition if_else_if_else : state tree := store [
  put 1 (IfStatement 2 3 (VRef 7));
  put 2 (Identifier "a");
  put 3 (BlockStatement 4);
  put 4 (arr [VRef 5]);
  put 5 (ExpressionStatement 6);
  put 6 (Identifier "x");
  put 7 (IfStatement 8 9 (VRef 13));
  put 8 (Identifier "b");
  put 9 (BlockStatement 10);
  put 10 (arr [VRef 11]);
  put 11 (ExpressionStatement 12);
  put 12 (Identifier "y");
  put 13 (BlockStatement 14);
  put 14 (arr [VRef 15]);
  put 15 (ExpressionStatement 16);
  put 16 (Identifier "z") ].

(** [if (a, b) for (;;) {}]: the test is of an unsupported kind, the
    consequent is a loop without [init], [test] and [update]. *)
Definition if_sequence_for : state tree := store [
  put 1 (IfStatement 2 6 VNull);
  put 2 (SequenceExpression 3);
  put 3 (arr [VRef 4; VRef 5]);
  put 4 (Identifier "a");
  put 5 (Identifier "b");
  put 6 (ForStatement VNull VNull VNull 7);
  put 7 (BlockStatement 8);
  put 8 (arr []) ].

(** [for (;;) {}] *)
Definition for_ever : state tree := store [
  put 1 (ForStatement VNull VNull VNull 2);
  put 2 (BlockStatement 3);
  put 3 (arr []) ].

(** [for (a, b; ; ) {}]: the [init] is of an unsupported kind, [test] and
    [update] are absent. *)
Definition for_sequence : state tree := store [
  put 1 (ForStatement (VRef 2) VNull VNull 6);
  put 2 (SequenceExpression 3);
  put 3 (arr [VRef 4; VRef 5]);
  put 4 (Identifier "a");
  put 5 (Identifier "b");
  put 6 (BlockStatement 7);
  put 7 (arr []) ].

(** The program [a; b;]. *)
Definition program_of_two : state tree := store [
  put 1 (obj [("type", VStr "Program"); ("body", VRef 2)]);
  put 2 (arr [VRef 3; VRef 5]);
  put 3 (ExpressionStatement 4);
  put 4 (Identifier "a");
  put 5 (ExpressionStatement 6);
  put 6 (Identifier "b") ].

(** The empty program. *)
Definition program_of_none : state tree := store [
  put 1 (obj [("type", VStr "Program"); ("body", VRef 2)]);
  put 2 (arr []) ].

(** The properties of [{a: 1}] and of [{"a": 1}]. *)
Definition property_a : state tree := store [
  put 1 (Property "init" false 2 3);
  put 2 (Identifier "a");
  put 3 (Literal (VNum 1)) ].

Definition property_quoted_a : state tree := store [
  put 1 (Property "init" false 2 3);
  put 2 (Literal (VStr "a"));
  put 3 (Literal (VNum 1)) ].

(** [({ b: 2, get a() {} })]: an object literal whose second property is a
    getter. *)
Definition object_with_getter : state tree := store [
  put 1 (obj [("type", VStr "ObjectExpression"); ("properties", VRef 2)]);
  put 2 (arr [VRef 3; VRef 6]);
  put 3 (Property "init" false 4 5);
  put 4 (Identifier "b");
  put 5 (Literal (VNum 2));
  put 6 (Property "get" false 7 8);
  put 7 (Identifier "a");
  put 8 (obj [("type", VStr "FunctionExpression"); ("id", VNull);
              ("params", VRef 9); ("body", VRef 10)]);
  put 9 (arr []);
  put 10 (BlockStatement 11);
  put 11 (arr []) ].

(** The property of [({ get [[,]]() {} })]: a getter whose computed key is an
    array literal with a hole. *)
Definition getter_with_hole_key : state tree := store [
  put 1 (Property "get" true 2 4);
  put 2 (obj [("type", VStr "ArrayExpression"); ("elements", VRef 3)]);
  put 3 (arr [VNull]);
  put 4 (obj [("type", VStr "FunctionExpression"); ("id", VNull);
              ("params", VRef 5); ("body", VRef 6)]);
  put 5 (arr []);
  put 6 (BlockStatement 7);
  put 7 (arr []) ].

(** [$nonstandard`x`] *)
Definition tagged_nonstandard : state tree := store [
  put 1 (obj [("type", VStr "TaggedTemplateExpression"); ("tag", VRef 2);
              ("quasi", VRef 3)]);
  put 2 (Identifier "$nonstandard");
  put 3 (obj [("type", VStr "TemplateLiteral"); ("quasis", VRef 4);
              ("expressions", VRef 7)]);
  put 4 (arr [VRef 5]);
  put 5 (obj [("type", VStr "TemplateElement"); ("value", VRef 6)]);
  put 6 (obj [("raw", VStr "x"); ("cooked", VStr "x")]);
  put 7 (arr []) ].

(** [a + b] *)
Definition sum_a_b : state tree := store [
  put 1 (obj [("type", VStr "BinaryExpression"); ("operator", VStr "+");
              ("left", VRef 2); ("right", VRef 3)]);
  put 2 (Identifier "a");
  put 3 (Identifier "b") ].

(** [/ab+c/gi] *)
Definition regex_literal : state tree := store [
  put 1 (obj [("type", VStr "Literal"); ("value", VNull); ("regex", VRef 2)]);
  put 2 (obj [("pattern", VStr "ab+c"); ("flags", VStr "gi")]) ].

(** [/a/zz]: the flags are not valid. *)
Definition regex_literal_invalid : state tree := store [
  put 1 (obj [("type", VStr "Literal"); ("value", VNull); ("regex", VRef 2)]);
  put 2 (obj [("pattern", VStr "a"); ("flags", VStr "zz")]) ].

(** [for (/a/zz; ; ) {}]: the [init] is that literal, [test] and [update]
    are absent. *)
Definition for_regex_invalid : state tree := store [
  put 1 (ForStatement (VRef 2) VNull VNull 4);
  put 2 (obj [("type", VStr "Literal"); ("value", VNull); ("regex", VRef 3)]);
  put 3 (obj [("pattern", VStr "a"); ("flags", VStr "zz")]);
  put 4 (BlockStatement 5);
  put 5 (arr []) ].

(** [return;] and [return x;] *)
Definition return_nothing : state tree := store [
  put 1 (obj [("type", VStr "ReturnStatement"); ("argument", VNull)]) ].

Definition return_x : state tree := store [
  put 1 (obj [("type", VStr "ReturnStatement"); ("argument", VRef 2)]);
  put 2 (Identifier "x") ].

(** [a.b] *)
Definition member_a_b : state tree := store [
  put 1 (obj [("type", VStr "MemberExpression"); ("computed", VBool false);
              ("object", VRef 2); ("property", VRef 3)]);
  put 2 (Identifier "a");
  put 3 (Identifier "b") ].

(** [f(a)] *)
Definition call_f_a : state tree := store [
  put 1 (obj [("type", VStr "CallExpression"); ("callee", VRef 2);
              ("arguments", VRef 3)]);
  put 2 (Identifier "f");
  put 3 (arr [VRef 4]);
  put 4 (Identifier "a") ].

(** [a ? b : c] *)
Definition conditional_a_b_c : state tree := store [
  put 1 (obj [("type", VStr "ConditionalExpression"); ("test", VRef 2);
              ("consequent", VRef 3); ("alternate", VRef 4)]);
  put 2 (Identifier "a");
  put 3 (Identifier "b");
  put 4 (Identifier "c") ].

(** [[a]] as an expression. *)
Definition array_literal_a : state tree := store [
  put 1 (obj [("type", VStr "ArrayExpression"); ("elements", VRef 2)]);
  put 2 (arr [VRef 3]);
  put 3 (Identifier "a") ].

(** [!a] *)
Definition not_a : state tree := store [
  put 1 (obj [("type", VStr "UnaryExpression"); ("operator", VStr "!");
              ("prefix", VBool true); ("argument", VRef 2)]);
  put 2 (Identifier "a") ].

(** [{ a; }] *)
Definition block_of_a : state tree := store [
  put 1 (BlockStatement 2);
  put 2 (arr [VRef 3]);
  put 3 (ExpressionStatement 4);
  put 4 (Identifier "a") ].

(** [function f(a) {}] *)
Definition function_f_a : state tree := store [
  put 1 (obj [("type", VStr "FunctionDeclaration"); ("id", VRef 2);
              ("params", VRef 3); ("body", VRef 5)]);
  put 2 (Identifier "f");
  put 3 (arr [VRef 4]);
  put 4 (Identifier "a");
  put 5 (BlockStatement 6);
  put 6 (arr []) ].

(** The declarators of [var x = a] and of [var x]. *)
Definition declarator_x_a : state tree := store [
  put 1 (obj [("type", VStr "VariableDeclarator"); ("id", VRef 2); ("init", VRef 3)]);
  put 2 (Identifier "x");
  put 3 (Identifier "a") ].

Definition declarator_x : state tree := store [
  put 1 (obj [("type", VStr "VariableDeclarator"); ("id", VRef 2); ("init", VNull)]);
  put 2 (Identifier "x") ].

(** [while (a) b;] *)
Definition while_a_b : state tree := store [
  put 1 (obj [("type", VStr "WhileStatement"); ("test", VRef 2); ("body", VRef 3)]);
  put 2 (Identifier "a");
  put 3 (ExpressionStatement 4);
  put 4 (Identifier "b") ].

(** [for (a; b; c) d;] *)
Definition for_a_b_c_d : state tree := store [
  put 1 (ForStatement (VRef 2) (VRef 3) (VRef 4) 5);
  put 2 (Identifier "a");
  put 3 (Identifier "b");
  put 4 (Identifier "c");
  put 5 (ExpressionStatement 6);
  put 6 (Identifier "d") ].

(** The property of [{[a]: 1}]. *)
Definition property_computed_a : state tree := store [
  put 1 (Property "init" true 2 3);
  put 2 (Identifier "a");
  put 3 (Literal (VNum 1)) ].

(** A program node without a [body]. *)
Definition program_without_body : state tree := store [
  put 1 (obj [("type", VStr "Program")]) ].

(** The array [[a, <hole>, b]]. *)
Definition array_with_hole : state tree := store [
  put 1 (arr [VRef 2; VNull; VRef 3]);
  put 2 (Identifier "a");
  put 3 (Identifier "b") ].

End Examples.


(** ** Assertions on computations *)

Section Assertions.
Context {ir : Type}.
Implicit Types (s : state ir) (v : value ir).

(** [post m s Q E]: if [m] run in [s] returns [a] in state [s'] then
    [Q a s'], and if it throws in state [s'] then [E s']. *)
Definition post {A} (m : M ir A) s (Q : A -> state ir -> Prop)
    (E : state ir -> Prop) : Prop :=
  match m s with
  | Some (Ok a s') => Q a s'
  | Some (Throw _ s') => E s'
  | None => True
  end.

(** [m'] does whatever [m] does, and may do more where [m] runs out of fuel. *)
Definition refines {A} (m m' : M ir A) : Prop :=
  forall s r, m s = Some r -> m' s = Some r.

(** Two runs of [m] from states with the same store end alike: the same
    value or exception, and the same store. *)
Definition agree {A} (m : M ir A) : Prop :=
  forall s1 s2, heap s1 = heap s2 ->
    match m s1, m s2 with
    | Some (Ok a s1'), Some (Ok b s2') => a = b /\ heap s1' = heap s2'
    | Some (Throw e s1'), Some (Throw e' s2') => e = e' /\ heap s1' = heap s2'
    | None, None => True
    | _, _ => False
    end.

(** What a call leaves of the store it found: objects as they were, arrays
    with the length they had, and no cell where there was none; and the
    trace only grows.  The store holds the tree given to [convert]: what the
    code allocates (the IR nodes, the [RegExp] objects, the array of cooked
    strings) are values of the model, not cells of the store, so the last
    clause says nothing about allocation. *)
Definition preserved s s' : Prop :=
  (forall l,
      match heap s !! l with
      | Some (Obj fields) => heap s' !! l = Some (Obj fields)
      | Some (Arr elements _) =>
          exists elements' props',
            heap s' !! l = Some (Arr elements' props')
            /\ length elements' = length elements
      | None => heap s' !! l = None
      end)
  /\ exists t, trace s' = trace s ++ t.

(** What [convert] can return: the sentinel, an IR node, or an array. *)
Definition is_result s v : Prop :=
  match v with
  | VNull | VIR _ => True
  | VRef _ => isArray s v = true
  | _ => False
  end.

(** The number of calls that have returned the sentinel so far. *)
Definition is_reject (e : event ir) : bool :=
  match e with
  | Return _ VNull => true
  | _ => false
  end.

Definition rejections s : nat := length (filter is_reject (trace s)).

(** What every call of [convert] guarantees when it returns [v] in [s'], from
    [s]: the store is preserved, [v] is a result, and unless [v] is the
    sentinel no call has returned the sentinel meanwhile. *)
Definition returns_well s v s' : Prop :=
  preserved s s' /\ is_result s' v /\ (v <> VNull -> rejections s' = rejections s).

Definition well_behaved (m : M ir (value ir)) : Prop :=
  forall s, post m s (returns_well s) (preserved s).

End Assertions.

(** ** Runs of [convert] *)

Section Runs.
Context {ir : Type} (builder : Builder ir).
Implicit Types (s : state ir) (v node : value ir).

(** The state once [convert(node)] is entered, and once it has returned [v]. *)
Definition called node s : state ir := logged (Call node) s.

Definition returned node v s : state ir := logged (Return node v) s.

(** The result of [convert(node)] when its body ends with [r]. *)
Definition return_from node (r : result ir (value ir)) : result ir (value ir) :=
  match r with
  | Ok v s => Ok v (returned node v s)
  | Throw e s => Throw e s
  end.

(** [node] is the object at [l], with these properties and this [type]. *)
Definition node_at s (l : loc) (fields : gmap string (value ir)) (type : string)
  : Prop :=
  heap s !! l = Some (Obj fields) /\ fields !! "type" = Some (VStr type).

(** The labels of the [switch]. *)
Definition supported_kinds : list string :=
  [ "ArrayExpression"; "AssignmentExpression"; "BinaryExpression";
    "BlockStatement"; "CallExpression"; "ConditionalExpression";
    "ExpressionStatement"; "FunctionDeclaration"; "FunctionExpression";
    "Identifier"; "Literal"; "TaggedTemplateExpression"; "TemplateLiteral";
    "LogicalExpression"; "MemberExpression"; "NewExpression"; "Program";
    "ObjectExpression"; "Property"; "ReturnStatement"; "ThisExpression";
    "UnaryExpression"; "UpdateExpression"; "VariableDeclarator";
    "VariableDeclaration"; "IfStatement"; "ForStatement"; "WhileStatement" ].

(** The array [nodes] is not written between [s] and [s']. *)
Definition untouched (nodes : loc) s s' : Prop := heap s' !! nodes = heap s !! nodes.

Definition anything s s' : Prop := True.

(** The elements of [src] from index [i] on are converted one after the
    other, each in the state its predecessor left: [src[i]] in [s], giving
    [c] which is not the sentinel; then, from the state [after i c] makes of
    the one reached, the elements from [i + 1] on.  [cs] are the results in
    order and [s'] is the state at the end.  [frame] is a side condition on
    what each conversion does to the state. *)
Inductive converted_in_order (src : value ir)
    (after : nat -> value ir -> state ir -> state ir)
    (frame : state ir -> state ir -> Prop)
  : nat -> state ir -> list (value ir) -> state ir -> Prop :=
  | in_order_nil i s : converted_in_order src after frame i s [] s
  | in_order_cons i s x c s1 cs s2 :
      get_elem builder s src i = Some x ->
      converts builder x s (Ok c s1) ->
      c <> VNull ->
      frame s s1 ->
      converted_in_order src after frame (S i) (after i c s1) cs s2 ->
      converted_in_order src after frame i s (c :: cs) s2.

(** What the loops do between two elements: the array branch stores the
    result, the [Program] loop leaves the state alone. *)
Definition store_result (nodes : loc) (i : nat) (c : value ir) s : state ir :=
  stored nodes i c s.

Definition keep_state (i : nat) (c : value ir) s : state ir := s.

(** The container [container] after [children] were appended in order. *)
Definition append_all (container : ir) (children : list (value ir)) : ir :=
  fold_left (appendChild builder) children container.

(** One link of an [alternate] chain is converted, from [s] to [s'], into the
    IR node [n]: a link with a [consequent] gives an else-if node from its
    converted test and consequent, any other link an else node from its own
    conversion. *)
Inductive clause_converted : value ir -> state ir -> ir -> state ir -> Prop :=
  | clause_else_if l fields s t s1 b s2 :
      heap s !! l = Some (Obj fields) ->
      truthy (field fields "consequent") = true ->
      converts builder (field fields "test") s (Ok t s1) ->
      converts builder (field fields "consequent") s1 (Ok b s2) ->
      t <> VNull -> b <> VNull ->
      clause_converted (VRef l) s (elseIfStatement builder t b) s2
  | clause_else l fields s e s1 :
      heap s !! l = Some (Obj fields) ->
      truthy (field fields "consequent") = false ->
      converts builder (VRef l) s (Ok e s1) ->
      e <> VNull ->
      clause_converted (VRef l) s (elseStatement builder e) s1.

(** One link of an [alternate] chain is rejected, from [s] to [s']: the test
    or the consequent of an else-if link, both converted, gives the sentinel,
    or the conversion of an else link does. *)
Inductive clause_rejected : value ir -> state ir -> state ir -> Prop :=
  | reject_else_if l fields s t s1 b s2 :
      heap s !! l = Some (Obj fields) ->
      truthy (field fields "consequent") = true ->
      converts builder (field fields "test") s (Ok t s1) ->
      converts builder (field fields "consequent") s1 (Ok b s2) ->
      t = VNull \/ b = VNull ->
      clause_rejected (VRef l) s s2
  | reject_else l fields s s1 :
      heap s !! l = Some (Obj fields) ->
      truthy (field fields "consequent") = false ->
      converts builder (VRef l) s (Ok VNull s1) ->
      clause_rejected (VRef l) s s1.

(** The links of the chain from [alternate] on are converted one after the
    other into the IR nodes [ns], from [s] to [s']; [rest] is the
    [alternate] of the last link converted (what remains of the chain). *)
Inductive clauses_converted
  : value ir -> state ir -> list ir -> value ir -> state ir -> Prop :=
  | clauses_nil alternate s : clauses_converted alternate s [] alternate s
  | clauses_cons l fields s n s1 ns rest s2 :
      heap s !! l = Some (Obj fields) ->
      clause_converted (VRef l) s n s1 ->
      clauses_converted (field fields "alternate") s1 ns rest s2 ->
      clauses_converted (VRef l) s (n :: ns) rest s2.

(** A property holds for all large enough amounts of fuel. *)
Definition eventually (P : nat -> Prop) : Prop :=
  exists fuel, forall fuel', fuel <= fuel' -> P fuel'.

(** A conversion after which the call that made it goes no further: it
    threw, or it returned the sentinel. *)
Definition stops (r : result ir (value ir)) : Prop :=
  match r with
  | Ok v _ => v = VNull
  | Throw _ _ => True
  end.

(** The call of [convert] on [node], made in [s], has reached [s0] and goes
    on by converting [child].  When that conversion stops, the call ends the
    same way, in the state the conversion left: nothing else is converted.
    When it gives a [c] that is not the sentinel, the call returns
    [make c]. *)
Definition one_child node s (child : value ir) s0 (make : value ir -> value ir)
  : Prop :=
  (forall r,
      converts builder child s0 r -> stops r ->
      converts builder node s (return_from node r))
  /\ (forall c s1,
      converts builder child s0 (Ok c s1) -> c <> VNull ->
      converts builder node s (return_from node (Ok (make c) s1))).

(** The same with two children, converted one after the other: [second] is
    converted in the state the conversion of [first] left, and only when
    that one gave something else than the sentinel. *)
Definition two_children node s (first second : value ir) s0
    (make : value ir -> value ir -> value ir) : Prop :=
  (forall r,
      converts builder first s0 r -> stops r ->
      converts builder node s (return_from node r))
  /\ (forall a s1,
      converts builder first s0 (Ok a s1) -> a <> VNull ->
      one_child node s second s1 (make a)).

(** And with three. *)
Definition three_children node s (first second third : value ir) s0
    (make : value ir -> value ir -> value ir -> value ir) : Prop :=
  (forall r,
      converts builder first s0 r -> stops r ->
      converts builder node s (return_from node r))
  /\ (forall a s1,
      converts builder first s0 (Ok a s1) -> a <> VNull ->
      two_children node s second third s1 (make a)).

(** [quasi.value.cooked] is [c]. *)
Definition cooked_of s (quasi c : value ir) : Prop :=
  exists v,
    get_prop builder s quasi "value" = Some v
    /\ get_prop builder s v "cooked" = Some c.

End Runs.

(** ** Inputs that are trees *)

(** The places of a cell that hold a value: a property, or an element. *)
Inductive slot : Type :=
  | Field (name : string)
  | Index (i : nat).

Section Trees.
Context {ir : Type}.
Implicit Types (s : state ir) (v : value ir).

(** The value at a place of a cell.  (An object has its elements among its
    properties: [o[i]] is the property named by the decimal of [i].) *)
Definition slot_of (c : cell ir) (k : slot) : value ir :=
  match c, k with
  | Obj fields, Field name => field fields name
  | Obj fields, Index i => VUndefined
  | Arr elements props, Field name => field props name
  | Arr elements props, Index i => default VUndefined (elements !! i)
  end.

(** A value that is no reference into the store and no IR node. *)
Definition is_leaf v : bool :=
  match v with
  | VRef _ | VIR _ => false
  | _ => true
  end.

(** [tree_at s v F h]: in the store [s], the value [v] is the root of a tree
    of height at most [h] whose cells are those at the locations [F].  A
    leaf is a tree without cells.  A reference [l] to a cell is a tree when
    every value the cell holds is a tree, the trees of two different places
    sharing no cell and none of them holding [l]: nothing is reached twice,
    and there is no cycle.  [fp k] are the cells of the tree at place [k]. *)
Inductive tree_at s : value ir -> gset loc -> nat -> Prop :=
  | tree_leaf v h :
      is_leaf v = true ->
      tree_at s v ∅ h
  | tree_cell l c (fp : slot -> gset loc) F h :
      heap s !! l = Some c ->
      (forall k, tree_at s (slot_of c k) (fp k) h) ->
      (forall k k', k <> k' -> fp k ## fp k') ->
      (forall k, fp k ⊆ F) ->
      l ∉ F ->
      tree_at s (VRef l) ({[l]} ∪ F) (S h).

(** [total m s Q E]: [m] run in [s] does not run out of fuel; it returns
    some [a] in a state [s'] with [Q a s'], or throws in a state [s'] with
    [E s']. *)
Definition total {A} (m : M ir A) s (Q : A -> state ir -> Prop)
    (E : state ir -> Prop) : Prop :=
  match m s with
  | Some (Ok a s') => Q a s'
  | Some (Throw _ s') => E s'
  | None => False
  end.

(** The store of [s'] is that of [s] except at the locations that satisfy
    [P]. *)
Definition changes_only (P : loc -> Prop) s s' : Prop :=
  forall l, ~ P l -> heap s' !! l = heap s !! l.

(** A result that is an array is one of the cells [F]. *)
Definition result_in (F : gset loc) v : Prop :=
  match v with
  | VRef l => l ∈ F
  | _ => True
  end.

(** The cells of the trees at the places [D] of a cell. *)
Definition cells_at (fp : slot -> gset loc) (D : list slot) (l : loc) : Prop :=
  exists k, In k D /\ l ∈ fp k.

(** The cells a call on [l] may write to: [l] itself and the cells of the
    trees at its places, that at [alternate] only when the cell has a
    [consequent]. *)
Definition cells_of (l : loc) (c : cell ir) (fp : slot -> gset loc) (l' : loc)
  : Prop :=
  l' = l
  \/ exists k,
       l' ∈ fp k
       /\ (k = Field "alternate" -> truthy (slot_of c (Field "consequent")) = true).

(** What a call on the tree at [v] with cells [F] does, when it ends: it
    changes the store at the cells of the tree only; an array it returns is
    one of these cells; and it returns the sentinel for a falsy [v]. *)
Definition stays_in (F : gset loc) v s (r : value ir) s' : Prop :=
  changes_only (fun l => l ∈ F) s s'
  /\ result_in F r
  /\ (truthy r = true -> truthy v = true).

End Trees.

(** ** The monad *)

Section MonadFacts.
Context {ir : Type}.
Implicit Types (s : state ir) (v : value ir).

Lemma bind_ok {A B} (m : M ir A) (k : A -> M ir B) s a s' :
  m s = Some (Ok a s') -> bind m k s = k a s'.
Proof. unfold bind. intros ->. reflexivity. Qed.

Lemma bind_throw {A B} (m : M ir A) (k : A -> M ir B) s e s' :
  m s = Some (Throw e s') -> bind m k s = Some (Throw e s').
Proof. unfold bind. intros ->. reflexivity. Qed.

Lemma bind_inv {A B} (m : M ir A) (k : A -> M ir B) s r :
  bind m k s = Some r ->
  (exists a s', m s = Some (Ok a s') /\ k a s' = Some r)
  \/ (exists e s', m s = Some (Throw e s') /\ r = Throw e s').
Proof.
  unfold bind. destruct (m s) as [[a s'|e s']|]; intros H.
  - left. eauto.
  - right. inversion H. eauto.
  - discriminate.
Qed.

(** *** Rules for [post] *)

Lemma post_ret {A} (a : A) s (Q : A -> state ir -> Prop) E :
  Q a s -> post (ret a) s Q E.
Proof. intros H. exact H. Qed.

Lemma post_throw {A} e s (Q : A -> state ir -> Prop) (E : state ir -> Prop) :
  E s -> post (throw e) s Q E.
Proof. intros H. exact H. Qed.

Lemma post_out_of_fuel {A} s (Q : A -> state ir -> Prop) E :
  post out_of_fuel s Q E.
Proof. exact I. Qed.

Lemma post_bind {A B} (m : M ir A) (k : A -> M ir B) s Q E :
  post m s (fun a s' => post (k a) s' Q E) E -> post (bind m k) s Q E.
Proof.
  unfold post, bind. destruct (m s) as [[a s'|e s']|]; auto.
Qed.

Lemma post_mono {A} (m : M ir A) s (Q Q' : A -> state ir -> Prop)
    (E E' : state ir -> Prop) :
  post m s Q E ->
  (forall a s', Q a s' -> Q' a s') -> (forall s', E s' -> E' s') ->
  post m s Q' E'.
Proof.
  unfold post. destruct (m s) as [[a s'|e s']|]; auto.
Qed.

Lemma post_elim {A} (m : M ir A) s Q E r :
  post m s Q E -> m s = Some r ->
  match r with Ok a s' => Q a s' | Throw _ s' => E s' end.
Proof. unfold post. intros H Hr. rewrite Hr in H. exact H. Qed.

Lemma post_intro {A} (m : M ir A) s (Q : A -> state ir -> Prop)
    (E : state ir -> Prop) :
  (forall r, m s = Some r ->
     match r with Ok a s' => Q a s' | Throw _ s' => E s' end) ->
  post m s Q E.
Proof.
  unfold post. intros H. destruct (m s) as [r|]; [|exact I].
  specialize (H r eq_refl). destruct r; exact H.
Qed.

(** *** Rules for [refines] *)

Lemma refines_refl {A} (m : M ir A) : refines m m.
Proof. intros s r H. exact H. Qed.

Lemma refines_bind {A B} (m m' : M ir A) (k k' : A -> M ir B) :
  refines m m' -> (forall a, refines (k a) (k' a)) ->
  refines (bind m k) (bind m' k').
Proof.
  intros Hm Hk s r H. apply bind_inv in H as [(a & s' & H1 & H2)|(e & s' & H1 & ->)].
  - rewrite (bind_ok _ _ _ _ _ (Hm _ _ H1)). apply Hk, H2.
  - apply bind_throw, Hm, H1.
Qed.

Lemma refines_out_of_fuel {A} (m : M ir A) : refines out_of_fuel m.
Proof. intros s r H. discriminate. Qed.

End MonadFacts.

(** ** What a call leaves of the store *)

Section Preserved.
Context {ir : Type} (builder : Builder ir).
Implicit Types (s : state ir) (v : value ir).

Lemma post_reads {A} (f : state ir -> A) s (Q : A -> state ir -> Prop) E :
  Q (f s) s -> post (reads f) s Q E.
Proof. intros H. exact H. Qed.

Lemma post_reads_or_throws {A} (f : state ir -> option A) s
    (Q : A -> state ir -> Prop) (E : state ir -> Prop) :
  (forall a, f s = Some a -> Q a s) -> (f s = None -> E s) ->
  post (reads_or_throws f) s Q E.
Proof.
  unfold post, reads_or_throws. intros HQ HE.
  destruct (f s) as [a|]; auto.
Qed.

Lemma post_modify (f : state ir -> state ir) s (Q : unit -> state ir -> Prop) E :
  Q tt (f s) -> post (modify f) s Q E.
Proof. intros H. exact H. Qed.

(** [new RegExp] returns a [RegExp] object or throws, in the state it was
    called in. *)
Lemma post_new_RegExp pattern flags s
    (Q : value ir -> state ir -> Prop) (E : state ir -> Prop) :
  (forall source flags', Q (VRegExp source flags') s) -> E s ->
  post (new_RegExp builder pattern flags) s Q E.
Proof.
  unfold post, new_RegExp. intros HQ HE.
  destruct (newRegExp builder (heap s) pattern flags) as [e|[source flags']]; auto.
Qed.

Lemma preserved_refl s : preserved s s.
Proof.
  split.
  - intros l. destruct (heap s !! l) as [[fields|elements props]|]; eauto.
  - exists []. by rewrite app_nil_r.
Qed.

Lemma preserved_trans s1 s2 s3 :
  preserved s1 s2 -> preserved s2 s3 -> preserved s1 s3.
Proof.
  intros [H1 [t1 T1]] [H2 [t2 T2]]. split.
  - intros l. specialize (H1 l). specialize (H2 l).
    destruct (heap s1 !! l) as [[fields|elements props]|].
    + rewrite H1 in H2. exact H2.
    + destruct H1 as (es' & ps' & E1 & L1). rewrite E1 in H2.
      destruct H2 as (es'' & ps'' & E2 & L2).
      exists es'', ps''. split; [exact E2|congruence].
    + rewrite H1 in H2. exact H2.
  - exists (t1 ++ t2). rewrite T2, T1. by rewrite app_assoc.
Qed.

Lemma preserved_logged e s : preserved s (logged e s).
Proof.
  split.
  - intros l. simpl. destruct (heap s !! l) as [[fields|elements props]|]; eauto.
  - by exists [e].
Qed.

Lemma length_array_set (elements : list (value ir)) i x :
  i < length elements -> length (array_set elements i x) = length elements.
Proof.
  intros H. unfold array_set. rewrite decide_True by exact H. apply length_insert.
Qed.

Lemma preserved_stored nodes i x s :
  i < length_of s nodes -> preserved s (stored nodes i x s).
Proof.
  unfold length_of, stored. intros Hi.
  destruct (heap s !! nodes) as [[fields|elements props]|] eqn:E;
    try apply preserved_refl.
  split; [|exists []; simpl; by rewrite app_nil_r].
  intros l. simpl. destruct (decide (nodes = l)) as [->|Hne].
  - rewrite E, lookup_insert_eq. eexists _, _. split; [reflexivity|].
    by apply length_array_set.
  - rewrite lookup_insert_ne by exact Hne.
    destruct (heap s !! l) as [[fields|elements' props']|]; eauto.
Qed.

Lemma preserved_assigned l name x s :
  isArray s (VRef l) = true -> preserved s (assigned l name x s).
Proof.
  unfold isArray, assigned. intros Ha.
  destruct (heap s !! l) as [[fields|elements props]|] eqn:E; try discriminate.
  split; [|exists []; simpl; by rewrite app_nil_r].
  intros l'. simpl. destruct (decide (l = l')) as [->|Hne].
  - rewrite E, lookup_insert_eq. eauto.
  - rewrite lookup_insert_ne by exact Hne.
    destruct (heap s !! l') as [[fields|elements' props']|]; eauto.
Qed.

Lemma preserved_isArray s s' v :
  preserved s s' -> isArray s' v = isArray s v.
Proof.
  intros [H _]. destruct v; try reflexivity. simpl. specialize (H l).
  destruct (heap s !! l) as [[fields|elements props]|].
  - by rewrite H.
  - destruct H as (es' & ps' & -> & _). reflexivity.
  - by rewrite H.
Qed.

Lemma preserved_length_of s s' nodes :
  preserved s s' -> length_of s' nodes = length_of s nodes.
Proof.
  intros [H _]. unfold length_of. specialize (H nodes).
  destruct (heap s !! nodes) as [[fields|elements props]|].
  - by rewrite H.
  - destruct H as (es' & ps' & -> & L). exact L.
  - by rewrite H.
Qed.

Lemma preserved_object s s' l fields :
  preserved s s' -> heap s !! l = Some (Obj fields) -> heap s' !! l = Some (Obj fields).
Proof. intros [H _] E. specialize (H l). by rewrite E in H. Qed.

Lemma is_result_preserved s s' v :
  preserved s s' -> is_result s v -> is_result s' v.
Proof.
  intros H. destruct v; try (simpl; tauto).
  unfold is_result. by rewrite (preserved_isArray _ _ (VRef l) H).
Qed.

Lemma truthy_not_null v : truthy v = true -> v <> VNull.
Proof. intros H ->. discriminate. Qed.

Lemma is_result_truthy s v : is_result s v -> v = VNull \/ truthy v = true.
Proof. destruct v; simpl; auto; contradiction. Qed.

Lemma is_result_nullish s v : is_result s v -> nullish v = negb (truthy v).
Proof. destruct v; simpl; auto; contradiction. Qed.

End Preserved.

(** Chains [preserved s0 s1], [preserved s1 s2], ... *)
Ltac chain_preserved :=
  repeat match goal with
  | |- preserved ?s ?s => apply preserved_refl
  | H : preserved ?s ?s' |- preserved ?s ?s' => exact H
  | H : preserved ?s ?s1 |- preserved ?s ?s2 =>
      apply (preserved_trans _ _ _ H)
  | |- preserved ?s (logged _ ?s1) =>
      apply (preserved_trans _ s1); [|apply preserved_logged]
  end.

(** One step of a proof of [post m s Q E] that follows the code of [m]. *)
Ltac post_step call :=
  match goal with
  | |- post (bind _ _) _ _ _ => apply post_bind
  | |- post (ret _) _ _ _ => apply post_ret
  | |- post (throw _) _ _ _ => apply post_throw
  | |- post out_of_fuel _ _ _ => apply post_out_of_fuel
  | |- post (get _ _ _) _ _ _ =>
      unfold get; apply post_reads_or_throws; [intros ? ?|intros ?]
  | |- post (get_index _ _ _) _ _ _ =>
      unfold get_index; apply post_reads_or_throws; [intros ? ?|intros ?]
  | |- post (iterate _ _) _ _ _ =>
      unfold iterate; apply post_reads_or_throws; [intros ? ?|intros ?]
  | |- post (reads_or_throws _) _ _ _ =>
      apply post_reads_or_throws; [intros ? ?|intros ?]
  | |- post (array_ref _) _ _ _ => unfold array_ref; apply post_reads
  | |- post (array_length _) _ _ _ => unfold array_length; apply post_reads
  | |- post (log _) _ _ _ => unfold log; apply post_modify
  | |- post (new_RegExp _ _ _) _ _ _ => apply post_new_RegExp; [intros ? ?|]
  | |- post (convert_field _ _ _ _) _ _ _ => unfold convert_field
  | |- post (if ?b then _ else _) _ _ _ => destruct b eqn:?
  | |- post (match ?x with _ => _ end) _ _ _ => destruct x eqn:?
  | |- _ => call
  end.

(** ** Every call behaves well *)

Section Rejections.
Context {ir : Type}.
Implicit Types (s : state ir) (v : value ir).

Lemma rejections_app s s' t :
  trace s' = trace s ++ t ->
  rejections s' = rejections s + length (filter is_reject t).
Proof. unfold rejections. intros ->. by rewrite filter_app, length_app. Qed.

Lemma rejections_call node s : rejections (logged (Call node) s) = rejections s.
Proof. rewrite (rejections_app s _ [Call node]) by reflexivity. simpl. lia. Qed.

Lemma rejections_return node v s :
  v <> VNull -> rejections (logged (Return node v) s) = rejections s.
Proof.
  intros Hv. rewrite (rejections_app s _ [Return node v]) by reflexivity.
  destruct v; try (simpl; lia). congruence.
Qed.

Lemma rejections_stored nodes i x s : rejections (stored nodes i x s) = rejections s.
Proof.
  unfold rejections, stored.
  by destruct (heap s !! nodes) as [[fields|elements props]|].
Qed.

Lemma rejections_assigned l name x s : rejections (assigned l name x s) = rejections s.
Proof.
  unfold rejections, assigned.
  by destruct (heap s !! l) as [[fields|elements props]|].
Qed.

Lemma rejections_grow s s' t n :
  trace s' = trace s ++ t -> In (Return n VNull) t -> rejections s < rejections s'.
Proof.
  intros Ht Hin. rewrite (rejections_app _ _ _ Ht).
  assert (Return n VNull ∈ filter is_reject t) as Hf.
  { apply list_elem_of_filter. split; [reflexivity|]. by apply list_elem_of_In. }
  destruct (filter is_reject t); [by apply not_elem_of_nil in Hf|simpl; lia].
Qed.

Lemma nullish_not_null v : nullish v = false -> v <> VNull.
Proof. intros H ->. discriminate. Qed.

End Rejections.

(** The facts on truthiness that the guards leave in the context. *)
Ltac guards :=
  repeat match goal with
  | H : _ || _ = false |- _ => apply orb_false_iff in H as [? ?]
  | H : negb _ = false |- _ => apply negb_false_iff in H
  | H : negb _ = true |- _ => apply negb_true_iff in H
  end.

Ltac quiet_leaf :=
  let Hv := fresh "Hv" in
  intros Hv; guards;
  repeat match goal with
  | H : ?a <> VNull -> _ |- _ =>
      first
        [ specialize (H Hv)
        | specialize (H (truthy_not_null a ltac:(assumption)))
        | specialize (H (nullish_not_null a ltac:(assumption)))
        | clear H ]
  end;
  rewrite ?rejections_stored, ?rejections_assigned, ?rejections_call in *;
  solve [congruence].

Ltac well_leaf :=
  first
    [ solve [chain_preserved]
    | split; [solve [chain_preserved]
             | split; [first [exact I | assumption | simpl; tauto] | quiet_leaf]] ].

Section WellBehaved.
Context {ir : Type} (builder : Builder ir).
Variable conv : value ir -> M ir (value ir).
Variable fuel : nat.
Hypothesis conv_well : forall x, well_behaved (conv x).
Implicit Types (s : state ir) (node : value ir).

Ltac well_call :=
  idtac;
  match goal with
  | |- post (conv _) _ _ _ =>
      eapply post_mono; [apply conv_well | intros ? ? (? & ? & ?) | intros ? ?]
  end.

Ltac well := repeat (post_step well_call); try well_leaf.

Lemma well_elements nodes n : forall i s,
  isArray s (VRef nodes) = true -> i + n <= length_of s nodes ->
  post (convert_elements builder conv n nodes i) s (returns_well s) (preserved s).
Proof.
  induction n as [|n IH]; intros i s Ha Hn; simpl.
  - well.
  - apply post_bind. unfold get_index.
    apply post_reads_or_throws; [intros x _|intros _; well].
    apply post_bind. eapply post_mono; [apply conv_well| |intros s1 H1; well].
    intros c s1 (H1 & Hc & Hq). destruct (nullish c) eqn:Hnc; [well|].
    apply post_bind. unfold store_index. apply post_modify.
    assert (preserved s1 (stored nodes i c s1)) as Hs.
    { apply preserved_stored. rewrite (preserved_length_of _ _ nodes H1). lia. }
    eapply post_mono; [apply IH| |].
    + rewrite (preserved_isArray _ _ _ Hs), (preserved_isArray _ _ _ H1). exact Ha.
    + rewrite (preserved_length_of _ _ nodes Hs), (preserved_length_of _ _ nodes H1). lia.
    + intros v s2 (H2 & Hv & Hq2). well.
    + intros s2 H2. well.
Qed.

Lemma well_array nodes s :
  isArray s (VRef nodes) = true ->
  post (convert_array builder conv nodes) s (returns_well s) (preserved s).
Proof.
  intros Ha. unfold convert_array. well.
  apply well_elements; [exact Ha|lia].
Qed.

Lemma well_children (next : nat -> M ir (value ir)) n :
  (forall i s, post (next i) s (fun _ s' => s' = s) (fun s' => s' = s)) ->
  forall i container s,
  post (append_children builder conv n next i container) s
    (returns_well s) (preserved s).
Proof.
  intros Hnext. induction n as [|n IH]; intros i container s; simpl.
  - well.
  - apply post_bind.
    eapply post_mono; [apply Hnext| |intros sa Ea; simpl in Ea; subst sa; well].
    intros child sa Ea. simpl in Ea. subst sa. apply post_bind.
    eapply post_mono; [apply conv_well| |intros sb Hb; well].
    intros c sb (Hb & Hc & Hq). destruct (truthy c) eqn:Htc; [|well].
    eapply post_mono; [apply IH| |].
    + intros v s2 (H2 & Hv & Hq2). well.
    + intros s2 H2. well.
Qed.

Lemma iterator_reads s v p :
  iterator builder s v = Some p ->
  forall i s1, post (p.2 i) s1 (fun _ s' => s' = s1) (fun s' => s' = s1).
Proof.
  unfold iterator. intros H i s1.
  repeat case_match; try discriminate; simplify_eq; simpl.
  - by apply post_ret.
  - unfold get_index. apply post_reads_or_throws; auto.
Qed.

Lemma well_Program node : well_behaved (convert_Program builder conv node).
Proof.
  intros s. unfold convert_Program. well.
  all: apply well_children; eapply iterator_reads; eassumption.
Qed.

Lemma well_else_chain n : forall alternate container,
  well_behaved (else_chain builder conv n alternate container).
Proof.
  induction n as [|n IH]; intros alternate container s; simpl.
  - well.
  - well.
    all: eapply post_mono; [apply IH|intros ? ? (? & ? & ?); well|intros ? ?; well].
Qed.

Lemma well_IfStatement node : well_behaved (convert_IfStatement builder conv fuel node).
Proof.
  intros s. unfold convert_IfStatement. well.
  eapply post_mono;
    [apply well_else_chain|intros ? ? (? & ? & ?); well|intros ? ?; well].
Qed.

Lemma post_map_values (f : value ir -> M ir (value ir)) l :
  (forall x s, post (f x) s (fun _ s' => s' = s) (fun s' => s' = s)) ->
  forall s, post (map_values f l) s (fun _ s' => s' = s) (fun s' => s' = s).
Proof.
  intros Hf. induction l as [|x l IH]; intros s; simpl.
  - by apply post_ret.
  - apply post_bind. eapply post_mono; [apply Hf| |auto].
    intros y sa Ea. simpl in Ea. subst sa. apply post_bind.
    eapply post_mono; [apply IH| |auto].
    intros ys sa Ea. simpl in Ea. subst sa. by apply post_ret.
Qed.

Lemma post_quasis v s :
  post (array_map v (fun q => let* x := get builder q "value" in get builder x "cooked")) s
    (fun _ s' => s' = s) (fun s' => s' = s).
Proof.
  unfold array_map. apply post_bind. apply post_reads_or_throws; [|auto].
  intros l _. apply post_map_values. intros x s1.
  apply post_bind. unfold get. apply post_reads_or_throws; [|auto].
  intros y _. apply post_reads_or_throws; auto.
Qed.

Lemma well_TemplateLiteral node :
  well_behaved (convert_TemplateLiteral builder conv node).
Proof.
  intros s. unfold convert_TemplateLiteral. well.
  eapply post_mono; [apply post_quasis| |intros sa Ea; simpl in Ea; subst sa; well].
  intros quasis sa Ea. simpl in Ea. subst sa. well.
Qed.

Lemma well_TaggedTemplateExpression node :
  well_behaved (convert_TaggedTemplateExpression builder conv node).
Proof.
  intros s. unfold convert_TaggedTemplateExpression. well.
  match goal with H : truthy ?q = true, R : is_result _ ?q |- _ =>
    destruct q; try discriminate H; try contradiction R; simpl
  end.
  - apply post_bind, post_modify, post_ret.
    match goal with R : is_result ?s1 (VRef ?l) |- _ =>
      pose proof (preserved_assigned l "nonstandard" (VBool true) s1 R) as Hs
    end.
    split; [chain_preserved|]. split; [|quiet_leaf].
    eapply is_result_preserved; eassumption.
  - well.
Qed.

Lemma well_switch type node :
  well_behaved (convert_switch builder conv fuel type node).
Proof.
  intros s. unfold convert_switch.
  repeat (destruct (is_str type _);
          [first [ by apply well_Program | by apply well_IfStatement
                 | by apply well_TemplateLiteral
                 | by apply well_TaggedTemplateExpression
                 | unfold convert_ArrayExpression, convert_AssignmentExpression,
                     convert_BinaryExpression, convert_BlockStatement,
                     convert_CallExpression, convert_ConditionalExpression,
                     convert_ExpressionStatement, convert_Function,
                     convert_Function_rest, convert_Identifier, convert_Literal,
                     convert_LogicalExpression, convert_MemberExpression,
                     convert_NewExpression, convert_ObjectExpression,
                     convert_Property, property_key, convert_ReturnStatement,
                     convert_ThisExpression, convert_UnaryExpression,
                     convert_UpdateExpression, convert_VariableDeclarator,
                     convert_VariableDeclaration, convert_ForStatement,
                     convert_WhileStatement; well ]|]).
  well.
Qed.

Lemma as_array_Some s node nodes :
  as_array s node = Some nodes -> node = VRef nodes /\ isArray s (VRef nodes) = true.
Proof.
  unfold as_array. destruct node; try discriminate.
  destruct (isArray s (VRef l)) eqn:E; [|discriminate].
  intros [= <-]. auto.
Qed.

Lemma well_call node : well_behaved (convert_call builder conv fuel node).
Proof.
  intros s. unfold convert_call. apply post_bind. unfold log. apply post_modify.
  pose proof (preserved_logged (Call node) s) as H0.
  apply post_bind.
  eapply post_mono with
    (Q := returns_well (logged (Call node) s)) (E := preserved (logged (Call node) s)).
  - apply post_bind. unfold array_ref. apply post_reads.
    destruct (as_array (logged (Call node) s) node) as [nodes|] eqn:Ea.
    + apply as_array_Some in Ea as [-> Ea]. by apply well_array.
    + apply post_bind. unfold get. apply post_reads_or_throws; [intros type _|].
      * by apply well_switch.
      * intros _. apply preserved_refl.
  - intros v s1 (H1 & Hv & Hq). apply post_bind, post_modify, post_ret.
    split; [chain_preserved|]. split; [exact Hv|].
    intros Hn. rewrite (rejections_return _ _ _ Hn), (Hq Hn). apply rejections_call.
  - intros s1 H1. chain_preserved.
Qed.

End WellBehaved.

(** Whatever [convert] does, it leaves the objects of the store as they were
    and the arrays with their length; it returns the sentinel, an IR node or
    an array; and when it returns something else than the sentinel, no call
    beneath it has returned the sentinel. *)
Lemma convert_well {ir} (builder : Builder ir) fuel :
  forall node, well_behaved (convert builder fuel node).
Proof.
  induction fuel as [|fuel IH]; intros node s; simpl.
  - apply post_out_of_fuel.
  - apply well_call. exact IH.
Qed.

Lemma converts_well {ir} (builder : Builder ir) node s r :
  converts builder node s r ->
  match r with
  | Ok v s' => returns_well s v s'
  | Throw _ s' => preserved s s'
  end.
Proof.
  intros [fuel H]. exact (post_elim _ _ _ _ _ (convert_well builder fuel node s) H).
Qed.

(** ** More fuel changes nothing *)

Section MoreFuel.
Context {ir : Type} (builder : Builder ir).
Variables conv conv' : value ir -> M ir (value ir).
Variables fuel fuel' : nat.
Hypothesis conv_refines : forall x, refines (conv x) (conv' x).
Hypothesis fuel_le : fuel <= fuel'.

Ltac mono :=
  repeat first
    [ apply refines_refl
    | apply conv_refines
    | apply refines_bind; [|intros ?]
    | progress unfold convert_field
    | match goal with
      | |- refines (if ?b then _ else _) _ => destruct b
      | |- refines (match ?x with _ => _ end) _ => destruct x
      end ].

Lemma refines_elements nodes n : forall i,
  refines (convert_elements builder conv n nodes i)
          (convert_elements builder conv' n nodes i).
Proof. induction n as [|n IH]; intros i; simpl; mono. apply IH. Qed.

Lemma refines_children next n : forall i container,
  refines (append_children builder conv n next i container)
          (append_children builder conv' n next i container).
Proof. induction n as [|n IH]; intros i container; simpl; mono. apply IH. Qed.

Lemma refines_else_chain : forall n n' alternate container, n <= n' ->
  refines (else_chain builder conv n alternate container)
          (else_chain builder conv' n' alternate container).
Proof.
  induction n as [|n IH]; intros n' alternate container Hn; simpl.
  - apply refines_out_of_fuel.
  - destruct n' as [|n']; [lia|]. simpl. mono; apply IH; lia.
Qed.

Lemma refines_switch type node :
  refines (convert_switch builder conv fuel type node)
          (convert_switch builder conv' fuel' type node).
Proof.
  unfold convert_switch,
    convert_ArrayExpression, convert_AssignmentExpression,
    convert_BinaryExpression, convert_BlockStatement,
    convert_CallExpression, convert_ConditionalExpression,
    convert_ExpressionStatement, convert_Function,
    convert_Function_rest, convert_Identifier, convert_Literal,
    convert_TaggedTemplateExpression, convert_TemplateLiteral,
    convert_LogicalExpression, convert_MemberExpression,
    convert_NewExpression, convert_Program, convert_ObjectExpression,
    convert_Property, property_key, convert_ReturnStatement,
    convert_ThisExpression, convert_UnaryExpression,
    convert_UpdateExpression, convert_VariableDeclarator,
    convert_VariableDeclaration, convert_IfStatement, convert_ForStatement,
    convert_WhileStatement.
  repeat (destruct (is_str type _); [mono|]); mono.
  all: first [apply refines_children | apply refines_else_chain, fuel_le].
Qed.

Lemma refines_call node :
  refines (convert_call builder conv fuel node)
          (convert_call builder conv' fuel' node).
Proof.
  unfold convert_call, convert_array.
  apply refines_bind; [apply refines_refl|intros _].
  apply refines_bind; [|intros result; apply refines_refl].
  apply refines_bind; [apply refines_refl|intros [nodes|]].
  - apply refines_bind; [apply refines_refl|intros len]. apply refines_elements.
  - apply refines_bind; [apply refines_refl|intros type]. apply refines_switch.
Qed.

End MoreFuel.

Lemma convert_S {ir} (builder : Builder ir) fuel : forall node,
  refines (convert builder fuel node) (convert builder (S fuel) node).
Proof.
  induction fuel as [|fuel IH]; intros node.
  - apply refines_out_of_fuel.
  - apply refines_call; [exact IH|lia].
Qed.

Lemma convert_more_fuel {ir} (builder : Builder ir) fuel fuel' node :
  fuel <= fuel' -> refines (convert builder fuel node) (convert builder fuel' node).
Proof.
  induction 1 as [|fuel' _ IH]; [apply refines_refl|].
  intros s r H. apply convert_S, IH, H.
Qed.

(** A run has one result, whatever the fuel. *)
Lemma converts_unique {ir} (builder : Builder ir) node s r r' :
  converts builder node s r -> converts builder node s r' -> r = r'.
Proof.
  intros [f H] [f' H'].
  apply (convert_more_fuel builder f (Nat.max f f')) in H; [|lia].
  apply (convert_more_fuel builder f' (Nat.max f f')) in H'; [|lia].
  congruence.
Qed.

Lemma converts_fuel {ir} (builder : Builder ir) node s r :
  converts builder node s r ->
  exists fuel, forall fuel', fuel <= fuel' -> convert builder fuel' node s = Some r.
Proof.
  intros [f H]. exists f. intros f' Hf. by apply (convert_more_fuel builder f f').
Qed.

(** ** The trace is a ghost *)

Section Ghost.
Context {ir : Type} (builder : Builder ir).
Implicit Types (s : state ir) (v node : value ir).

Lemma agree_ret {A} (a : A) : agree (ret a : M ir A).
Proof. intros s1 s2 H. simpl. auto. Qed.

Lemma agree_throw {A} e : agree (throw e : M ir A).
Proof. intros s1 s2 H. simpl. auto. Qed.

Lemma agree_out_of_fuel {A} : agree (out_of_fuel : M ir A).
Proof. intros s1 s2 H. exact I. Qed.

Lemma agree_bind_result {A B} (m : M ir A) (k : A -> M ir B) :
  agree m ->
  (forall a, (exists s s', m s = Some (Ok a s')) -> agree (k a)) ->
  agree (bind m k).
Proof.
  intros Hm Hk s1 s2 H. specialize (Hm s1 s2 H). unfold bind.
  destruct (m s1) as [[a s1'|e s1']|] eqn:E1, (m s2) as [[b s2'|e' s2']|];
    try contradiction; try exact I.
  - destruct Hm as [<- H']. apply Hk; eauto.
  - exact Hm.
Qed.

Lemma agree_bind {A B} (m : M ir A) (k : A -> M ir B) :
  agree m -> (forall a, agree (k a)) -> agree (bind m k).
Proof. intros Hm Hk. apply agree_bind_result; auto. Qed.

Lemma agree_reads {A} (f : state ir -> A) :
  (forall s1 s2, heap s1 = heap s2 -> f s1 = f s2) -> agree (reads f).
Proof. intros Hf s1 s2 H. simpl. auto. Qed.

Lemma agree_reads_or_throws {A} (f : state ir -> option A) :
  (forall s1 s2, heap s1 = heap s2 -> f s1 = f s2) -> agree (reads_or_throws f).
Proof.
  intros Hf s1 s2 H. unfold reads_or_throws. rewrite (Hf s1 s2 H).
  destruct (f s2); simpl; auto.
Qed.

Lemma agree_modify (f : state ir -> state ir) :
  (forall s1 s2, heap s1 = heap s2 -> heap (f s1) = heap (f s2)) -> agree (modify f).
Proof. intros Hf s1 s2 H. simpl. auto. Qed.

Lemma agree_get v name : agree (get builder v name).
Proof.
  apply agree_reads_or_throws. intros s1 s2 H. unfold get_prop. by rewrite H.
Qed.

Lemma agree_get_index v i : agree (get_index builder v i).
Proof.
  apply agree_reads_or_throws. intros s1 s2 H. unfold get_elem. by rewrite H.
Qed.

Lemma agree_iterate v : agree (iterate builder v).
Proof.
  apply agree_reads_or_throws. intros s1 s2 H. unfold iterator. by rewrite H.
Qed.

Lemma agree_array_ref v : agree (array_ref v).
Proof.
  apply agree_reads. intros s1 s2 H. unfold as_array, isArray. by rewrite H.
Qed.

Lemma agree_array_length nodes : agree (array_length (ir := ir) nodes).
Proof. apply agree_reads. intros s1 s2 H. unfold length_of. by rewrite H. Qed.

Lemma agree_log e : agree (log (ir := ir) e).
Proof. apply agree_modify. auto. Qed.

Lemma agree_store_index nodes i x : agree (store_index (ir := ir) nodes i x).
Proof.
  apply agree_modify. intros s1 s2 H. unfold stored. rewrite H.
  destruct (heap s2 !! nodes) as [[fields|elements props]|]; simpl; congruence.
Qed.

Lemma agree_assign v name x : agree (assign builder v name x).
Proof.
  unfold assign. destruct v; try apply agree_ret.
  apply agree_bind; [|intros _; apply agree_ret].
  apply agree_modify. intros s1 s2 H. unfold assigned. rewrite H.
  destruct (heap s2 !! l) as [[fields|elements props]|]; simpl; congruence.
Qed.

Lemma agree_new_RegExp pattern flags : agree (new_RegExp builder pattern flags).
Proof.
  intros s1 s2 H. unfold new_RegExp. rewrite H.
  destruct (newRegExp builder (heap s2) pattern flags) as [e|[source flags']];
    simpl; auto.
Qed.

Lemma agree_map_values (f : value ir -> M ir (value ir)) l :
  (forall x, agree (f x)) -> agree (map_values f l).
Proof.
  intros Hf. induction l as [|x l IH]; simpl; [apply agree_ret|].
  apply agree_bind; [apply Hf|intros y].
  apply agree_bind; [apply IH|intros ys; apply agree_ret].
Qed.

Lemma agree_array_map v (f : value ir -> M ir (value ir)) :
  (forall x, agree (f x)) -> agree (array_map v f).
Proof.
  intros Hf. unfold array_map. apply agree_bind.
  - apply agree_reads_or_throws. intros s1 s2 H. unfold elements_of. by rewrite H.
  - intros l. by apply agree_map_values.
Qed.

Variable conv : value ir -> M ir (value ir).
Variable fuel : nat.
Hypothesis conv_agree : forall x, agree (conv x).

Ltac ghost :=
  repeat first
    [ apply agree_ret | apply agree_throw | apply agree_out_of_fuel
    | apply conv_agree
    | apply agree_get | apply agree_get_index | apply agree_iterate
    | apply agree_array_ref | apply agree_array_length | apply agree_log
    | apply agree_store_index | apply agree_assign
    | apply agree_new_RegExp
    | apply agree_array_map; intros ?
    | apply agree_bind; [|intros ?]
    | progress unfold convert_field
    | match goal with
      | |- agree (if ?b then _ else _) => destruct b
      | |- agree (match ?x with _ => _ end) => destruct x
      end ].

Lemma agree_elements nodes n : forall i,
  agree (convert_elements builder conv n nodes i).
Proof. induction n as [|n IH]; intros i; simpl; ghost. apply IH. Qed.

Lemma agree_children next n :
  (forall i, agree (next i)) ->
  forall i container, agree (append_children builder conv n next i container).
Proof.
  intros Hnext. induction n as [|n IH]; intros i container; simpl; ghost.
  - apply Hnext.
  - apply IH.
Qed.

Lemma agree_else_chain n : forall alternate container,
  agree (else_chain builder conv n alternate container).
Proof. induction n as [|n IH]; intros alternate container; simpl; ghost; apply IH. Qed.

Lemma iterate_agree v p :
  (exists s s', iterate builder v s = Some (Ok p s')) -> forall i, agree (p.2 i).
Proof.
  intros (s & s' & H) i. unfold iterate, reads_or_throws, iterator in H.
  repeat case_match; simplify_eq; simpl.
  - apply agree_ret.
  - apply agree_get_index.
Qed.

Lemma agree_Program node : agree (convert_Program builder conv node).
Proof.
  unfold convert_Program.
  apply agree_bind; [apply agree_get|intros body].
  apply agree_bind; [ghost|intros single].
  destruct single; [ghost|].
  apply agree_bind_result; [apply agree_iterate|intros children Hit].
  apply agree_children. by apply (iterate_agree body).
Qed.

Lemma agree_switch type node :
  agree (convert_switch builder conv fuel type node).
Proof.
  unfold convert_switch.
  repeat (destruct (is_str type _);
          [first [ apply agree_Program
                 | unfold convert_ArrayExpression, convert_AssignmentExpression,
                     convert_BinaryExpression, convert_BlockStatement,
                     convert_CallExpression, convert_ConditionalExpression,
                     convert_ExpressionStatement, convert_Function,
                     convert_Function_rest, convert_Identifier, convert_Literal,
                     convert_TaggedTemplateExpression, convert_TemplateLiteral,
                     convert_LogicalExpression, convert_MemberExpression,
                     convert_NewExpression, convert_ObjectExpression,
                     convert_Property, property_key, convert_ReturnStatement,
                     convert_ThisExpression, convert_UnaryExpression,
                     convert_UpdateExpression, convert_VariableDeclarator,
                     convert_VariableDeclaration, convert_IfStatement,
                     convert_ForStatement, convert_WhileStatement;
                   ghost; apply agree_else_chain ]|]).
  ghost.
Qed.

Lemma agree_call node : agree (convert_call builder conv fuel node).
Proof.
  unfold convert_call, convert_array.
  apply agree_bind; [apply agree_log|intros _].
  apply agree_bind; [|intros result; ghost].
  apply agree_bind; [apply agree_array_ref|intros [nodes|]].
  - apply agree_bind; [apply agree_array_length|intros len]. apply agree_elements.
  - apply agree_bind; [apply agree_get|intros type]. apply agree_switch.
Qed.

End Ghost.

(** Nothing [convert] computes depends on the trace: from two states with
    the same store it returns the same value, or throws the same exception,
    and leaves the same store. *)
Lemma convert_agree {ir} (builder : Builder ir) fuel :
  forall node, agree (convert builder fuel node).
Proof.
  induction fuel as [|fuel IH]; intros node; simpl.
  - apply agree_out_of_fuel.
  - apply agree_call. exact IH.
Qed.

(** ** Unfolding a call *)

Section RunFacts.
Context {ir : Type} (builder : Builder ir).
Implicit Types (s : state ir) (v node : value ir).

Lemma eventually_always (P : nat -> Prop) : (forall fuel, P fuel) -> eventually P.
Proof. intros H. exists 0. auto. Qed.

Lemma eventually_and (P Q : nat -> Prop) :
  eventually P -> eventually Q -> eventually (fun fuel => P fuel /\ Q fuel).
Proof.
  intros [f Hf] [g Hg]. exists (Nat.max f g). intros h Hh.
  split; [apply Hf|apply Hg]; lia.
Qed.

Lemma eventually_mono (P Q : nat -> Prop) :
  (forall fuel, P fuel -> Q fuel) -> eventually P -> eventually Q.
Proof. intros H [f Hf]. exists f. auto. Qed.

Lemma eventually_S (P : nat -> Prop) :
  eventually P -> eventually (fun fuel => P (S fuel)).
Proof. intros [f Hf]. exists f. intros g Hg. apply Hf. lia. Qed.

Lemma eventually_ge (n : nat) : eventually (fun fuel => n <= fuel).
Proof. exists n. auto. Qed.

Lemma converts_eventually node s r :
  converts builder node s r ->
  eventually (fun fuel => convert builder fuel node s = Some r).
Proof. apply converts_fuel. Qed.

Lemma eventually_converts node s r :
  eventually (fun fuel => convert builder (S fuel) node s = Some r) ->
  converts builder node s r.
Proof. intros [f Hf]. exists (S f). by apply Hf. Qed.

Lemma call_return (m : M ir (value ir)) node s :
  (let* result := m in do log (Return node result) in ret result) s
  = option_map (return_from node) (m s).
Proof. unfold bind. by destruct (m s) as [[v s'|e s']|]. Qed.

Lemma convert_call_eq conv fuel node s :
  convert_call builder conv fuel node s
  = option_map (return_from node)
      (match as_array (called node s) node with
       | Some nodes => convert_array builder conv nodes (called node s)
       | None =>
           (let* type := get builder node "type" in
            convert_switch builder conv fuel type node) (called node s)
       end).
Proof.
  unfold convert_call.
  rewrite (bind_ok _ _ s tt (called node s)) by reflexivity.
  rewrite call_return. f_equal.
  rewrite (bind_ok _ _ _ (as_array (called node s) node) (called node s)) by reflexivity.
  by destruct (as_array (called node s) node).
Qed.

Lemma get_object s l fields name :
  heap s !! l = Some (Obj fields) ->
  get builder (VRef l) name s = Some (Ok (field fields name) s).
Proof. intros H. unfold get, reads_or_throws, get_prop. by rewrite H. Qed.

Lemma get_ok s v name x :
  get_prop builder s v name = Some x -> get builder v name s = Some (Ok x s).
Proof. intros H. unfold get, reads_or_throws. by rewrite H. Qed.

Lemma get_index_ok s v i x :
  get_elem builder s v i = Some x -> get_index builder v i s = Some (Ok x s).
Proof. intros H. unfold get_index, reads_or_throws. by rewrite H. Qed.

Lemma convert_field_object conv s l fields name :
  heap s !! l = Some (Obj fields) ->
  convert_field builder conv (VRef l) name s = conv (field fields name) s.
Proof.
  intros H. unfold convert_field. by rewrite (bind_ok _ _ _ _ _ (get_object _ _ _ name H)).
Qed.

(** A call on an object dispatches on its [type]. *)
Lemma convert_object fuel l fields s :
  heap s !! l = Some (Obj fields) ->
  convert builder (S fuel) (VRef l) s
  = option_map (return_from (VRef l))
      (convert_switch builder (convert builder fuel) fuel (field fields "type")
         (VRef l) (called (VRef l) s)).
Proof.
  intros H. simpl. rewrite convert_call_eq. f_equal.
  unfold as_array, isArray. simpl. rewrite H.
  by rewrite (bind_ok _ _ _ _ _ (get_object (called (VRef l) s) l fields "type" H)).
Qed.

(** A call on an array runs the loop over its elements. *)
Lemma convert_array_eq fuel nodes elements props s :
  heap s !! nodes = Some (Arr elements props) ->
  convert builder (S fuel) (VRef nodes) s
  = option_map (return_from (VRef nodes))
      (convert_elements builder (convert builder fuel) (length elements) nodes 0
         (called (VRef nodes) s)).
Proof.
  intros H. simpl. rewrite convert_call_eq. f_equal.
  unfold as_array, isArray. simpl. rewrite H.
  unfold convert_array.
  rewrite (bind_ok _ _ _ (length elements) (called (VRef nodes) s)); [done|].
  unfold array_length, reads, length_of. simpl. by rewrite H.
Qed.

(** A call on [null] or [undefined] throws: they have no [type]. *)
Lemma convert_nullish fuel v s :
  nullish v = true ->
  convert builder (S fuel) v s = Some (Throw TypeError (called v s)).
Proof.
  intros H. simpl. rewrite convert_call_eq.
  by destruct v; try discriminate H.
Qed.

Lemma converts_nullish v s :
  nullish v = true -> converts builder v s (Throw TypeError (called v s)).
Proof. intros H. exists 1. by apply convert_nullish. Qed.

Lemma heap_called node s : heap (called node s) = heap s.
Proof. reflexivity. Qed.

Lemma heap_returned node v s : heap (returned node v s) = heap s.
Proof. reflexivity. Qed.

End RunFacts.


(** Solves [heap s' !! l = Some (Obj fields)] from the same fact in an
    earlier state and the [preserved] facts in between. *)
Ltac obj :=
  first
    [ eassumption
    | match goal with
      | H : preserved ?s1 ?s2 |- heap ?s2 !! _ = Some (Obj _) =>
          apply (preserved_object s1 s2 _ _ H); obj
      end ].

(** Rewrites the first [bind m k s] of the goal into [k a s'], leaving
    [m s = Some (Ok a s')] to [tac]. *)
Ltac bind_by tac := erewrite bind_ok; [|solve [tac]].

Ltac read_field :=
  first
    [ eapply get_object; obj
    | eapply get_ok; eassumption
    | eapply get_index_ok; eassumption ].

Ltac call_field :=
  (eapply eq_trans; [eapply convert_field_object; obj|]); eassumption.

(** From [converts] to the facts that every call guarantees. *)
Ltac well_facts :=
  repeat match goal with
  | H : converts _ _ _ (Ok _ _) |- _ =>
      let P := fresh "P" in
      pose proof (converts_well _ _ _ _ H) as P; simpl in P;
      destruct P as (? & ? & ?); revert H
  | H : converts _ _ _ (Throw _ _) |- _ =>
      let P := fresh "P" in
      pose proof (converts_well _ _ _ _ H) as P; simpl in P; revert H
  end; intros.

Section Loops.
Context {ir : Type} (builder : Builder ir).
Implicit Types (s : state ir) (v node : value ir).

Lemma result_not_null s v : is_result s v -> v <> VNull -> truthy v = true /\ nullish v = false.
Proof. destruct v; simpl; try contradiction; try congruence; auto. Qed.

(** The array loop follows a run of conversions in order. *)
Lemma elements_in_order nodes frame i s cs s' :
  converted_in_order builder (VRef nodes) (store_result nodes) frame i s cs s' ->
  eventually (fun fuel => forall n,
    convert_elements builder (convert builder fuel) (length cs + n) nodes i s
    = convert_elements builder (convert builder fuel) n nodes (i + length cs) s').
Proof.
  induction 1 as [i s|i s x c s1 cs s2 Hx Hc Hn Hf _ IH].
  - apply eventually_always. intros fuel n. simpl. by rewrite Nat.add_0_r.
  - pose proof (converts_well _ _ _ _ Hc) as (_ & Hr & _).
    destruct (result_not_null _ _ Hr Hn) as [_ Hnull].
    apply converts_eventually in Hc.
    eapply eventually_mono; [|exact (eventually_and _ _ Hc IH)].
    intros fuel [Ec El] n. simpl.
    bind_by read_field. bind_by eassumption. rewrite Hnull.
    rewrite (bind_ok _ _ _ tt (store_result nodes i c s1)) by reflexivity.
    rewrite El. f_equal. lia.
Qed.

(** The [Program] loop follows a run of conversions in order. *)
Lemma children_in_order body frame i s cs s' :
  converted_in_order builder body keep_state frame i s cs s' ->
  eventually (fun fuel => forall n container,
    append_children builder (convert builder fuel) (length cs + n)
      (get_index builder body) i container s
    = append_children builder (convert builder fuel) n
        (get_index builder body) (i + length cs) (append_all builder container cs) s').
Proof.
  induction 1 as [i s|i s x c s1 cs s2 Hx Hc Hn Hf _ IH].
  - apply eventually_always. intros fuel n container. simpl. by rewrite Nat.add_0_r.
  - pose proof (converts_well _ _ _ _ Hc) as (_ & Hr & _).
    destruct (result_not_null _ _ Hr Hn) as [Htrue _].
    apply converts_eventually in Hc.
    eapply eventually_mono; [|exact (eventually_and _ _ Hc IH)].
    intros fuel [Ec El] n container. simpl.
    bind_by read_field. bind_by eassumption. rewrite Htrue.
    rewrite El. f_equal. lia.
Qed.

(** When no conversion writes to the array, the array ends up holding the
    results, in order. *)
Lemma elements_stored nodes i s cs s' :
  converted_in_order builder (VRef nodes) (store_result nodes) (untouched nodes) i s cs s' ->
  forall elements props,
  heap s !! nodes = Some (Arr elements props) ->
  i + length cs <= length elements ->
  heap s' !! nodes
  = Some (Arr (take i elements ++ cs ++ drop (i + length cs) elements) props).
Proof.
  induction 1 as [i s|i s x c s1 cs s2 Hx Hc Hn Hf _ IH]; intros elements props Ha Hi.
  - simpl. by rewrite Nat.add_0_r, take_drop.
  - simpl in Hi. unfold untouched in Hf. rewrite Ha in Hf.
    assert (i < length elements) as Hlt by lia.
    erewrite IH; cycle 1.
    { unfold store_result, stored. rewrite Hf. simpl. apply lookup_insert_eq. }
    { unfold array_set. rewrite decide_True by exact Hlt. rewrite length_insert. lia. }
    unfold array_set. rewrite decide_True by exact Hlt.
    f_equal. f_equal.
    destruct (lookup_lt_is_Some_2 elements i Hlt) as [y Hy].
    rewrite (take_S_r (<[i:=c]> elements) i c) by (by apply list_lookup_insert_eq).
    rewrite take_insert_ge by lia.
    rewrite drop_insert_lt by lia.
    rewrite <- app_assoc. simpl. by rewrite Nat.add_succ_r.
Qed.

End Loops.

Section Helpers.
Context {ir : Type} (builder : Builder ir).
Implicit Types (s : state ir) (v node : value ir).

Lemma in_order_weaken src after frame i s cs s' :
  converted_in_order builder src after frame i s cs s' ->
  converted_in_order builder src after anything i s cs s'.
Proof.
  induction 1; econstructor; eauto. exact I.
Qed.

(** The array loop stops at the first rejection. *)
Lemma array_rejects s nodes elements props frame cs s1 x s2 :
  heap s !! nodes = Some (Arr elements props) ->
  converted_in_order builder (VRef nodes) (store_result nodes) frame 0
    (called (VRef nodes) s) cs s1 ->
  length cs < length elements ->
  get_elem builder s1 (VRef nodes) (length cs) = Some x ->
  converts builder x s1 (Ok VNull s2) ->
  converts builder (VRef nodes) s (Ok VNull (returned (VRef nodes) VNull s2)).
Proof.
  intros Ha Hcs Hlen Hx Hc. apply eventually_converts.
  apply elements_in_order in Hcs. apply converts_eventually in Hc.
  eapply eventually_mono; [|exact (eventually_and _ _ Hcs Hc)].
  intros fuel [El Ec].
  rewrite (convert_array_eq builder fuel nodes elements props s Ha).
  replace (length elements) with (length cs + S (length elements - length cs - 1)) by lia.
  rewrite El. simpl.
  bind_by read_field. bind_by eassumption. reflexivity.
Qed.

(** The array loop returns the array when every element is converted. *)
Lemma array_converts s nodes elements props frame cs s1 :
  heap s !! nodes = Some (Arr elements props) ->
  converted_in_order builder (VRef nodes) (store_result nodes) frame 0
    (called (VRef nodes) s) cs s1 ->
  length cs = length elements ->
  converts builder (VRef nodes) s
    (Ok (VRef nodes) (returned (VRef nodes) (VRef nodes) s1)).
Proof.
  intros Ha Hcs Hlen. apply eventually_converts.
  apply elements_in_order in Hcs.
  eapply eventually_mono; [|exact Hcs].
  intros fuel El.
  rewrite (convert_array_eq builder fuel nodes elements props s Ha).
  replace (length elements) with (length cs + 0) by lia.
  rewrite El. reflexivity.
Qed.

Lemma array_holds_results s nodes elements props cs s1 :
  heap s !! nodes = Some (Arr elements props) ->
  converted_in_order builder (VRef nodes) (store_result nodes) (untouched nodes) 0
    (called (VRef nodes) s) cs s1 ->
  length cs = length elements ->
  heap s1 !! nodes = Some (Arr cs props).
Proof.
  intros Ha Hcs Hlen.
  rewrite (elements_stored builder nodes 0 _ cs s1 Hcs elements props Ha) by (simpl; lia).
  simpl. rewrite drop_ge by lia. by rewrite app_nil_r.
Qed.


(** The [switch] at the labels used below. *)
Lemma switch_Program conv fuel node :
  convert_switch builder conv fuel (VStr "Program") node
  = convert_Program builder conv node.
Proof. reflexivity. Qed.

Lemma node_type s l fields type :
  node_at s l fields type -> field fields "type" = VStr type.
Proof. intros [_ H]. unfold field. by rewrite H. Qed.

Lemma field_Some (fields : gmap string (value ir)) name x :
  fields !! name = Some x -> field fields name = x.
Proof. intros H. unfold field. by rewrite H. Qed.

Lemma get_length s nodes elements props :
  heap s !! nodes = Some (Arr elements props) ->
  get builder (VRef nodes) "length" s
  = Some (Ok (VNum (Z.of_nat (length elements))) s).
Proof. intros H. unfold get, reads_or_throws, get_prop. by rewrite H. Qed.

Lemma iterate_array s nodes elements props :
  heap s !! nodes = Some (Arr elements props) ->
  iterate builder (VRef nodes) s
  = Some (Ok (length elements, get_index builder (VRef nodes)) s).
Proof. intros H. unfold iterate, reads_or_throws, iterator. by rewrite H. Qed.

Lemma is_num_length (n : nat) : is_num (VNum (Z.of_nat n) : value ir) 1 = bool_decide (n = 1).
Proof.
  simpl. case_bool_decide as H.
  - subst n. reflexivity.
  - apply Z.eqb_neq. lia.
Qed.

(** The start of the [Program] case, up to the choice between the single
    statement and the loop. *)
Lemma program_start fuel s l fields body elements props :
  node_at s l fields "Program" ->
  fields !! "body" = Some (VRef body) ->
  heap s !! body = Some (Arr elements props) ->
  convert builder (S fuel) (VRef l) s
  = option_map (return_from (VRef l))
      (if bool_decide (length elements = 1) then
         convert builder fuel (default VUndefined (elements !! 0)) (called (VRef l) s)
       else
         append_children builder (convert builder fuel) (length elements)
           (get_index builder (VRef body)) 0 (containerNode builder)
           (called (VRef l) s)).
Proof.
  intros Hn Hb Ha. pose proof Hn as [Hl _].
  rewrite (convert_object builder fuel l fields s Hl), (node_type _ _ _ _ Hn).
  rewrite switch_Program. unfold convert_Program. f_equal.
  bind_by read_field. rewrite (field_Some _ _ _ Hb). simpl truthy. cbv iota.
  erewrite bind_ok; cycle 1.
  { erewrite bind_ok; [reflexivity|]. by apply (get_length _ _ elements props). }
  rewrite is_num_length. case_bool_decide.
  - erewrite bind_ok; [reflexivity|]. unfold get_index, reads_or_throws, get_elem.
    simpl. by rewrite Ha.
  - erewrite bind_ok; [|by apply (iterate_array _ _ elements props)]. reflexivity.
Qed.

Lemma program_single s l fields body x props r :
  node_at s l fields "Program" ->
  fields !! "body" = Some (VRef body) ->
  heap s !! body = Some (Arr [x] props) ->
  converts builder x (called (VRef l) s) r ->
  converts builder (VRef l) s (return_from (VRef l) r).
Proof.
  intros Hn Hb Ha [fuel Hc]. exists (S fuel).
  rewrite (program_start fuel s l fields body [x] props Hn Hb Ha). simpl.
  by rewrite Hc.
Qed.

Lemma program_container s l fields body elements props frame cs s1 :
  node_at s l fields "Program" ->
  fields !! "body" = Some (VRef body) ->
  heap s !! body = Some (Arr elements props) ->
  length elements <> 1 ->
  converted_in_order builder (VRef body) keep_state frame 0 (called (VRef l) s) cs s1 ->
  length cs = length elements ->
  converts builder (VRef l) s
    (Ok (VIR (append_all builder (containerNode builder) cs))
        (returned (VRef l) (VIR (append_all builder (containerNode builder) cs)) s1)).
Proof.
  intros Hn Hb Ha Hlen Hcs Hall. apply eventually_converts.
  apply children_in_order in Hcs.
  eapply eventually_mono; [|exact Hcs]. intros fuel El.
  rewrite (program_start fuel s l fields body elements props Hn Hb Ha).
  rewrite bool_decide_false by exact Hlen.
  replace (length elements) with (length cs + 0) by lia.
  rewrite El. reflexivity.
Qed.

Lemma program_rejects s l fields body elements props frame cs s1 x s2 :
  node_at s l fields "Program" ->
  fields !! "body" = Some (VRef body) ->
  heap s !! body = Some (Arr elements props) ->
  length elements <> 1 ->
  converted_in_order builder (VRef body) keep_state frame 0 (called (VRef l) s) cs s1 ->
  length cs < length elements ->
  get_elem builder s1 (VRef body) (length cs) = Some x ->
  converts builder x s1 (Ok VNull s2) ->
  converts builder (VRef l) s (Ok VNull (returned (VRef l) VNull s2)).
Proof.
  intros Hn Hb Ha Hlen Hcs Hlt Hx Hc. apply eventually_converts.
  apply children_in_order in Hcs. apply converts_eventually in Hc.
  eapply eventually_mono; [|exact (eventually_and _ _ Hcs Hc)].
  intros fuel [El Ec].
  rewrite (program_start fuel s l fields body elements props Hn Hb Ha).
  rewrite bool_decide_false by exact Hlen.
  replace (length elements) with (length cs + S (length elements - length cs - 1)) by lia.
  rewrite El. simpl.
  bind_by read_field. bind_by eassumption. reflexivity.
Qed.

End Helpers.

(** ** C1 *)

(** C1: an array is converted element by element, left to right.  When the
    elements before index [length cs] are converted (into [cs], each stored
    in place of its element) and the next one is rejected, the call returns
    the sentinel in the state that rejection left, plus its own return: no
    later element is read or converted.  When every element is converted the
    call returns the array itself, which, provided no conversion wrote to it,
    holds the results in order. *)
Theorem array_short_circuit {ir} (builder : Builder ir) s nodes elements props :
  heap s !! nodes = Some (Arr elements props) ->
  (forall cs s1 x s2,
      converted_in_order builder (VRef nodes) (store_result nodes) anything 0
        (called (VRef nodes) s) cs s1 ->
      length cs < length elements ->
      get_elem builder s1 (VRef nodes) (length cs) = Some x ->
      converts builder x s1 (Ok VNull s2) ->
      converts builder (VRef nodes) s (Ok VNull (returned (VRef nodes) VNull s2))
      /\ trace (returned (VRef nodes) VNull s2) = trace s2 ++ [Return (VRef nodes) VNull])
  /\ (forall cs s1,
      converted_in_order builder (VRef nodes) (store_result nodes) anything 0
        (called (VRef nodes) s) cs s1 ->
      length cs = length elements ->
      converts builder (VRef nodes) s
        (Ok (VRef nodes) (returned (VRef nodes) (VRef nodes) s1)))
  /\ (forall cs s1,
      converted_in_order builder (VRef nodes) (store_result nodes) (untouched nodes) 0
        (called (VRef nodes) s) cs s1 ->
      length cs = length elements ->
      heap (returned (VRef nodes) (VRef nodes) s1) !! nodes = Some (Arr cs props)).
Proof.
  intros Ha. split; [|split].
  - intros cs s1 x s2 Hcs Hlen Hx Hc. split; [|reflexivity].
    eapply array_rejects; eassumption.
  - intros cs s1 Hcs Hlen. eapply array_converts; eassumption.
  - intros cs s1 Hcs Hlen.
    exact (array_holds_results builder s nodes elements props cs s1 Ha Hcs Hlen).
Qed.

(** ** C4 *)

(** C4: a program whose body has exactly one statement converts to whatever
    that statement converts to (an IR node, the sentinel, or the exception it
    throws), without a container.  Otherwise, when the statements are
    converted in order into [cs], the program converts to a container to
    which [cs] were appended in order; and when the statements before one are
    converted and that one is rejected, the program is rejected. *)
Theorem program_conversion {ir} (builder : Builder ir) s l fields body elements props :
  node_at s l fields "Program" ->
  fields !! "body" = Some (VRef body) ->
  heap s !! body = Some (Arr elements props) ->
  (forall x r,
      elements = [x] ->
      converts builder x (called (VRef l) s) r ->
      converts builder (VRef l) s (return_from (VRef l) r))
  /\ (forall cs s1,
      length elements <> 1 ->
      converted_in_order builder (VRef body) keep_state anything 0
        (called (VRef l) s) cs s1 ->
      length cs = length elements ->
      converts builder (VRef l) s
        (Ok (VIR (append_all builder (containerNode builder) cs))
            (returned (VRef l) (VIR (append_all builder (containerNode builder) cs)) s1)))
  /\ (forall cs s1 x s2,
      length elements <> 1 ->
      converted_in_order builder (VRef body) keep_state anything 0
        (called (VRef l) s) cs s1 ->
      length cs < length elements ->
      get_elem builder s1 (VRef body) (length cs) = Some x ->
      converts builder x s1 (Ok VNull s2) ->
      converts builder (VRef l) s (Ok VNull (returned (VRef l) VNull s2))).
Proof.
  intros Hn Hb Ha. split; [|split].
  - intros x r -> Hc. eapply program_single; eassumption.
  - intros cs s1 Hlen Hcs Hall. eapply program_container; eassumption.
  - intros cs s1 x s2 Hlen Hcs Hlt Hx Hc. eapply program_rejects; eassumption.
Qed.

(** ** C10 *)

(** C10: a program with an empty body converts to the empty container: the
    call returns the node made by [builder.containerNode()], to which nothing
    was appended, and converts nothing. *)
Theorem program_empty {ir} (builder : Builder ir) s l fields body props :
  node_at s l fields "Program" ->
  fields !! "body" = Some (VRef body) ->
  heap s !! body = Some (Arr [] props) ->
  converts builder (VRef l) s
    (Ok (VIR (containerNode builder))
        (returned (VRef l) (VIR (containerNode builder)) (called (VRef l) s))).
Proof.
  intros Hn Hb Ha.
  apply (program_container builder s l fields body [] props anything []
           (called (VRef l) s) Hn Hb Ha); [discriminate| |reflexivity].
  apply in_order_nil.
Qed.

Section IfHelpers.
Context {ir : Type} (builder : Builder ir).
Implicit Types (s : state ir) (v node : value ir).

Lemma switch_IfStatement conv fuel node :
  convert_switch builder conv fuel (VStr "IfStatement") node
  = convert_IfStatement builder conv fuel node.
Proof. reflexivity. Qed.

Lemma null_or_truthy s v : is_result s v -> v = VNull \/ (v <> VNull /\ truthy v = true).
Proof.
  destruct v; simpl; try contradiction; auto; right; split; auto; discriminate.
Qed.

(** The [IfStatement] case up to the loop. *)
Lemma if_start s l fields t s1 c s2 :
  node_at s l fields "IfStatement" ->
  converts builder (field fields "test") (called (VRef l) s) (Ok t s1) ->
  converts builder (field fields "consequent") s1 (Ok c s2) ->
  eventually (fun fuel =>
    convert builder (S fuel) (VRef l) s
    = option_map (return_from (VRef l))
        (if negb (truthy t) || negb (truthy c) then Some (Ok VNull s2)
         else if negb (truthy (field fields "alternate")) then
           Some (Ok (VIR (ifStatement builder t c)) s2)
         else
           else_chain builder (convert builder fuel) fuel (field fields "alternate")
             (appendChild builder (containerNode builder)
                (VIR (ifStatement builder t c))) s2)).
Proof.
  intros Hn Ht Hc. pose proof Hn as [Hl _]. well_facts.
  apply converts_eventually in Ht, Hc.
  eapply eventually_mono; [|exact (eventually_and _ _ Ht Hc)].
  intros fuel [Et Ec].
  rewrite (convert_object builder fuel l fields s Hl), (node_type _ _ _ _ Hn).
  rewrite switch_IfStatement. unfold convert_IfStatement. f_equal.
  bind_by call_field. bind_by call_field.
  destruct (negb (truthy t) || negb (truthy c)); [reflexivity|].
  bind_by read_field.
  by destruct (negb (truthy (field fields "alternate"))).
Qed.

(** One iteration of the [do ... while] loop, unfolded. *)
Lemma else_chain_step conv n alternate container s :
  else_chain builder conv (S n) alternate container s
  = (let next (container : ir) : M ir (value ir) :=
       let* alternate := get builder alternate "alternate" in
       if truthy alternate then else_chain builder conv n alternate container
       else ret (VIR container) in
     let* consequent := get builder alternate "consequent" in
     if truthy consequent then
       let* elseIfNodeTest := convert_field builder conv alternate "test" in
       let* elseIfNodeBody := convert_field builder conv alternate "consequent" in
       if negb (truthy elseIfNodeTest) || negb (truthy elseIfNodeBody) then ret VNull
       else
         next (appendChild builder container
                 (VIR (elseIfStatement builder elseIfNodeTest elseIfNodeBody)))
     else
       let* elseNodeBody := conv alternate in
       if negb (truthy elseNodeBody) then ret VNull
       else next (appendChild builder container (VIR (elseStatement builder elseNodeBody)))) s.
Proof. reflexivity. Qed.

(** One iteration of the loop on a link that is converted. *)
Lemma clause_step alternate s n s1 fields l :
  clause_converted builder alternate s n s1 ->
  alternate = VRef l -> heap s !! l = Some (Obj fields) ->
  eventually (fun fuel => forall m container,
    else_chain builder (convert builder fuel) (S m) alternate container s
    = if truthy (field fields "alternate") then
        else_chain builder (convert builder fuel) m (field fields "alternate")
          (appendChild builder container (VIR n)) s1
      else Some (Ok (VIR (appendChild builder container (VIR n))) s1)).
Proof.
  intros Hcl -> Hl.
  inversion Hcl as [l' fields' s0 t s0' b s2 Hl' Hcons Ht Hb Hnt Hnb
                   |l' fields' s0 e s0' Hl' Hcons He Hne];
    subst; rewrite Hl' in Hl; simplify_eq; well_facts.
  - assert (truthy t = true) as Tt
      by (match goal with R : is_result _ t |- _ =>
            exact (proj1 (result_not_null _ _ R Hnt)) end).
    assert (truthy b = true) as Tb
      by (match goal with R : is_result _ b |- _ =>
            exact (proj1 (result_not_null _ _ R Hnb)) end).
    apply converts_eventually in Ht, Hb.
    eapply eventually_mono; [|exact (eventually_and _ _ Ht Hb)].
    intros fuel [Et Eb] m container. rewrite else_chain_step. cbv zeta.
    bind_by read_field. rewrite Hcons.
    bind_by call_field. bind_by call_field. rewrite Tt, Tb. simpl.
    bind_by read_field. by destruct (truthy (field fields "alternate")).
  - assert (truthy e = true) as Te
      by (match goal with R : is_result _ e |- _ =>
            exact (proj1 (result_not_null _ _ R Hne)) end).
    apply converts_eventually in He.
    eapply eventually_mono; [|exact He].
    intros fuel Ee m container. cbv beta in Ee. rewrite else_chain_step. cbv zeta.
    bind_by read_field. rewrite Hcons.
    bind_by eassumption. rewrite Te. simpl.
    bind_by read_field. by destruct (truthy (field fields "alternate")).
Qed.

Lemma clauses_nil_inv alternate s rest s' :
  clauses_converted builder alternate s [] rest s' -> rest = alternate /\ s' = s.
Proof. by inversion 1. Qed.

Lemma clauses_cons_truthy alternate s n ns rest s' :
  clauses_converted builder alternate s (n :: ns) rest s' -> truthy alternate = true.
Proof. by inversion 1. Qed.

(** The loop follows a run of converted links. *)
Lemma clauses_in_order alternate s ns rest s' :
  clauses_converted builder alternate s ns rest s' ->
  eventually (fun fuel => forall m container,
    else_chain builder (convert builder fuel) (length ns + m) alternate container s
    = match ns with
      | [] => else_chain builder (convert builder fuel) m alternate container s
      | _ =>
          if truthy rest then
            else_chain builder (convert builder fuel) m rest
              (append_all builder container (map VIR ns)) s'
          else Some (Ok (VIR (append_all builder container (map VIR ns))) s')
      end).
Proof.
  induction 1 as [alternate s|l fields s n s1 ns rest s2 Hl Hcl Hrest IH].
  - apply eventually_always. intros fuel m container. reflexivity.
  - pose proof (clause_step _ _ _ _ fields l Hcl eq_refl Hl) as Hstep.
    eapply eventually_mono; [|exact (eventually_and _ _ Hstep IH)].
    intros fuel [Es Er] m container.
    change (length (n :: ns) + m) with (S (length ns + m)).
    rewrite Es. destruct ns as [|n2 ns].
    + apply clauses_nil_inv in Hrest as [-> ->]. reflexivity.
    + rewrite (clauses_cons_truthy _ _ _ _ _ _ Hrest), Er. reflexivity.
Qed.

(** One iteration of the loop on a link that is rejected. *)
Lemma clause_rejects alternate s s1 :
  clause_rejected builder alternate s s1 ->
  eventually (fun fuel => forall m container,
    else_chain builder (convert builder fuel) (S m) alternate container s
    = Some (Ok VNull s1)).
Proof.
  intros [l fields s0 t s0' b s2 Hl Hcons Ht Hb Hnull|l fields s0 s0' Hl Hcons He];
    well_facts.
  - assert (negb (truthy t) || negb (truthy b) = true) as Hg.
    { destruct Hnull as [-> | ->]; simpl; [reflexivity|apply orb_true_r]. }
    apply converts_eventually in Ht, Hb.
    eapply eventually_mono; [|exact (eventually_and _ _ Ht Hb)].
    intros fuel [Et Eb] m container. rewrite else_chain_step. cbv zeta.
    bind_by read_field. rewrite Hcons.
    bind_by call_field. bind_by call_field. by rewrite Hg.
  - apply converts_eventually in He.
    eapply eventually_mono; [|exact He].
    intros fuel Ee m container. cbv beta in Ee. rewrite else_chain_step. cbv zeta.
    bind_by read_field. rewrite Hcons.
    bind_by eassumption. reflexivity.
Qed.

End IfHelpers.

(** ** C3 *)

(** C3, as the code has it.  Both the test and the consequent of an if
    statement are converted before either result is looked at; an else-if
    link is treated the same way.  So, when both conversions return: if one
    of them gave the sentinel the statement is rejected; otherwise, without
    an [alternate], the statement converts to the if node alone; with an
    [alternate] chain whose links are all converted, to a container holding
    the if node and then, in order, the else-if and else nodes of the links;
    and when the links before one are converted and that one is rejected,
    the statement is rejected. *)
Theorem if_statement_conversion {ir} (builder : Builder ir) s l fields t s1 c s2 :
  node_at s l fields "IfStatement" ->
  converts builder (field fields "test") (called (VRef l) s) (Ok t s1) ->
  converts builder (field fields "consequent") s1 (Ok c s2) ->
  let ifNode := VIR (ifStatement builder t c) in
  let container := appendChild builder (containerNode builder) ifNode in
  (t = VNull \/ c = VNull ->
     converts builder (VRef l) s (Ok VNull (returned (VRef l) VNull s2)))
  /\ (t <> VNull -> c <> VNull ->
      truthy (field fields "alternate") = false ->
      converts builder (VRef l) s (Ok ifNode (returned (VRef l) ifNode s2)))
  /\ (forall ns rest s3,
      t <> VNull -> c <> VNull ->
      truthy (field fields "alternate") = true ->
      clauses_converted builder (field fields "alternate") s2 ns rest s3 ->
      truthy rest = false ->
      converts builder (VRef l) s
        (Ok (VIR (append_all builder container (map VIR ns)))
            (returned (VRef l) (VIR (append_all builder container (map VIR ns))) s3)))
  /\ (forall ns rest s3 s4,
      t <> VNull -> c <> VNull ->
      truthy (field fields "alternate") = true ->
      clauses_converted builder (field fields "alternate") s2 ns rest s3 ->
      clause_rejected builder rest s3 s4 ->
      converts builder (VRef l) s (Ok VNull (returned (VRef l) VNull s4))).
Proof.
  intros Hn Ht Hc ifNode container.
  pose proof (if_start builder s l fields t s1 c s2 Hn Ht Hc) as Hstart.
  pose proof (converts_well _ _ _ _ Ht) as (_ & Rt & _).
  pose proof (converts_well _ _ _ _ Hc) as (_ & Rc & _).
  split; [|split; [|split]].
  - intros Hnull. apply eventually_converts.
    eapply eventually_mono; [|exact Hstart]. intros fuel ->.
    assert (negb (truthy t) || negb (truthy c) = true) as ->; [|reflexivity].
    destruct Hnull as [-> | ->]; simpl; [reflexivity|apply orb_true_r].
  - intros Hnt Hnc Halt. apply eventually_converts.
    eapply eventually_mono; [|exact Hstart]. intros fuel ->.
    rewrite (proj1 (result_not_null _ _ Rt Hnt)), (proj1 (result_not_null _ _ Rc Hnc)).
    rewrite Halt. reflexivity.
  - intros ns rest s3 Hnt Hnc Halt Hns Hrest. apply eventually_converts.
    pose proof (clauses_in_order _ _ _ _ _ _ Hns) as Hloop.
    eapply eventually_mono;
      [|exact (eventually_and _ _ Hstart
                 (eventually_and _ _ Hloop (eventually_ge (length ns))))].
    intros fuel (-> & El & Hge).
    rewrite (proj1 (result_not_null _ _ Rt Hnt)), (proj1 (result_not_null _ _ Rc Hnc)).
    rewrite Halt. simpl negb. cbv iota. simpl orb. cbv iota.
    replace fuel with (length ns + (fuel - length ns)) at 2 by lia.
    rewrite El. destruct ns as [|n ns].
    + apply clauses_nil_inv in Hns as [-> ->]. congruence.
    + by rewrite Hrest.
  - intros ns rest s3 s4 Hnt Hnc Halt Hns Hrej. apply eventually_converts.
    pose proof (clauses_in_order _ _ _ _ _ _ Hns) as Hloop.
    pose proof (clause_rejects _ _ _ _ Hrej) as Hlast.
    assert (truthy rest = true) as Hrest by (by destruct Hrej).
    eapply eventually_mono;
      [|exact (eventually_and _ _ Hstart
                 (eventually_and _ _ Hloop
                    (eventually_and _ _ Hlast (eventually_ge (S (length ns))))))].
    intros fuel (-> & El & Er & Hge).
    rewrite (proj1 (result_not_null _ _ Rt Hnt)), (proj1 (result_not_null _ _ Rc Hnc)).
    rewrite Halt. simpl negb. cbv iota. simpl orb. cbv iota.
    replace fuel with (length ns + S (fuel - length ns - 1)) at 2 by lia.
    rewrite El. destruct ns as [|n ns].
    + apply clauses_nil_inv in Hns as [-> ->]. by rewrite Er.
    + by rewrite Hrest, Er.
Qed.

(** ** C9 *)

Section ForHelpers.
Context {ir : Type} (builder : Builder ir).
Implicit Types (s : state ir) (v node : value ir).

Lemma switch_ForStatement conv fuel node :
  convert_switch builder conv fuel (VStr "ForStatement") node
  = convert_ForStatement builder conv node.
Proof. reflexivity. Qed.

Lemma convert_nullish_inv fuel v s r :
  nullish v = true -> convert builder fuel v s = Some r ->
  r = Throw TypeError (called v s).
Proof.
  intros Hv. destruct fuel as [|fuel]; [discriminate|].
  rewrite (convert_nullish builder fuel v s Hv). congruence.
Qed.

Lemma never_returns_nullish fuel v s :
  nullish v = true ->
  post (convert builder fuel v) s (fun _ _ => False) (fun _ => True).
Proof.
  intros Hv. apply post_intro. intros r Hr.
  by rewrite (convert_nullish_inv fuel v s r Hv Hr).
Qed.

Lemma post_bind_any {A B} (m : M ir A) (k : A -> M ir B) s (Q : B -> state ir -> Prop) :
  (forall a s', post (k a) s' Q (fun _ => True)) ->
  post (bind m k) s Q (fun _ => True).
Proof.
  intros Hk. apply post_bind. apply post_intro. intros [a s'|e s'] _; [apply Hk|exact I].
Qed.

Lemma post_bind_never {A B} (m : M ir A) (k : A -> M ir B) s (Q : B -> state ir -> Prop) :
  post m s (fun _ _ => False) (fun _ => True) ->
  post (bind m k) s Q (fun _ => True).
Proof.
  intros Hm. apply post_bind. eapply post_mono; [exact Hm| |auto]. intros a s' [].
Qed.

(** With a child absent, the [ForStatement] case never returns. *)
Lemma for_never_returns fuel s l fields :
  heap s !! l = Some (Obj fields) ->
  nullish (field fields "init") = true \/ nullish (field fields "test") = true
  \/ nullish (field fields "update") = true \/ nullish (field fields "body") = true ->
  post (convert_ForStatement builder (convert builder fuel) (VRef l)) s
    (fun _ _ => False) (fun _ => True).
Proof.
  intros Hl Hnull. unfold convert_ForStatement.
  assert (forall name s', nullish (field fields name) = true -> preserved s s' ->
            post (convert_field builder (convert builder fuel) (VRef l) name) s'
              (fun _ _ => False) (fun _ => True)) as Hchild.
  { intros name s' Hn Hp. apply post_intro. intros r Hr.
    rewrite convert_field_object with (fields := fields) in Hr by obj.
    by rewrite (convert_nullish_inv fuel _ s' r Hn Hr). }
  assert (forall name s' (k : value ir -> M ir (value ir)),
            preserved s s' ->
            (forall a s'', preserved s s'' -> post (k a) s'' (fun _ _ => False) (fun _ => True)) ->
            post (bind (convert_field builder (convert builder fuel) (VRef l) name) k) s'
              (fun _ _ => False) (fun _ => True)) as Hskip.
  { intros name s' k Hp Hk. apply post_bind. apply post_intro. intros r Hr.
    rewrite convert_field_object with (fields := fields) in Hr by obj.
    pose proof (post_elim _ _ _ _ _ (convert_well builder fuel _ s') Hr) as Hw.
    destruct r as [a s''|e s'']; [|exact I].
    destruct Hw as (Hp' & _). apply Hk. by apply (preserved_trans _ s'). }
  destruct Hnull as [H|[H|[H|H]]].
  - apply post_bind_never, Hchild; [exact H|apply preserved_refl].
  - apply Hskip; [apply preserved_refl|]. intros i s1 P1.
    by apply post_bind_never, Hchild.
  - apply Hskip; [apply preserved_refl|]. intros i s1 P1.
    apply Hskip; [exact P1|]. intros t s2 P2.
    by apply post_bind_never, Hchild.
  - apply Hskip; [apply preserved_refl|]. intros i s1 P1.
    apply Hskip; [exact P1|]. intros t s2 P2.
    apply Hskip; [exact P2|]. intros u s3 P3.
    by apply post_bind_never, Hchild.
Qed.

End ForHelpers.

(** C9, as the code has it.  A for statement one of whose [init], [test],
    [update] is absent ([null] or [undefined]) makes [convert] throw: no run
    on such a statement returns, be it the sentinel or an IR node.  The
    exception is the [TypeError] of the call on the absent child, which reads
    the [type] of [null], when the conversions of the children before it have
    returned.  A child before it whose conversion throws makes the statement
    throw that exception instead, and this need not be a [TypeError]. *)
Theorem for_statement_absent_child {ir} (builder : Builder ir) s l fields :
  node_at s l fields "ForStatement" ->
  let init := field fields "init" in
  let test := field fields "test" in
  let update := field fields "update" in
  (nullish init = true ->
     converts builder (VRef l) s (Throw TypeError (called init (called (VRef l) s))))
  /\ (forall i s1,
      converts builder init (called (VRef l) s) (Ok i s1) ->
      nullish test = true ->
      converts builder (VRef l) s (Throw TypeError (called test s1)))
  /\ (forall i s1 t s2,
      converts builder init (called (VRef l) s) (Ok i s1) ->
      converts builder test s1 (Ok t s2) ->
      nullish update = true ->
      converts builder (VRef l) s (Throw TypeError (called update s2)))
  /\ (nullish init = true \/ nullish test = true \/ nullish update = true ->
      forall r, converts builder (VRef l) s r -> exists e s', r = Throw e s')
  /\ (forall e s1,
      converts builder init (called (VRef l) s) (Throw e s1) ->
      converts builder (VRef l) s (Throw e s1))
  /\ (forall i s1 e s2,
      converts builder init (called (VRef l) s) (Ok i s1) ->
      converts builder test s1 (Throw e s2) ->
      converts builder (VRef l) s (Throw e s2)).
Proof.
  intros Hn init test update. pose proof Hn as [Hl _].
  assert (forall fuel, convert builder (S fuel) (VRef l) s
            = option_map (return_from (VRef l))
                (convert_ForStatement builder (convert builder fuel) (VRef l)
                   (called (VRef l) s))) as Hstart.
  { intros fuel.
    by rewrite (convert_object builder fuel l fields s Hl), (node_type _ _ _ _ Hn). }
  split; [|split; [|split; [|split; [|split]]]].
  - intros Hi. exists 2. rewrite Hstart. unfold convert_ForStatement.
    erewrite bind_throw; [reflexivity|].
    rewrite convert_field_object with (fields := fields) by obj.
    by apply convert_nullish.
  - intros i s1 Ci Ht. well_facts. apply eventually_converts.
    apply converts_eventually in Ci.
    eapply eventually_mono; [|exact (eventually_and _ _ Ci (eventually_ge 1))].
    intros fuel [Ei Hge]. rewrite Hstart. unfold convert_ForStatement.
    bind_by call_field.
    erewrite bind_throw; [reflexivity|].
    rewrite convert_field_object with (fields := fields) by obj.
    destruct fuel as [|fuel]; [lia|]. by apply convert_nullish.
  - intros i s1 t s2 Ci Ct Hu. well_facts. apply eventually_converts.
    apply converts_eventually in Ci, Ct.
    eapply eventually_mono;
      [|exact (eventually_and _ _ Ci (eventually_and _ _ Ct (eventually_ge 1)))].
    intros fuel (Ei & Et & Hge). rewrite Hstart. unfold convert_ForStatement.
    bind_by call_field. bind_by call_field.
    erewrite bind_throw; [reflexivity|].
    rewrite convert_field_object with (fields := fields) by obj.
    destruct fuel as [|fuel]; [lia|]. by apply convert_nullish.
  - intros Hnull r [fuel Hr]. destruct fuel as [|fuel]; [discriminate|].
    rewrite Hstart in Hr.
    assert (nullish init = true \/ nullish test = true \/ nullish update = true
            \/ nullish (field fields "body") = true) as Hnull' by tauto.
    pose proof (for_never_returns builder fuel (called (VRef l) s) l fields Hl Hnull') as P.
    unfold post in P.
    destruct (convert_ForStatement builder (convert builder fuel) (VRef l)
                (called (VRef l) s)) as [[v s'|e s']|]; try discriminate; [contradiction|].
    injection Hr as <-. by exists e, s'.
  - intros e s1 Ci. apply eventually_converts. apply converts_eventually in Ci.
    eapply eventually_mono; [|exact Ci].
    intros fuel Ei. rewrite Hstart. unfold convert_ForStatement.
    erewrite bind_throw; [reflexivity|].
    rewrite convert_field_object with (fields := fields) by obj. exact Ei.
  - intros i s1 e s2 Ci Ct. well_facts. apply eventually_converts.
    apply converts_eventually in Ci, Ct.
    eapply eventually_mono; [|exact (eventually_and _ _ Ci Ct)].
    intros fuel (Ei & Et). rewrite Hstart. unfold convert_ForStatement.
    bind_by call_field.
    erewrite bind_throw; [reflexivity|].
    rewrite convert_field_object with (fields := fields) by obj. exact Et.
Qed.

Section PropertyHelpers.
Context {ir : Type} (builder : Builder ir).
Implicit Types (s : state ir) (v node : value ir).

Lemma switch_Property conv fuel node :
  convert_switch builder conv fuel (VStr "Property") node
  = convert_Property builder conv node.
Proof. reflexivity. Qed.

Lemma switch_ObjectExpression conv fuel node :
  convert_switch builder conv fuel (VStr "ObjectExpression") node
  = convert_ObjectExpression builder conv node.
Proof. reflexivity. Qed.

Lemma switch_Identifier conv fuel node :
  convert_switch builder conv fuel (VStr "Identifier") node
  = convert_Identifier builder node.
Proof. reflexivity. Qed.

Lemma switch_Literal conv fuel node :
  convert_switch builder conv fuel (VStr "Literal") node
  = convert_Literal builder node.
Proof. reflexivity. Qed.

Lemma switch_TaggedTemplateExpression conv fuel node :
  convert_switch builder conv fuel (VStr "TaggedTemplateExpression") node
  = convert_TaggedTemplateExpression builder conv node.
Proof. reflexivity. Qed.

(** An identifier converts to [builder.identifier(node.name)]. *)
Lemma identifier_converts s l fields :
  node_at s l fields "Identifier" ->
  converts builder (VRef l) s
    (return_from (VRef l)
       (Ok (VIR (identifier builder (field fields "name"))) (called (VRef l) s))).
Proof.
  intros Hn. pose proof Hn as [Hl _]. exists 1.
  rewrite (convert_object builder 0 l fields s Hl), (node_type _ _ _ _ Hn).
  rewrite switch_Identifier. unfold convert_Identifier.
  bind_by read_field. reflexivity.
Qed.

(** A literal that is not a regular expression converts to
    [builder.literal(node.value)]. *)
Lemma literal_converts s l fields :
  node_at s l fields "Literal" ->
  truthy (field fields "regex") = false ->
  converts builder (VRef l) s
    (return_from (VRef l)
       (Ok (VIR (literal builder (field fields "value"))) (called (VRef l) s))).
Proof.
  intros Hn Hre. pose proof Hn as [Hl _]. exists 1.
  rewrite (convert_object builder 0 l fields s Hl), (node_type _ _ _ _ Hn).
  rewrite switch_Literal. unfold convert_Literal.
  bind_by read_field. rewrite Hre.
  erewrite bind_ok; [reflexivity|]. read_field.
Qed.

Lemma property_key_reads computed k s :
  post (property_key builder computed k) s (fun _ s' => s' = s) (fun s' => s' = s).
Proof.
  unfold property_key. destruct (negb computed); [|by apply post_ret].
  apply post_bind. unfold get. apply post_reads_or_throws; [intros type _|done].
  destruct (is_str type "Identifier"); [|by apply post_ret].
  apply post_bind. apply post_reads_or_throws; [intros name _|done].
  by apply post_ret.
Qed.

Lemma bind_reads_ext {A B} (m : M ir A) (k k' : A -> M ir B) s :
  post m s (fun _ s' => s' = s) (fun s' => s' = s) ->
  (forall a, k a s = k' a s) ->
  bind m k s = bind m k' s.
Proof.
  unfold post, bind. intros Hm Hk.
  destruct (m s) as [[a s'|e s']|]; [subst s'; apply Hk|reflexivity|reflexivity].
Qed.

Lemma bind_cong_l {A B} (m m' : M ir A) (k : A -> M ir B) s :
  m s = m' s -> bind m k s = bind m' k s.
Proof. unfold bind. by intros ->. Qed.

(** The [Property] case once the key is converted. *)
Lemma property_start s l fields k s1 :
  node_at s l fields "Property" ->
  converts builder (field fields "key") (called (VRef l) s) (Ok k s1) ->
  eventually (fun fuel =>
    convert builder (S fuel) (VRef l) s
    = option_map (return_from (VRef l))
        (if negb (truthy k) then Some (Ok VNull s1)
         else if is_str (field fields "kind") "get" || is_str (field fields "kind") "set"
         then Some (Ok VNull s1)
         else
           (let* key := property_key builder (is_true (field fields "computed")) k in
            let* value := convert builder fuel (field fields "value") in
            if negb (truthy value) then ret VNull
            else ret (VIR (property builder key value
                             (VBool (is_true (field fields "computed")))))) s1)).
Proof.
  intros Hn Hk. pose proof Hn as [Hl _]. well_facts.
  apply converts_eventually in Hk.
  eapply eventually_mono; [|exact Hk]. intros fuel Ek. cbv beta in Ek.
  rewrite (convert_object builder fuel l fields s Hl), (node_type _ _ _ _ Hn).
  rewrite switch_Property. unfold convert_Property. f_equal.
  bind_by read_field. bind_by call_field.
  destruct (negb (truthy k)); [reflexivity|].
  bind_by read_field.
  destruct (is_str (field fields "kind") "get" || is_str (field fields "kind") "set");
    [reflexivity|].
  apply bind_reads_ext; [apply property_key_reads|]. intros key.
  apply bind_cong_l. apply convert_field_object. obj.
Qed.

(** An accessor property is rejected as soon as its key is converted. *)
Lemma accessor_rejects s l fields k s1 :
  node_at s l fields "Property" ->
  is_str (field fields "kind") "get" = true
  \/ is_str (field fields "kind") "set" = true ->
  converts builder (field fields "key") (called (VRef l) s) (Ok k s1) ->
  converts builder (VRef l) s (Ok VNull (returned (VRef l) VNull s1)).
Proof.
  intros Hn Hkind Hk. apply eventually_converts.
  eapply eventually_mono; [|exact (property_start s l fields k s1 Hn Hk)].
  intros fuel ->.
  assert (is_str (field fields "kind") "get" || is_str (field fields "kind") "set" = true)
    as -> by (destruct Hkind as [-> | ->]; [reflexivity|apply orb_true_r]).
  by destruct (negb (truthy k)).
Qed.

(** A property with an identifier-shaped key gets a literal key. *)
Lemma property_identifier_key s l fields k s1 v s2 :
  node_at s l fields "Property" ->
  is_true (field fields "computed") = false ->
  is_str (field fields "kind") "get" = false ->
  is_str (field fields "kind") "set" = false ->
  converts builder (field fields "key") (called (VRef l) s) (Ok (VIR k) s1) ->
  ir_get builder k "type" = VStr "Identifier" ->
  converts builder (field fields "value") s1 (Ok v s2) ->
  v <> VNull ->
  let result :=
    VIR (property builder (VIR (literal builder (ir_get builder k "name"))) v (VBool false)) in
  converts builder (VRef l) s (Ok result (returned (VRef l) result s2)).
Proof.
  intros Hn Hcomp Hget Hset Hk Htype Hv Hnv result. apply eventually_converts.
  pose proof (converts_well _ _ _ _ Hv) as (_ & Rv & _).
  pose proof (property_start s l fields (VIR k) s1 Hn Hk) as Hstart.
  apply converts_eventually in Hv.
  eapply eventually_mono; [|exact (eventually_and _ _ Hstart Hv)].
  intros fuel [-> Ev]. simpl truthy. simpl negb. cbv iota.
  rewrite Hget, Hset, Hcomp. simpl.
  unfold property_key, bind, get, reads_or_throws. simpl. rewrite Htype. simpl.
  rewrite Ev. by rewrite (proj1 (result_not_null _ _ Rv Hnv)).
Qed.

(** A property whose key is converted to something that is not
    identifier-shaped keeps that key. *)
Lemma property_other_key s l fields k s1 v s2 :
  node_at s l fields "Property" ->
  is_true (field fields "computed") = false ->
  is_str (field fields "kind") "get" = false ->
  is_str (field fields "kind") "set" = false ->
  converts builder (field fields "key") (called (VRef l) s) (Ok (VIR k) s1) ->
  is_str (ir_get builder k "type") "Identifier" = false ->
  converts builder (field fields "value") s1 (Ok v s2) ->
  v <> VNull ->
  let result := VIR (property builder (VIR k) v (VBool false)) in
  converts builder (VRef l) s (Ok result (returned (VRef l) result s2)).
Proof.
  intros Hn Hcomp Hget Hset Hk Htype Hv Hnv result. apply eventually_converts.
  pose proof (converts_well _ _ _ _ Hv) as (_ & Rv & _).
  pose proof (property_start s l fields (VIR k) s1 Hn Hk) as Hstart.
  apply converts_eventually in Hv.
  eapply eventually_mono; [|exact (eventually_and _ _ Hstart Hv)].
  intros fuel [-> Ev]. simpl truthy. simpl negb. cbv iota.
  rewrite Hget, Hset, Hcomp. simpl.
  unfold property_key, bind, get, reads_or_throws. simpl. rewrite Htype. simpl.
  rewrite Ev. by rewrite (proj1 (result_not_null _ _ Rv Hnv)).
Qed.

(** An object literal is rejected when the list of its properties is. *)
Lemma object_rejects s l fields s1 :
  node_at s l fields "ObjectExpression" ->
  converts builder (field fields "properties") (called (VRef l) s) (Ok VNull s1) ->
  converts builder (VRef l) s (Ok VNull (returned (VRef l) VNull s1)).
Proof.
  intros Hn Hp. pose proof Hn as [Hl _]. apply eventually_converts.
  apply converts_eventually in Hp.
  eapply eventually_mono; [|exact Hp]. intros fuel Ep. cbv beta in Ep.
  rewrite (convert_object builder fuel l fields s Hl), (node_type _ _ _ _ Hn).
  rewrite switch_ObjectExpression. unfold convert_ObjectExpression.
  bind_by call_field. reflexivity.
Qed.

End PropertyHelpers.

(** ** C5 *)

(** C5: a property that is not computed and whose key converts to an
    identifier-shaped IR node (one whose [type] is ["Identifier"]) converts
    to a property IR node whose key is [builder.literal(key.name)].  Hence,
    for a builder whose identifier nodes are identifier-shaped and carry
    their name, and whose literal nodes are not identifier-shaped, the
    property with the identifier key [name] and the property with the
    literal key ["name"] get the same key: the literal node of the string
    [name]. *)
Theorem property_key_normalised {ir} (builder : Builder ir) :
  (forall s l fields k s1 v s2,
      node_at s l fields "Property" ->
      is_true (field fields "computed") = false ->
      is_str (field fields "kind") "get" = false ->
      is_str (field fields "kind") "set" = false ->
      converts builder (field fields "key") (called (VRef l) s) (Ok (VIR k) s1) ->
      ir_get builder k "type" = VStr "Identifier" ->
      converts builder (field fields "value") s1 (Ok v s2) ->
      v <> VNull ->
      let result :=
        VIR (property builder (VIR (literal builder (ir_get builder k "name"))) v
               (VBool false)) in
      converts builder (VRef l) s (Ok result (returned (VRef l) result s2)))
  /\ ((forall name, ir_get builder (identifier builder name) "type" = VStr "Identifier") ->
      (forall name, ir_get builder (identifier builder name) "name" = name) ->
      (forall x, is_str (ir_get builder (literal builder x) "type") "Identifier" = false) ->
      forall s l fields key kfields name k v s2,
        node_at s l fields "Property" ->
        is_true (field fields "computed") = false ->
        is_str (field fields "kind") "get" = false ->
        is_str (field fields "kind") "set" = false ->
        fields !! "key" = Some (VRef key) ->
        kfields !! "name" = Some (VStr name) /\ node_at s key kfields "Identifier"
          /\ k = identifier builder (VStr name)
        \/ kfields !! "value" = Some (VStr name) /\ node_at s key kfields "Literal"
          /\ truthy (field kfields "regex") = false
          /\ k = literal builder (VStr name) ->
        converts builder (field fields "value")
          (returned (VRef key) (VIR k) (called (VRef key) (called (VRef l) s)))
          (Ok v s2) ->
        v <> VNull ->
        let result :=
          VIR (property builder (VIR (literal builder (VStr name))) v (VBool false)) in
        converts builder (VRef l) s (Ok result (returned (VRef l) result s2))).
Proof.
  split.
  - intros s l fields k s1 v s2. apply property_identifier_key.
  - intros Htype Hname Hlit s l fields key kfields name k v s2
      Hn Hcomp Hget Hset Hkey Hshape Hv Hnv result.
    destruct Hshape as [(Hkn & Hk & ->)|(Hkv & Hk & Hre & ->)].
    + pose proof (identifier_converts builder (called (VRef l) s) key kfields Hk) as Ck.
      rewrite (field_Some _ _ _ Hkn) in Ck. simpl in Ck.
      assert (converts builder (field fields "key") (called (VRef l) s)
                (Ok (VIR (identifier builder (VStr name)))
                   (returned (VRef key) (VIR (identifier builder (VStr name)))
                      (called (VRef key) (called (VRef l) s))))) as Ck'
        by (by rewrite (field_Some _ _ _ Hkey)).
      pose proof (property_identifier_key builder s l fields _ _ v s2
                    Hn Hcomp Hget Hset Ck' (Htype _) Hv Hnv) as R.
      simpl in R. by rewrite Hname in R.
    + pose proof (literal_converts builder (called (VRef l) s) key kfields Hk Hre) as Ck.
      rewrite (field_Some _ _ _ Hkv) in Ck. simpl in Ck.
      assert (converts builder (field fields "key") (called (VRef l) s)
                (Ok (VIR (literal builder (VStr name)))
                   (returned (VRef key) (VIR (literal builder (VStr name)))
                      (called (VRef key) (called (VRef l) s))))) as Ck'
        by (by rewrite (field_Some _ _ _ Hkey)).
      exact (property_other_key builder s l fields _ _ v s2
               Hn Hcomp Hget Hset Ck' (Hlit _) Hv Hnv).
Qed.

(** ** C6 *)

(** C6, as the code has it.  The key of a property is converted before its
    kind is looked at.  So a getter or a setter is rejected once the
    conversion of its key has returned, whatever it returned, and its value
    is not converted; and an object literal is rejected when the properties
    before a getter or setter are converted and the conversion of the
    accessor's key returns. *)
Theorem accessor_property_rejected {ir} (builder : Builder ir) :
  (forall s l fields k s1,
      node_at s l fields "Property" ->
      is_str (field fields "kind") "get" = true
      \/ is_str (field fields "kind") "set" = true ->
      converts builder (field fields "key") (called (VRef l) s) (Ok k s1) ->
      converts builder (VRef l) s (Ok VNull (returned (VRef l) VNull s1)))
  /\ (forall s o ofields properties elements props cs s1 p pfields k s2,
      node_at s o ofields "ObjectExpression" ->
      ofields !! "properties" = Some (VRef properties) ->
      heap s !! properties = Some (Arr elements props) ->
      converted_in_order builder (VRef properties) (store_result properties) anything 0
        (called (VRef properties) (called (VRef o) s)) cs s1 ->
      length cs < length elements ->
      get_elem builder s1 (VRef properties) (length cs) = Some (VRef p) ->
      node_at s1 p pfields "Property" ->
      is_str (field pfields "kind") "get" = true
      \/ is_str (field pfields "kind") "set" = true ->
      converts builder (field pfields "key") (called (VRef p) s1) (Ok k s2) ->
      converts builder (VRef o) s
        (Ok VNull
           (returned (VRef o) VNull
              (returned (VRef properties) VNull (returned (VRef p) VNull s2))))).
Proof.
  split.
  - apply accessor_rejects.
  - intros s o ofields properties elements props cs s1 p pfields k s2
      Ho Hprops Ha Hcs Hlen Hp Hn Hkind Hk.
    apply (object_rejects builder s o ofields _ Ho).
    rewrite (field_Some _ _ _ Hprops).
    eapply (array_rejects builder (called (VRef o) s) properties elements props);
      [exact Ha|exact Hcs|exact Hlen|exact Hp|].
    by apply (accessor_rejects builder s1 p pfields k s2).
Qed.

(** ** C7 *)

Section TaggedHelpers.
Context {ir : Type} (builder : Builder ir).

Lemma tagged_start fuel s l fields name :
  node_at s l fields "TaggedTemplateExpression" ->
  get_prop builder s (field fields "tag") "name" = Some name ->
  convert builder (S fuel) (VRef l) s
  = option_map (return_from (VRef l))
      (if is_str name "$nonstandard" then
         (let* quasi := convert builder fuel (field fields "quasi") in
          if truthy quasi then assign builder quasi "nonstandard" (VBool true)
          else ret VNull) (called (VRef l) s)
       else Some (Ok VNull (called (VRef l) s))).
Proof.
  intros Hn Hname. pose proof Hn as [Hl _].
  rewrite (convert_object builder fuel l fields s Hl), (node_type _ _ _ _ Hn).
  rewrite switch_TaggedTemplateExpression. unfold convert_TaggedTemplateExpression.
  f_equal. bind_by read_field.
  erewrite bind_ok; [|apply get_ok; exact Hname].
  destruct (is_str name "$nonstandard"); [|reflexivity].
  apply bind_cong_l. apply convert_field_object. obj.
Qed.

End TaggedHelpers.

(** C7: a tagged template whose tag is not named [$nonstandard] is rejected
    at once, its template not being converted; one whose tag is named
    [$nonstandard] is rejected when its template is, and when its template
    converts to an IR node it converts to that node with [nonstandard] set to
    [true].  Conversely, a tagged template that converts to something else
    than the sentinel has a tag named [$nonstandard] and a template that
    converts to something else than the sentinel. *)
Theorem tagged_template_conversion {ir} (builder : Builder ir) s l fields name :
  node_at s l fields "TaggedTemplateExpression" ->
  get_prop builder s (field fields "tag") "name" = Some name ->
  let quasi := field fields "quasi" in
  (is_str name "$nonstandard" = false ->
     converts builder (VRef l) s
       (Ok VNull (returned (VRef l) VNull (called (VRef l) s))))
  /\ (forall s1,
      is_str name "$nonstandard" = true ->
      converts builder quasi (called (VRef l) s) (Ok VNull s1) ->
      converts builder (VRef l) s (Ok VNull (returned (VRef l) VNull s1)))
  /\ (forall q s1,
      is_str name "$nonstandard" = true ->
      converts builder quasi (called (VRef l) s) (Ok (VIR q) s1) ->
      let result := VIR (ir_set builder q "nonstandard" (VBool true)) in
      converts builder (VRef l) s (Ok result (returned (VRef l) result s1)))
  /\ (forall v s',
      converts builder (VRef l) s (Ok v s') ->
      v <> VNull ->
      is_str name "$nonstandard" = true
      /\ exists q s1,
          converts builder quasi (called (VRef l) s) (Ok q s1) /\ q <> VNull).
Proof.
  intros Hn Hname quasi.
  split; [|split; [|split]].
  - intros Hno. exists 1. rewrite (tagged_start builder 0 s l fields name Hn Hname).
    by rewrite Hno.
  - intros s1 Hyes [fuel Hq]. exists (S fuel).
    rewrite (tagged_start builder fuel s l fields name Hn Hname), Hyes.
    bind_by eassumption. reflexivity.
  - intros q s1 Hyes [fuel Hq] result. exists (S fuel).
    rewrite (tagged_start builder fuel s l fields name Hn Hname), Hyes.
    bind_by eassumption. reflexivity.
  - intros v s' [fuel Hv] Hnv. destruct fuel as [|fuel]; [discriminate|].
    rewrite (tagged_start builder fuel s l fields name Hn Hname) in Hv.
    destruct (is_str name "$nonstandard"); [|simpl in Hv; congruence].
    split; [reflexivity|].
    destruct (convert builder fuel (field fields "quasi") (called (VRef l) s))
      as [[q s1|e s1]|] eqn:Eq.
    + exists q, s1. split; [by exists fuel|].
      intros ->. rewrite (bind_ok _ _ _ _ _ Eq) in Hv. simpl in Hv. congruence.
    + rewrite (bind_throw _ _ _ _ _ Eq) in Hv. discriminate.
    + unfold bind in Hv. rewrite Eq in Hv. discriminate.
Qed.

(** ** C8 *)

Section DefaultHelpers.
Context {ir : Type} (builder : Builder ir).

Lemma switch_default conv fuel type node :
  (forall kind, In kind supported_kinds -> type <> VStr kind) ->
  convert_switch builder conv fuel type node = ret VNull.
Proof.
  intros H.
  assert (forall kind, In kind supported_kinds -> is_str type kind = false) as Hno.
  { intros kind Hin. specialize (H kind Hin). destruct type; try reflexivity.
    simpl. apply String.eqb_neq. congruence. }
  unfold convert_switch.
  rewrite !Hno by (unfold supported_kinds; simpl; tauto). reflexivity.
Qed.

End DefaultHelpers.

(** C8, as the code has it.  A node whose [type] is none of the labels of
    the [switch] is rejected at once.  And whenever a call of [convert]
    returns, if any call made in its course returned the sentinel then it
    returns the sentinel itself, [null] and nothing else.  (A call does not
    always return: see C9.) *)
Theorem unsupported_kind_rejected {ir} (builder : Builder ir) :
  (forall s l fields,
      heap s !! l = Some (Obj fields) ->
      (forall kind, In kind supported_kinds -> field fields "type" <> VStr kind) ->
      converts builder (VRef l) s
        (Ok VNull (returned (VRef l) VNull (called (VRef l) s))))
  /\ (forall node s v s' t n,
      converts builder node s (Ok v s') ->
      trace s' = trace s ++ t ->
      In (Return n VNull) t ->
      v = VNull).
Proof.
  split.
  - intros s l fields Hl Hkind. exists 1.
    rewrite (convert_object builder 0 l fields s Hl).
    by rewrite (switch_default builder _ _ _ _ Hkind).
  - intros node s v s' t n Hc Ht Hin.
    pose proof (converts_well _ _ _ _ Hc) as (_ & _ & Hq).
    pose proof (rejections_grow s s' t n Ht Hin) as Hlt.
    destruct v; try (rewrite Hq in Hlt by discriminate; lia). reflexivity.
Qed.

(** ** C2 *)

(** C2, as the code has it.  Whether a call of [convert] returns an IR node,
    the sentinel, or throws, it leaves every object of the store with the
    properties it had and every array with the length it had.  The elements
    of an array are not left alone: an array given to [convert] whose
    elements are all converted (none of the conversions writing to the
    array) holds the results afterwards, in place of its elements. *)
Theorem input_objects_unchanged {ir} (builder : Builder ir) :
  (forall node s r,
      converts builder node s r ->
      (forall l fields,
          heap s !! l = Some (Obj fields) -> heap (final r) !! l = Some (Obj fields))
      /\ (forall l elements props,
          heap s !! l = Some (Arr elements props) ->
          exists elements' props',
            heap (final r) !! l = Some (Arr elements' props')
            /\ length elements' = length elements))
  /\ (forall s nodes elements props cs s1,
      heap s !! nodes = Some (Arr elements props) ->
      converted_in_order builder (VRef nodes) (store_result nodes) (untouched nodes) 0
        (called (VRef nodes) s) cs s1 ->
      length cs = length elements ->
      converts builder (VRef nodes) s
        (Ok (VRef nodes) (returned (VRef nodes) (VRef nodes) s1))
      /\ heap (returned (VRef nodes) (VRef nodes) s1) !! nodes = Some (Arr cs props)).
Proof.
  split.
  - intros node s r Hc.
    assert (preserved s (final r)) as [Hp _].
    { pose proof (converts_well _ _ _ _ Hc) as Hw.
      destruct r; [destruct Hw as (Hw & _)|]; exact Hw. }
    split.
    + intros l fields Hl. specialize (Hp l). by rewrite Hl in Hp.
    + intros l elements props Hl. specialize (Hp l). by rewrite Hl in Hp.
  - intros s nodes elements props cs s1 Ha Hcs Hlen. split.
    + eapply array_converts; eassumption.
    + exact (array_holds_results builder s nodes elements props cs s1 Ha Hcs Hlen).
Qed.

(** ** The theorems at the example trees *)

Ltac run_with fuel := exists fuel; vm_compute; reflexivity.

Lemma throws_not_rejected {ir} (builder : Builder ir) node s e s' :
  converts builder node s (Throw e s') ->
  ~ exists s'', converts builder node s (Ok VNull s'').
Proof.
  intros Ht [s'' Hok]. pose proof (converts_unique _ _ _ _ _ Ht Hok). discriminate.
Qed.

(** [[a, (b, c), <hole>]]: [a] is converted, [(b, c)] is rejected, and the
    hole, whose conversion would throw, is not reached. *)
Lemma array_short_circuit_witness :
  exists s', converts Stub.builder (VRef 1) Examples.array_with_unsupported (Ok VNull s').
Proof.
  destruct (array_short_circuit Stub.builder Examples.array_with_unsupported 1%positive
              [VRef 2; VRef 3; VNull] ∅ eq_refl) as (H & _ & _).
  eexists. eapply H.
  - eapply in_order_cons.
    + vm_compute. reflexivity.
    + run_with 2.
    + discriminate.
    + exact I.
    + apply in_order_nil.
  - simpl. lia.
  - vm_compute. reflexivity.
  - run_with 2.
Defined.

(** [[a]]: after the call the array holds the IR identifier, not the node. *)
Lemma input_array_overwritten :
  exists r,
    converts Stub.builder (VRef 1) Examples.array_of_identifier r
    /\ heap Examples.array_of_identifier !! 1%positive = Some (Stub.arr [VRef 2])
    /\ heap (final r) !! 1%positive
       = Some (Stub.arr [VIR (Stub.node "Identifier" [("name", VStr "a")])]).
Proof.
  eexists. split; [run_with 2|]. split; vm_compute; reflexivity.
Qed.

Lemma input_objects_unchanged_witness :
  exists r,
    converts Stub.builder (VRef 1) Examples.array_of_identifier r
    /\ heap (final r) !! 2%positive = Some (Stub.Identifier "a").
Proof.
  assert (converts Stub.builder (VRef 1) Examples.array_of_identifier
            (Ok (VRef 1)
               (returned (VRef 1) (VRef 1)
                  (store_result 1%positive 0 (VIR (Stub.node "Identifier" [("name", VStr "a")]))
                     (returned (VRef 2) (VIR (Stub.node "Identifier" [("name", VStr "a")]))
                        (called (VRef 2) (called (VRef 1) Examples.array_of_identifier)))))))
    as Hc by run_with 2.
  eexists. split; [exact Hc|].
  apply (proj1 (proj1 (input_objects_unchanged Stub.builder) _ _ _ Hc)).
  reflexivity.
Defined.

(** [if (a, b) for (;;) {}]: the test is rejected, but the statement is not:
    the consequent is converted all the same, and throws. *)
Lemma if_test_rejected_statement_throws :
  (exists s1,
      converts Stub.builder (VRef 2) (called (VRef 1) Examples.if_sequence_for)
        (Ok VNull s1))
  /\ (exists s', converts Stub.builder (VRef 1) Examples.if_sequence_for
                   (Throw TypeError s'))
  /\ ~ (exists s', converts Stub.builder (VRef 1) Examples.if_sequence_for (Ok VNull s')).
Proof.
  assert (exists s', converts Stub.builder (VRef 1) Examples.if_sequence_for
                       (Throw TypeError s')) as [s' Ht]
    by (eexists; run_with 3).
  split; [eexists; run_with 2|]. split; [by exists s'|].
  exact (throws_not_rejected _ _ _ _ _ Ht).
Qed.

(** [if (a) { x; } else if (b) { y; } else { z; }] converts to a container
    holding an if node, an else-if node and an else node. *)
Lemma if_statement_conversion_witness :
  exists a x b y z s',
    converts Stub.builder (VRef 1) Examples.if_else_if_else
      (Ok (VIR (append_all Stub.builder (containerNode Stub.builder)
                  [VIR (ifStatement Stub.builder a x);
                   VIR (elseIfStatement Stub.builder b y);
                   VIR (elseStatement Stub.builder z)])) s').
Proof.
  do 5 eexists.
  edestruct (if_statement_conversion Stub.builder Examples.if_else_if_else 1%positive
               (Stub.fields_of (Stub.IfStatement 2 3 (VRef 7))))
    as (_ & _ & H & _).
  - split; reflexivity.
  - run_with 2.
  - run_with 4.
  - eexists.
    eapply (H [elseIfStatement Stub.builder _ _; elseStatement Stub.builder _]).
    + discriminate.
    + discriminate.
    + reflexivity.
    + eapply clauses_cons; [reflexivity| |].
      * eapply clause_else_if;
          [reflexivity|reflexivity|run_with 2|run_with 4|discriminate|discriminate].
      * eapply clauses_cons; [reflexivity| |].
        -- eapply clause_else; [reflexivity|reflexivity|run_with 5|discriminate].
        -- apply clauses_nil.
    + reflexivity.
Defined.

(** The program [a; b;] converts to a container of two identifiers. *)
Lemma program_conversion_witness :
  exists s',
    converts Stub.builder (VRef 1) Examples.program_of_two
      (Ok (VIR (append_all Stub.builder (containerNode Stub.builder)
                  [VIR (identifier Stub.builder (VStr "a"));
                   VIR (identifier Stub.builder (VStr "b"))])) s').
Proof.
  destruct (program_conversion Stub.builder Examples.program_of_two 1%positive
              (Stub.fields_of (Stub.obj [("type", VStr "Program"); ("body", VRef 2)]))
              2%positive [VRef 3; VRef 5] ∅) as (_ & H & _).
  - split; reflexivity.
  - reflexivity.
  - reflexivity.
  - eexists. eapply H.
    + discriminate.
    + eapply in_order_cons;
        [vm_compute; reflexivity|run_with 3|discriminate|exact I|].
      eapply in_order_cons;
        [vm_compute; reflexivity|run_with 3|discriminate|exact I|].
      apply in_order_nil.
    + reflexivity.
Defined.

(** The empty program converts to the empty container. *)
Lemma program_empty_witness :
  converts Stub.builder (VRef 1) Examples.program_of_none
    (Ok (VIR (containerNode Stub.builder))
        (returned (VRef 1) (VIR (containerNode Stub.builder))
           (called (VRef 1) Examples.program_of_none))).
Proof.
  apply (program_empty Stub.builder Examples.program_of_none 1%positive
           (Stub.fields_of (Stub.obj [("type", VStr "Program"); ("body", VRef 2)]))
           2%positive ∅).
  - split; reflexivity.
  - reflexivity.
  - reflexivity.
Defined.

Lemma stub_identifier_type (name : value tree) :
  ir_get Stub.builder (identifier Stub.builder name) "type" = VStr "Identifier".
Proof. reflexivity. Qed.

Lemma stub_identifier_name (name : value tree) :
  ir_get Stub.builder (identifier Stub.builder name) "name" = name.
Proof. reflexivity. Qed.

Lemma stub_literal_type (x : value tree) :
  is_str (ir_get Stub.builder (literal Stub.builder x) "type") "Identifier" = false.
Proof. reflexivity. Qed.

(** The properties of [{a: 1}] and of [{"a": 1}] convert to property nodes
    with the same key, the literal ["a"]. *)
Lemma property_key_normalised_witness :
  let key := VIR (literal Stub.builder (VStr "a")) in
  let one := VIR (literal Stub.builder (VNum 1)) in
  (exists s', converts Stub.builder (VRef 1) Examples.property_a
                (Ok (VIR (property Stub.builder key one (VBool false))) s'))
  /\ (exists s', converts Stub.builder (VRef 1) Examples.property_quoted_a
                   (Ok (VIR (property Stub.builder key one (VBool false))) s')).
Proof.
  intros key one.
  pose proof (proj2 (property_key_normalised Stub.builder)
                stub_identifier_type stub_identifier_name stub_literal_type) as H.
  split.
  - eexists.
    eapply (H Examples.property_a 1%positive
              (Stub.fields_of (Stub.Property "init" false 2 3)) 2%positive
              (Stub.fields_of (Stub.Identifier "a")) "a").
    + split; reflexivity.
    + reflexivity.
    + reflexivity.
    + reflexivity.
    + reflexivity.
    + left. split; [reflexivity|]. split; [split; reflexivity|reflexivity].
    + run_with 1.
    + discriminate.
  - eexists.
    eapply (H Examples.property_quoted_a 1%positive
              (Stub.fields_of (Stub.Property "init" false 2 3)) 2%positive
              (Stub.fields_of (Stub.Literal (VStr "a"))) "a").
    + split; reflexivity.
    + reflexivity.
    + reflexivity.
    + reflexivity.
    + reflexivity.
    + right. split; [reflexivity|]. split; [split; reflexivity|]. split; reflexivity.
    + run_with 1.
    + discriminate.
Defined.

(** The getter of [({ get [[,]]() {} })] is not rejected: the conversion of
    its key throws. *)
Lemma getter_with_hole_key_throws :
  (exists s', converts Stub.builder (VRef 1) Examples.getter_with_hole_key
                (Throw TypeError s'))
  /\ ~ (exists s', converts Stub.builder (VRef 1) Examples.getter_with_hole_key
                     (Ok VNull s')).
Proof.
  assert (exists s', converts Stub.builder (VRef 1) Examples.getter_with_hole_key
                       (Throw TypeError s')) as [s' Ht]
    by (eexists; run_with 4).
  split; [by exists s'|]. exact (throws_not_rejected _ _ _ _ _ Ht).
Qed.

(** [({ b: 2, get a() {} })] is rejected. *)
Lemma accessor_property_rejected_witness :
  exists s', converts Stub.builder (VRef 1) Examples.object_with_getter (Ok VNull s').
Proof.
  eexists.
  eapply (proj2 (accessor_property_rejected Stub.builder)
            Examples.object_with_getter 1%positive
            (Stub.fields_of (Stub.obj [("type", VStr "ObjectExpression");
                                       ("properties", VRef 2)]))
            2%positive [VRef 3; VRef 6] ∅ _ _ 6%positive
            (Stub.fields_of (Stub.Property "get" false 7 8))).
  - split; reflexivity.
  - reflexivity.
  - reflexivity.
  - eapply in_order_cons;
      [vm_compute; reflexivity|run_with 2|discriminate|exact I|].
    apply in_order_nil.
  - simpl. lia.
  - vm_compute. reflexivity.
  - split; reflexivity.
  - left. reflexivity.
  - run_with 1.
Defined.

(** [$nonstandard`x`] converts to the template node with [nonstandard] set. *)
Lemma tagged_template_conversion_witness :
  exists q s',
    converts Stub.builder (VRef 1) Examples.tagged_nonstandard
      (Ok (VIR (ir_set Stub.builder q "nonstandard" (VBool true))) s')
    /\ ir_get Stub.builder q "type" = VStr "TemplateLiteral"
    /\ ir_get Stub.builder (ir_set Stub.builder q "nonstandard" (VBool true))
         "nonstandard" = VBool true.
Proof.
  edestruct (tagged_template_conversion Stub.builder Examples.tagged_nonstandard
               1%positive
               (Stub.fields_of (Stub.obj [("type", VStr "TaggedTemplateExpression");
                                          ("tag", VRef 2); ("quasi", VRef 3)])))
    as (_ & _ & H & _).
  - split; reflexivity.
  - reflexivity.
  - do 2 eexists. split; [|split].
    + eapply H; [reflexivity|]. run_with 2.
    + reflexivity.
    + reflexivity.
Defined.

(** [for (a, b; ; ) {}]: the [init] is rejected, but the sentinel does not
    reach the caller of the statement's conversion: converting the absent
    [test] throws. *)
Lemma for_init_rejected_statement_throws :
  (exists s1,
      converts Stub.builder (VRef 2) (called (VRef 1) Examples.for_sequence)
        (Ok VNull s1))
  /\ (exists s', converts Stub.builder (VRef 1) Examples.for_sequence
                   (Throw TypeError s'))
  /\ ~ (exists s', converts Stub.builder (VRef 1) Examples.for_sequence (Ok VNull s')).
Proof.
  assert (exists s', converts Stub.builder (VRef 1) Examples.for_sequence
                       (Throw TypeError s')) as [s' Ht]
    by (eexists; run_with 3).
  split; [eexists; run_with 2|]. split; [by exists s'|].
  exact (throws_not_rejected _ _ _ _ _ Ht).
Qed.

(** The sequence expression of [for (a, b; ; ) {}] is rejected. *)
Lemma unsupported_kind_rejected_witness :
  converts Stub.builder (VRef 2) Examples.for_sequence
    (Ok VNull (returned (VRef 2) VNull (called (VRef 2) Examples.for_sequence))).
Proof.
  eapply (proj1 (unsupported_kind_rejected Stub.builder) Examples.for_sequence 2%positive
            (Stub.fields_of (Stub.SequenceExpression 3))).
  - reflexivity.
  - intros kind Hin. vm_compute.
    unfold supported_kinds in Hin. simpl in Hin.
    intuition (subst; discriminate).
Defined.

(** [for (/a/zz; ; ) {}]: the test is absent, and what the statement throws
    is not a [TypeError]: it is the [SyntaxError] of the regular expression
    of [init], thrown before the call on the test is made. *)
Lemma for_regex_invalid_throws_syntax_error :
  nullish (field (Stub.fields_of (Stub.ForStatement (VRef 2) VNull VNull 4)) "test") = true
  /\ heap Examples.for_regex_invalid !! 1%positive
     = Some (Stub.ForStatement (VRef 2) VNull VNull 4)
  /\ converts Stub.builder (VRef 1) Examples.for_regex_invalid
       (Throw SyntaxError (called (VRef 2) (called (VRef 1) Examples.for_regex_invalid)))
  /\ ~ (exists s', converts Stub.builder (VRef 1) Examples.for_regex_invalid
                     (Throw TypeError s')).
Proof.
  assert (converts Stub.builder (VRef 1) Examples.for_regex_invalid
            (Throw SyntaxError
               (called (VRef 2) (called (VRef 1) Examples.for_regex_invalid)))) as Hs
    by run_with 2.
  split; [reflexivity|]. split; [reflexivity|]. split; [exact Hs|].
  intros [s' Ht]. pose proof (converts_unique _ _ _ _ _ Hs Ht). discriminate.
Qed.

(** [for (;;) {}] throws. *)
Lemma for_statement_absent_child_witness :
  converts Stub.builder (VRef 1) Examples.for_ever
    (Throw TypeError (called VNull (called (VRef 1) Examples.for_ever))).
Proof.
  edestruct (for_statement_absent_child Stub.builder Examples.for_ever 1%positive
               (Stub.fields_of (Stub.ForStatement VNull VNull VNull 2)))
    as (H & _).
  - split; reflexivity.
  - apply H. reflexivity.
Defined.

(** ** The converter at the examples of the specification *)

Section SpecificationExamples.
Import Stub.

(** [a + b] converts to a binary node with operator [+] and operands [a], [b]. *)
Example sum_a_b_converts :
  exists s',
    convertRawJavaScriptAst 2 (VRef 1) builder Examples.sum_a_b
    = Some (Ok (VIR (node "BinaryExpression"
                       [("left", ident "a"); ("operator", VStr "+"); ("right", ident "b")]))
               s').
Proof. eexists. vm_compute. reflexivity. Qed.

(** [/ab+c/gi] converts to a literal whose value is the regular expression
    rebuilt from the pattern and the flags. *)
Example regex_literal_converts :
  exists s',
    convertRawJavaScriptAst 1 (VRef 1) builder Examples.regex_literal
    = Some (Ok (VIR (node "Literal" [("value", VRegExp "ab+c" "gi")])) s').
Proof. eexists. vm_compute. reflexivity. Qed.

(** [return;] and [return x;] convert to return nodes with different
    arguments. *)
Example return_statements_convert :
  (exists s',
      convertRawJavaScriptAst 2 (VRef 1) builder Examples.return_nothing
      = Some (Ok (VIR (node "Return" [("argument", VNull)])) s'))
  /\ (exists s',
      convertRawJavaScriptAst 2 (VRef 1) builder Examples.return_x
      = Some (Ok (VIR (node "Return" [("argument", ident "x")])) s')).
Proof. split; eexists; vm_compute; reflexivity. Qed.

(** [if (a) { x; } else if (b) { y; } else { z; }] converts to a container
    of an if node, an else-if node and an else node; each body is the array
    of the block it came from. *)
Example if_else_if_else_converts :
  exists s',
    convertRawJavaScriptAst 5 (VRef 1) builder Examples.if_else_if_else
    = Some (Ok (VIR (Node [("type", VStr "ContainerNode")]
                       [VIR (node "If" [("test", ident "a"); ("body", VRef 4)]);
                        VIR (node "ElseIf" [("test", ident "b"); ("body", VRef 10)]);
                        VIR (node "Else" [("body", VRef 14)])]))
               s')
    /\ heap s' !! 4%positive = Some (arr [ident "x"])
    /\ heap s' !! 10%positive = Some (arr [ident "y"])
    /\ heap s' !! 14%positive = Some (arr [ident "z"]).
Proof. eexists. split; [vm_compute; reflexivity|]. repeat split. Qed.

(** On [[a, (b, c), <hole>]] the calls and returns are: the array, [a] and
    its result, [(b, c)] and the sentinel, the sentinel for the array.  There
    is no call on the hole. *)
Example array_with_unsupported_trace :
  exists s',
    convertRawJavaScriptAst 3 (VRef 1) builder Examples.array_with_unsupported
    = Some (Ok VNull s')
    /\ trace s'
       = [Call (VRef 1); Call (VRef 2); Return (VRef 2) (ident "a");
          Call (VRef 3); Return (VRef 3) VNull; Return (VRef 1) VNull].
Proof. eexists. split; [vm_compute; reflexivity|reflexivity]. Qed.

End SpecificationExamples.

(** ** The cases that convert their children one after the other *)

Section Labels.
Context {ir : Type} (builder : Builder ir).
Implicit Types (s : state ir) (v node : value ir).

Lemma switch_ArrayExpression conv fuel node :
  convert_switch builder conv fuel (VStr "ArrayExpression") node
  = convert_ArrayExpression builder conv node.
Proof. reflexivity. Qed.

Lemma switch_AssignmentExpression conv fuel node :
  convert_switch builder conv fuel (VStr "AssignmentExpression") node
  = convert_AssignmentExpression builder conv node.
Proof. reflexivity. Qed.

Lemma switch_BinaryExpression conv fuel node :
  convert_switch builder conv fuel (VStr "BinaryExpression") node
  = convert_BinaryExpression builder conv node.
Proof. reflexivity. Qed.

Lemma switch_BlockStatement conv fuel node :
  convert_switch builder conv fuel (VStr "BlockStatement") node
  = convert_BlockStatement builder conv node.
Proof. reflexivity. Qed.

Lemma switch_CallExpression conv fuel node :
  convert_switch builder conv fuel (VStr "CallExpression") node
  = convert_CallExpression builder conv node.
Proof. reflexivity. Qed.

Lemma switch_ConditionalExpression conv fuel node :
  convert_switch builder conv fuel (VStr "ConditionalExpression") node
  = convert_ConditionalExpression builder conv node.
Proof. reflexivity. Qed.

Lemma switch_ExpressionStatement conv fuel node :
  convert_switch builder conv fuel (VStr "ExpressionStatement") node
  = convert_ExpressionStatement builder conv node.
Proof. reflexivity. Qed.

Lemma switch_FunctionDeclaration conv fuel node :
  convert_switch builder conv fuel (VStr "FunctionDeclaration") node
  = convert_Function builder conv node.
Proof. reflexivity. Qed.

Lemma switch_FunctionExpression conv fuel node :
  convert_switch builder conv fuel (VStr "FunctionExpression") node
  = convert_Function builder conv node.
Proof. reflexivity. Qed.

Lemma switch_TemplateLiteral conv fuel node :
  convert_switch builder conv fuel (VStr "TemplateLiteral") node
  = convert_TemplateLiteral builder conv node.
Proof. reflexivity. Qed.

Lemma switch_LogicalExpression conv fuel node :
  convert_switch builder conv fuel (VStr "LogicalExpression") node
  = convert_LogicalExpression builder conv node.
Proof. reflexivity. Qed.

Lemma switch_MemberExpression conv fuel node :
  convert_switch builder conv fuel (VStr "MemberExpression") node
  = convert_MemberExpression builder conv node.
Proof. reflexivity. Qed.

Lemma switch_NewExpression conv fuel node :
  convert_switch builder conv fuel (VStr "NewExpression") node
  = convert_NewExpression builder conv node.
Proof. reflexivity. Qed.

Lemma switch_ReturnStatement conv fuel node :
  convert_switch builder conv fuel (VStr "ReturnStatement") node
  = convert_ReturnStatement builder conv node.
Proof. reflexivity. Qed.

Lemma switch_ThisExpression conv fuel node :
  convert_switch builder conv fuel (VStr "ThisExpression") node
  = convert_ThisExpression builder node.
Proof. reflexivity. Qed.

Lemma switch_UnaryExpression conv fuel node :
  convert_switch builder conv fuel (VStr "UnaryExpression") node
  = convert_UnaryExpression builder conv node.
Proof. reflexivity. Qed.

Lemma switch_UpdateExpression conv fuel node :
  convert_switch builder conv fuel (VStr "UpdateExpression") node
  = convert_UpdateExpression builder conv node.
Proof. reflexivity. Qed.

Lemma switch_VariableDeclarator conv fuel node :
  convert_switch builder conv fuel (VStr "VariableDeclarator") node
  = convert_VariableDeclarator builder conv node.
Proof. reflexivity. Qed.

Lemma switch_VariableDeclaration conv fuel node :
  convert_switch builder conv fuel (VStr "VariableDeclaration") node
  = convert_VariableDeclaration builder conv node.
Proof. reflexivity. Qed.

Lemma switch_WhileStatement conv fuel node :
  convert_switch builder conv fuel (VStr "WhileStatement") node
  = convert_WhileStatement builder conv node.
Proof. reflexivity. Qed.

(** The call on the object [l] of kind [kind] runs the case [body] of the
    [switch]. *)
Lemma convert_case fuel s l fields kind (body : M ir (value ir)) :
  node_at s l fields kind ->
  convert_switch builder (convert builder fuel) fuel (VStr kind) (VRef l) = body ->
  convert builder (S fuel) (VRef l) s
  = option_map (return_from (VRef l)) (body (called (VRef l) s)).
Proof.
  intros Hn <-. pose proof Hn as [Hl _].
  by rewrite (convert_object builder fuel l fields s Hl), (node_type _ _ _ _ Hn).
Qed.

Lemma eventually_true : eventually (fun _ => True).
Proof. by exists 0. Qed.

End Labels.

(** The label lemmas, as one rewriting step. *)
Ltac to_case :=
  first
    [ apply switch_ArrayExpression | apply switch_AssignmentExpression
    | apply switch_BinaryExpression | apply switch_BlockStatement
    | apply switch_CallExpression | apply switch_ConditionalExpression
    | apply switch_ExpressionStatement | apply switch_FunctionDeclaration
    | apply switch_FunctionExpression | apply switch_Identifier
    | apply switch_Literal | apply switch_TemplateLiteral
    | apply switch_LogicalExpression | apply switch_MemberExpression
    | apply switch_NewExpression | apply switch_Property
    | apply switch_ReturnStatement | apply switch_ThisExpression
    | apply switch_UnaryExpression | apply switch_UpdateExpression
    | apply switch_VariableDeclarator | apply switch_VariableDeclaration
    | apply switch_ForStatement | apply switch_WhileStatement
    | apply switch_ObjectExpression | apply switch_Program
    | apply switch_IfStatement | apply switch_TaggedTemplateExpression ].

(** From the results that are not the sentinel to their truthiness. *)
Ltac truths :=
  repeat match goal with
  | R : is_result _ ?c, N : ?c <> VNull |- _ =>
      let T := fresh "T" in
      let U := fresh "U" in
      destruct (result_not_null _ _ R N) as [T U]; clear R
  end.

(** Turns [converts builder node s r] into an equation on [convert] at a
    fuel that is enough for the conversions in the context. *)
Ltac with_fuel :=
  apply eventually_converts;
  repeat match goal with
  | H : converts _ _ _ _ |- _ => apply converts_eventually in H
  end;
  let E := fresh "E" in
  pose proof eventually_true as E;
  repeat match goal with
  | H : eventually _ |- _ =>
      lazymatch H with
      | E => fail
      | _ => pose proof (eventually_and _ _ H E) as E'; clear H E; rename E' into E
      end
  end;
  eapply eventually_mono; [|exact E]; clear E;
  let fuel := fresh "fuel" in
  intros fuel E; cbv beta in E; destruct_and? E.

(** The steps of a case: a child that converts, a property that is read, a
    child whose conversion throws, a test on a result. *)
Ltac case_step :=
  first
    [ bind_by call_field
    | bind_by read_field
    | erewrite bind_throw by call_field
    | match goal with T : truthy _ = _ |- _ => rewrite T end
    | match goal with U : nullish _ = _ |- _ => rewrite U end
    | progress cbn [negb orb andb nullish truthy] ].

Ltac case_steps := repeat case_step; try reflexivity.

(** Enters the case of the node of the goal. *)
Ltac enter_case :=
  lazymatch goal with
  | Hn : node_at ?s ?l ?fields _ |- converts ?b (VRef ?l) ?s _ =>
      let Hl := fresh "Hl" in
      pose proof (proj1 Hn) as Hl;
      well_facts; truths; with_fuel;
      erewrite (convert_case b _ s l fields _ _ Hn) by to_case
  end.

(** A conversion that stops, by cases. *)
Ltac stopped r Hstop :=
  let v := fresh "v" in
  let s1 := fresh "s" in
  let e := fresh "e" in
  destruct r as [v s1|e s1]; [simpl in Hstop; subst v|clear Hstop].

(** *** Expressions with two operands *)

(** X1: an assignment, a binary and a logical expression convert their left
    operand, then their right operand.  When the conversion of the left
    operand throws or gives the sentinel, the call ends that way at once and
    the right operand is never converted; likewise for the right operand.
    When both give a result, the call returns the builder's node: for an
    assignment [builder.assignment(left, right, operator)], for the other two
    [builder.binaryExpression(left, operator, right)] and
    [builder.logicalExpression(left, operator, right)], the operator being
    the node's own. *)
Theorem operator_expression_conversion {ir} (builder : Builder ir) s l fields :
  let node := VRef l in
  let left := field fields "left" in
  let right := field fields "right" in
  let operator := field fields "operator" in
  (node_at s l fields "AssignmentExpression" ->
     two_children builder node s left right (called node s)
       (fun a b => VIR (assignment builder a b operator)))
  /\ (node_at s l fields "BinaryExpression" ->
      two_children builder node s left right (called node s)
        (fun a b => VIR (binaryExpression builder a operator b)))
  /\ (node_at s l fields "LogicalExpression" ->
      two_children builder node s left right (called node s)
        (fun a b => VIR (logicalExpression builder a operator b))).
Proof.
  intros node left right operator. subst node left right operator.
  split; [|split]; intros Hn; (split; [|intros a s1 Ha Hna; split]).
  - intros r Hr Hstop. stopped r Hstop; enter_case;
      unfold convert_AssignmentExpression; case_steps.
  - intros r Hr Hstop. stopped r Hstop; enter_case;
      unfold convert_AssignmentExpression; case_steps.
  - intros b s2 Hb Hnb. enter_case.
    unfold convert_AssignmentExpression. case_steps.
  - intros r Hr Hstop. stopped r Hstop; enter_case;
      unfold convert_BinaryExpression; case_steps.
  - intros r Hr Hstop. stopped r Hstop; enter_case;
      unfold convert_BinaryExpression; case_steps.
  - intros b s2 Hb Hnb. enter_case.
    unfold convert_BinaryExpression. case_steps.
  - intros r Hr Hstop. stopped r Hstop; enter_case;
      unfold convert_LogicalExpression; case_steps.
  - intros r Hr Hstop. stopped r Hstop; enter_case;
      unfold convert_LogicalExpression; case_steps.
  - intros b s2 Hb Hnb. enter_case.
    unfold convert_LogicalExpression. case_steps.
Qed.

(** X2: a member expression converts its object, then its property, and
    stops at the first of the two whose conversion throws or gives the
    sentinel.  When both give a result the call returns
    [builder.memberExpression(object, property, computed)], where [computed]
    is the node's own [computed], whatever it holds. *)
Theorem member_expression_conversion {ir} (builder : Builder ir) s l fields :
  node_at s l fields "MemberExpression" ->
  two_children builder (VRef l) s (field fields "object") (field fields "property")
    (called (VRef l) s)
    (fun object property =>
       VIR (memberExpression builder object property (field fields "computed"))).
Proof.
  intros Hn. split; [|intros a s1 Ha Hna; split].
  - intros r Hr Hstop. stopped r Hstop; enter_case;
      unfold convert_MemberExpression; case_steps.
  - intros r Hr Hstop. stopped r Hstop; enter_case;
      unfold convert_MemberExpression; case_steps.
  - intros b s2 Hb Hnb. enter_case.
    unfold convert_MemberExpression. case_steps.
Qed.

(** X3: a call and a [new] expression convert their callee, then the array
    of their arguments, and stop at the first of the two whose conversion
    throws or gives the sentinel.  When both give a result the call returns
    [builder.functionCall(callee, args)], respectively
    [builder.newExpression(callee, args)]. *)
Theorem call_expression_conversion {ir} (builder : Builder ir) s l fields :
  let node := VRef l in
  let callee := field fields "callee" in
  let arguments := field fields "arguments" in
  (node_at s l fields "CallExpression" ->
     two_children builder node s callee arguments (called node s)
       (fun c args => VIR (functionCall builder c args)))
  /\ (node_at s l fields "NewExpression" ->
      two_children builder node s callee arguments (called node s)
        (fun c args => VIR (newExpression builder c args))).
Proof.
  intros node callee arguments. subst node callee arguments.
  split; intros Hn; (split; [|intros a s1 Ha Hna; split]).
  - intros r Hr Hstop. stopped r Hstop; enter_case;
      unfold convert_CallExpression; case_steps.
  - intros r Hr Hstop. stopped r Hstop; enter_case;
      unfold convert_CallExpression; case_steps.
  - intros b s2 Hb Hnb. enter_case.
    unfold convert_CallExpression. case_steps.
  - intros r Hr Hstop. stopped r Hstop; enter_case;
      unfold convert_NewExpression; case_steps.
  - intros r Hr Hstop. stopped r Hstop; enter_case;
      unfold convert_NewExpression; case_steps.
  - intros b s2 Hb Hnb. enter_case.
    unfold convert_NewExpression. case_steps.
Qed.

(** X4: a conditional expression converts its test, its consequent and its
    alternate, in this order, and stops at the first whose conversion throws
    or gives the sentinel: what comes after it is never converted.  When the
    three give a result the call returns
    [builder.conditionalExpression(test, consequent, alternate)]. *)
Theorem conditional_expression_conversion {ir} (builder : Builder ir) s l fields :
  node_at s l fields "ConditionalExpression" ->
  three_children builder (VRef l) s
    (field fields "test") (field fields "consequent") (field fields "alternate")
    (called (VRef l) s)
    (fun test consequent alternate =>
       VIR (conditionalExpression builder test consequent alternate)).
Proof.
  intros Hn.
  split; [|intros t s1 Ht Hnt; split; [|intros c s2 Hc Hnc; split]].
  - intros r Hr Hstop. stopped r Hstop; enter_case;
      unfold convert_ConditionalExpression; case_steps.
  - intros r Hr Hstop. stopped r Hstop; enter_case;
      unfold convert_ConditionalExpression; case_steps.
  - intros r Hr Hstop. stopped r Hstop; enter_case;
      unfold convert_ConditionalExpression; case_steps.
  - intros a s3 Ha Hna. enter_case.
    unfold convert_ConditionalExpression. case_steps.
Qed.

(** *** Expressions and declarations with one child *)

(** X5: an array literal, an object literal and a variable declaration
    convert one child, the array of their elements, properties or
    declarators, and end as that conversion does when it throws or gives the
    sentinel.  Otherwise they return [builder.arrayExpression(elements)],
    [builder.objectExpression(properties)] and
    [builder.vars(declarations, kind)], where [kind] is the node's own. *)
Theorem list_expression_conversion {ir} (builder : Builder ir) s l fields :
  let node := VRef l in
  (node_at s l fields "ArrayExpression" ->
     one_child builder node s (field fields "elements") (called node s)
       (fun elements => VIR (arrayExpression builder elements)))
  /\ (node_at s l fields "ObjectExpression" ->
      one_child builder node s (field fields "properties") (called node s)
        (fun properties => VIR (objectExpression builder properties)))
  /\ (node_at s l fields "VariableDeclaration" ->
      one_child builder node s (field fields "declarations") (called node s)
        (fun declarations => VIR (vars builder declarations (field fields "kind")))).
Proof.
  intros node. subst node. split; [|split]; intros Hn; split.
  - intros r Hr Hstop. stopped r Hstop; enter_case;
      unfold convert_ArrayExpression; case_steps.
  - intros c s1 Hc Hnc. enter_case. unfold convert_ArrayExpression. case_steps.
  - intros r Hr Hstop. stopped r Hstop; enter_case;
      unfold convert_ObjectExpression; case_steps.
  - intros c s1 Hc Hnc. enter_case. unfold convert_ObjectExpression. case_steps.
  - intros r Hr Hstop. stopped r Hstop; enter_case;
      unfold convert_VariableDeclaration; case_steps.
  - intros c s1 Hc Hnc. enter_case. unfold convert_VariableDeclaration. case_steps.
Qed.

(** X6: a unary and an update expression convert their argument and end as
    that conversion does when it throws or gives the sentinel.  Otherwise
    they return [builder.unaryExpression(argument, operator, prefix)] and
    [builder.updateExpression(argument, operator, prefix)], with the
    operator and the [prefix] of the node. *)
Theorem unary_expression_conversion {ir} (builder : Builder ir) s l fields :
  let node := VRef l in
  let operator := field fields "operator" in
  let prefix := field fields "prefix" in
  (node_at s l fields "UnaryExpression" ->
     one_child builder node s (field fields "argument") (called node s)
       (fun argument => VIR (unaryExpression builder argument operator prefix)))
  /\ (node_at s l fields "UpdateExpression" ->
      one_child builder node s (field fields "argument") (called node s)
        (fun argument => VIR (updateExpression builder argument operator prefix))).
Proof.
  intros node operator prefix. subst node operator prefix.
  split; intros Hn; split.
  - intros r Hr Hstop. stopped r Hstop; enter_case;
      unfold convert_UnaryExpression; case_steps.
  - intros c s1 Hc Hnc. enter_case. unfold convert_UnaryExpression. case_steps.
  - intros r Hr Hstop. stopped r Hstop; enter_case;
      unfold convert_UpdateExpression; case_steps.
  - intros c s1 Hc Hnc. enter_case. unfold convert_UpdateExpression. case_steps.
Qed.

(** *** Statements that pass a conversion on *)

Section ArrayResult.
Context {ir : Type} (builder : Builder ir).
Implicit Types (s : state ir) (v node : value ir).

(** The array loop returns the sentinel or the array it was given. *)
Lemma elements_result conv nodes n : forall i s,
  post (convert_elements builder conv n nodes i) s
    (fun v _ => v = VNull \/ v = VRef nodes) (fun _ => True).
Proof.
  induction n as [|n IH]; intros i s; simpl.
  - apply post_ret. by right.
  - apply post_bind_any. intros x s1. apply post_bind_any. intros c s2.
    destruct (nullish c); [apply post_ret; by left|].
    apply post_bind_any. intros [] s3. apply IH.
Qed.

Lemma array_result nodes elements props s v s' :
  heap s !! nodes = Some (Arr elements props) ->
  converts builder (VRef nodes) s (Ok v s') ->
  v = VNull \/ v = VRef nodes.
Proof.
  intros Ha [fuel Hc]. destruct fuel as [|fuel]; [discriminate|].
  rewrite (convert_array_eq builder fuel nodes elements props s Ha) in Hc.
  pose proof (elements_result (convert builder fuel) nodes (length elements) 0
                (called (VRef nodes) s)) as P.
  unfold post in P.
  destruct (convert_elements builder (convert builder fuel) (length elements) nodes 0
              (called (VRef nodes) s)) as [[c s1|e s1]|]; try discriminate.
  simpl in Hc. injection Hc as <- _. exact P.
Qed.

(** A call on an object, from its result back to the result of its case. *)
Lemma convert_case_inv fuel s l fields kind (body : M ir (value ir)) r :
  node_at s l fields kind ->
  convert_switch builder (convert builder fuel) fuel (VStr kind) (VRef l) = body ->
  convert builder (S fuel) (VRef l) s = Some r ->
  exists r', body (called (VRef l) s) = Some r' /\ r = return_from (VRef l) r'.
Proof.
  intros Hn Hb Hc. rewrite (convert_case builder fuel s l fields kind body Hn Hb) in Hc.
  destruct (body (called (VRef l) s)) as [r'|]; [|discriminate].
  exists r'. split; [reflexivity|]. simpl in Hc. congruence.
Qed.

End ArrayResult.

(** X7: an expression statement and a block statement convert one child,
    the expression or the array of the body, and end exactly as that
    conversion does: with its exception, with the sentinel, or with its
    result, which they return as it is.  So a block whose body is an array
    does not convert to an IR node: it converts to the sentinel or to that
    very array. *)
Theorem statement_passes_conversion_on {ir} (builder : Builder ir) s l fields :
  let node := VRef l in
  (node_at s l fields "ExpressionStatement" ->
     forall r,
       converts builder (field fields "expression") (called node s) r ->
       converts builder node s (return_from node r))
  /\ (node_at s l fields "BlockStatement" ->
      forall r,
        converts builder (field fields "body") (called node s) r ->
        converts builder node s (return_from node r))
  /\ (node_at s l fields "BlockStatement" ->
      forall body elements props v s',
        field fields "body" = VRef body ->
        heap s !! body = Some (Arr elements props) ->
        converts builder node s (Ok v s') ->
        v = VNull \/ v = VRef body).
Proof.
  intros node. subst node. split; [|split]; intros Hn.
  - intros r Hr. destruct r as [c s1|e s1]; enter_case;
      unfold convert_ExpressionStatement;
      rewrite convert_field_object with (fields := fields) by obj;
      by match goal with H : _ = Some _ |- _ => rewrite H end.
  - intros r Hr. destruct r as [c s1|e s1].
    + pose proof (converts_well _ _ _ _ Hr) as (_ & Rc & _).
      destruct (null_or_truthy _ _ Rc) as [->|[Hnc Htc]];
        enter_case; unfold convert_BlockStatement; case_steps.
    + enter_case. unfold convert_BlockStatement. case_steps.
  - intros body elements props v s' Hb Ha [fuel Hc].
    destruct fuel as [|fuel]; [discriminate|].
    eapply convert_case_inv in Hc as (r' & Hr' & Hv); [|exact Hn|apply switch_BlockStatement].
    unfold convert_BlockStatement, bind in Hr'.
    rewrite convert_field_object with (fields := fields) in Hr' by apply Hn.
    rewrite Hb in Hr'.
    destruct (convert builder fuel (VRef body) (called (VRef l) s))
      as [[c s1|e s1]|] eqn:Ec; try discriminate.
    + assert (c = VNull \/ c = VRef body) as Hres
        by (apply (array_result builder body elements props (called (VRef l) s) c s1 Ha);
            by exists fuel).
      destruct Hres as [-> | ->]; simpl in Hr'; injection Hr' as <-;
        simpl in Hv; injection Hv as -> _; auto.
    + injection Hr' as <-. discriminate.
Qed.

(** *** Functions, return statements and declarators: the optional child *)

(** X8: a function declaration and a function expression are converted the
    same way.  Without an [id] (an anonymous function) the name is [null]
    and nothing is converted for it; with an [id] the name is its
    conversion.  Then come the array of the parameters and the body, in this
    order.  The call stops at the first conversion that throws or gives the
    sentinel, and otherwise returns
    [builder.functionDeclaration(name, params, body)]. *)
Theorem function_conversion {ir} (builder : Builder ir) s l fields :
  node_at s l fields "FunctionDeclaration" \/ node_at s l fields "FunctionExpression" ->
  let node := VRef l in
  let make name params body := VIR (functionDeclaration builder name params body) in
  (truthy (field fields "id") = false ->
     two_children builder node s (field fields "params") (field fields "body")
       (called node s) (make VNull))
  /\ (truthy (field fields "id") = true ->
      three_children builder node s
        (field fields "id") (field fields "params") (field fields "body")
        (called node s) make).
Proof.
  intros Hkind node make. subst node make.
  split; intros Hid.
  - split; [|intros p s1 Hp Hnp; split].
    + intros r Hr Hstop. stopped r Hstop; destruct Hkind as [Hn|Hn]; enter_case;
        unfold convert_Function, convert_Function_rest; case_steps.
    + intros r Hr Hstop. stopped r Hstop; destruct Hkind as [Hn|Hn]; enter_case;
        unfold convert_Function, convert_Function_rest; case_steps.
    + intros b s2 Hb Hnb. destruct Hkind as [Hn|Hn]; enter_case;
        unfold convert_Function, convert_Function_rest; case_steps.
  - split; [|intros n s0 Hname Hnn; split; [|intros p s1 Hp Hnp; split]].
    + intros r Hr Hstop. stopped r Hstop; destruct Hkind as [Hn|Hn]; enter_case;
        unfold convert_Function, convert_Function_rest; case_steps.
    + intros r Hr Hstop. stopped r Hstop; destruct Hkind as [Hn|Hn]; enter_case;
        unfold convert_Function, convert_Function_rest; case_steps.
    + intros r Hr Hstop. stopped r Hstop; destruct Hkind as [Hn|Hn]; enter_case;
        unfold convert_Function, convert_Function_rest; case_steps.
    + intros b s2 Hb Hnb. destruct Hkind as [Hn|Hn]; enter_case;
        unfold convert_Function, convert_Function_rest; case_steps.
Qed.

(** X9: a return statement without an argument ([null] or [undefined])
    converts nothing and returns [builder.returnStatement(argument)] with
    that absent argument.  With an argument, it converts it, ends as that
    conversion does when it throws or gives the sentinel, and otherwise
    returns [builder.returnStatement] of the result. *)
Theorem return_statement_conversion {ir} (builder : Builder ir) s l fields :
  node_at s l fields "ReturnStatement" ->
  let node := VRef l in
  let argument := field fields "argument" in
  (nullish argument = true ->
     converts builder node s
       (return_from node (Ok (VIR (returnStatement builder argument)) (called node s))))
  /\ (nullish argument = false ->
      one_child builder node s argument (called node s)
        (fun a => VIR (returnStatement builder a))).
Proof.
  intros Hn node argument. subst node argument. split; intros Harg.
  - enter_case. unfold convert_ReturnStatement. case_steps.
  - split.
    + intros r Hr Hstop. stopped r Hstop; enter_case;
        unfold convert_ReturnStatement; case_steps.
    + intros a s1 Ha Hna. enter_case. unfold convert_ReturnStatement. case_steps.
Qed.

(** X10: a variable declarator converts its [id] first.  Without an
    initialiser (a falsy [init]) it then returns
    [builder.variableDeclarator(id, undefined)]: the second argument is
    [undefined], whatever [init] held.  With an initialiser it converts it
    and returns [builder.variableDeclarator(id, init)].  It stops at the
    first conversion that throws or gives the sentinel. *)
Theorem variable_declarator_conversion {ir} (builder : Builder ir) s l fields :
  node_at s l fields "VariableDeclarator" ->
  let node := VRef l in
  (truthy (field fields "init") = false ->
     one_child builder node s (field fields "id") (called node s)
       (fun id => VIR (variableDeclarator builder id VUndefined)))
  /\ (truthy (field fields "init") = true ->
      two_children builder node s (field fields "id") (field fields "init")
        (called node s)
        (fun id init => VIR (variableDeclarator builder id init))).
Proof.
  intros Hn node. subst node. split; intros Hinit.
  - split.
    + intros r Hr Hstop. stopped r Hstop; enter_case;
        unfold convert_VariableDeclarator; case_steps.
    + intros i s1 Hi Hni. enter_case. unfold convert_VariableDeclarator. case_steps.
  - split; [|intros i s1 Hi Hni; split].
    + intros r Hr Hstop. stopped r Hstop; enter_case;
        unfold convert_VariableDeclarator; case_steps.
    + intros r Hr Hstop. stopped r Hstop; enter_case;
        unfold convert_VariableDeclarator; case_steps.
    + intros v s2 Hv Hnv. enter_case. unfold convert_VariableDeclarator. case_steps.
Qed.

(** *** Loops: every child is converted before any result is looked at *)

(** X11: a while statement converts its test and then its body, whatever
    the test gave: a rejected test does not stop the body from being
    converted, and when the conversion of the body throws the call throws.
    When both conversions return, the call returns the sentinel if one of
    them gave it, and [builder.whileStatement(test, body)] otherwise. *)
Theorem while_statement_conversion {ir} (builder : Builder ir) s l fields :
  node_at s l fields "WhileStatement" ->
  let node := VRef l in
  let test := field fields "test" in
  let body := field fields "body" in
  (forall e s1,
      converts builder test (called node s) (Throw e s1) ->
      converts builder node s (Throw e s1))
  /\ (forall t s1 e s2,
      converts builder test (called node s) (Ok t s1) ->
      converts builder body s1 (Throw e s2) ->
      converts builder node s (Throw e s2))
  /\ (forall t s1 b s2,
      converts builder test (called node s) (Ok t s1) ->
      converts builder body s1 (Ok b s2) ->
      (t = VNull \/ b = VNull ->
         converts builder node s (Ok VNull (returned node VNull s2)))
      /\ (t <> VNull -> b <> VNull ->
          converts builder node s
            (Ok (VIR (whileStatement builder t b))
                (returned node (VIR (whileStatement builder t b)) s2)))).
Proof.
  intros Hn node test body. subst node test body.
  split; [|split].
  - intros e s1 Ht. enter_case. unfold convert_WhileStatement. case_steps.
  - intros t s1 e s2 Ht Hb. enter_case. unfold convert_WhileStatement. case_steps.
  - intros t s1 b s2 Ht Hb. split.
    + intros Hnull. enter_case. unfold convert_WhileStatement. case_steps.
      assert (negb (truthy t) || negb (truthy b) = true) as ->; [|reflexivity].
      destruct Hnull as [-> | ->]; [reflexivity|apply orb_true_r].
    + intros Hnt Hnb. enter_case. unfold convert_WhileStatement. case_steps.
Qed.

(** X12: a for statement converts its [init], [test], [update] and [body],
    in this order and all four, whatever the earlier ones gave.  When the
    four conversions return, the call returns the sentinel if one of them
    gave it, and [builder.forStatement(init, test, update, body)]
    otherwise.  When one of them throws, the earlier ones having returned
    (the sentinel or not), the call throws. *)
Theorem for_statement_conversion {ir} (builder : Builder ir) s l fields :
  node_at s l fields "ForStatement" ->
  let node := VRef l in
  let init := field fields "init" in
  let test := field fields "test" in
  let update := field fields "update" in
  let body := field fields "body" in
  (forall i s1 t s2 u s3 b s4,
      converts builder init (called node s) (Ok i s1) ->
      converts builder test s1 (Ok t s2) ->
      converts builder update s2 (Ok u s3) ->
      converts builder body s3 (Ok b s4) ->
      (i = VNull \/ t = VNull \/ u = VNull \/ b = VNull ->
         converts builder node s (Ok VNull (returned node VNull s4)))
      /\ (i <> VNull -> t <> VNull -> u <> VNull -> b <> VNull ->
          converts builder node s
            (Ok (VIR (forStatement builder i t u b))
                (returned node (VIR (forStatement builder i t u b)) s4))))
  /\ (forall e s1,
      converts builder init (called node s) (Throw e s1) ->
      converts builder node s (Throw e s1))
  /\ (forall i s1 e s2,
      converts builder init (called node s) (Ok i s1) ->
      converts builder test s1 (Throw e s2) ->
      converts builder node s (Throw e s2))
  /\ (forall i s1 t s2 e s3,
      converts builder init (called node s) (Ok i s1) ->
      converts builder test s1 (Ok t s2) ->
      converts builder update s2 (Throw e s3) ->
      converts builder node s (Throw e s3))
  /\ (forall i s1 t s2 u s3 e s4,
      converts builder init (called node s) (Ok i s1) ->
      converts builder test s1 (Ok t s2) ->
      converts builder update s2 (Ok u s3) ->
      converts builder body s3 (Throw e s4) ->
      converts builder node s (Throw e s4)).
Proof.
  intros Hn node init test update body. subst node init test update body.
  split; [|split; [|split; [|split]]].
  - intros i s1 t s2 u s3 b s4 Hi Ht Hu Hb. split.
    + intros Hnull. enter_case. unfold convert_ForStatement. case_steps.
      assert (negb (truthy i) || negb (truthy t) || negb (truthy u) || negb (truthy b)
              = true) as ->; [|reflexivity].
      destruct Hnull as [-> |[-> |[-> | ->]]]; simpl;
        rewrite ?orb_true_r; reflexivity.
    + intros Hni Hnt Hnu Hnb. enter_case. unfold convert_ForStatement. case_steps.
  - intros e s1 Hi. enter_case. unfold convert_ForStatement. case_steps.
  - intros i s1 e s2 Hi Ht. enter_case. unfold convert_ForStatement. case_steps.
  - intros i s1 t s2 e s3 Hi Ht Hu. enter_case. unfold convert_ForStatement. case_steps.
  - intros i s1 t s2 u s3 e s4 Hi Ht Hu Hb. enter_case.
    unfold convert_ForStatement. case_steps.
Qed.

(** *** Properties *)

(** X13: a property converts its key first and ends as that conversion
    does when it throws or gives the sentinel.  For a property that is no
    getter and no setter, the key of the IR node is what lines 236-240 make
    of the converted key, and the value is converted next: the call ends as
    that conversion does when it throws or gives the sentinel, and returns
    [builder.property(key, value, computed)] otherwise, where [computed] is
    the boolean [node.computed === true].  A computed property keeps its
    converted key as it is. *)
Theorem property_conversion {ir} (builder : Builder ir) s l fields :
  node_at s l fields "Property" ->
  let node := VRef l in
  let computed := is_true (field fields "computed") in
  let plain :=
    is_str (field fields "kind") "get" = false
    /\ is_str (field fields "kind") "set" = false in
  (forall r,
      converts builder (field fields "key") (called node s) r -> stops r ->
      converts builder node s (return_from node r))
  /\ (forall k s1 key,
      converts builder (field fields "key") (called node s) (Ok k s1) ->
      k <> VNull -> plain ->
      property_key builder computed k s1 = Some (Ok key s1) ->
      one_child builder node s (field fields "value") s1
        (fun value => VIR (property builder key value (VBool computed))))
  /\ (forall k s1,
      converts builder (field fields "key") (called node s) (Ok k s1) ->
      k <> VNull -> plain ->
      computed = true ->
      one_child builder node s (field fields "value") s1
        (fun value => VIR (property builder k value (VBool true)))).
Proof.
  intros Hn node computed plain. subst node plain.
  assert (forall k s1 key,
            converts builder (field fields "key") (called (VRef l) s) (Ok k s1) ->
            k <> VNull ->
            is_str (field fields "kind") "get" = false
            /\ is_str (field fields "kind") "set" = false ->
            property_key builder computed k s1 = Some (Ok key s1) ->
            one_child builder (VRef l) s (field fields "value") s1
              (fun value => VIR (property builder key value (VBool computed))))
    as Hgeneral.
  { intros k s1 key Hk Hnk [Hget Hset] Hkey. subst computed. split.
    - intros r Hr Hstop. stopped r Hstop; enter_case;
        unfold convert_Property; case_steps;
        rewrite Hget, Hset; cbn [orb];
        (bind_by eassumption); case_steps.
    - intros v s2 Hv Hnv. enter_case. unfold convert_Property. case_steps.
      rewrite Hget, Hset. cbn [orb]. bind_by eassumption. case_steps. }
  split; [|split].
  - intros r Hr Hstop. stopped r Hstop; enter_case;
      unfold convert_Property; case_steps.
  - exact Hgeneral.
  - intros k s1 Hk Hnk Hplain Hcomputed.
    pose proof (Hgeneral k s1 k Hk Hnk Hplain) as H.
    rewrite Hcomputed in H. apply H. reflexivity.
Qed.

(** *** Template literals *)

Section Quasis.
Context {ir : Type} (builder : Builder ir).
Implicit Types (s : state ir) (v node : value ir).

Lemma quasis_cooked s elements cooked :
  Forall2 (cooked_of builder s) elements cooked ->
  map_values (fun q => let* v := get builder q "value" in get builder v "cooked")
    elements s
  = Some (Ok cooked s).
Proof.
  induction 1 as [|q c elements cooked (v & Hv & Hc) _ IH]; [reflexivity|].
  simpl.
  erewrite bind_ok; cycle 1.
  { erewrite bind_ok; [|apply get_ok; exact Hv]. apply get_ok. exact Hc. }
  by rewrite (bind_ok _ _ _ _ _ IH).
Qed.

Lemma quasis_read s quasis elements props cooked :
  heap s !! quasis = Some (Arr elements props) ->
  Forall2 (cooked_of builder s) elements cooked ->
  array_map (VRef quasis)
    (fun q => let* v := get builder q "value" in get builder v "cooked") s
  = Some (Ok cooked s).
Proof.
  intros Ha Hc. unfold array_map.
  erewrite bind_ok; [by apply quasis_cooked|].
  unfold reads_or_throws, elements_of. by rewrite Ha.
Qed.

End Quasis.

(** X14: a template literal first takes the cooked string of each of its
    [quasis], in order ([q.value.cooked]), as the store has them when the
    call is made, and then converts the array of its expressions.  It ends
    as that conversion does when it throws or gives the sentinel, and
    returns [builder.templateLiteral(quasis, expressions)] otherwise, with
    the list of the cooked strings.  When [quasis] is no array, the call
    throws before it converts anything. *)
Theorem template_literal_conversion {ir} (builder : Builder ir) s l fields :
  node_at s l fields "TemplateLiteral" ->
  let node := VRef l in
  (forall quasis elements props cooked,
      field fields "quasis" = VRef quasis ->
      heap s !! quasis = Some (Arr elements props) ->
      Forall2 (cooked_of builder s) elements cooked ->
      one_child builder node s (field fields "expressions") (called node s)
        (fun expressions => VIR (templateLiteral builder cooked expressions)))
  /\ (elements_of s (field fields "quasis") = None ->
      converts builder node s (Throw TypeError (called node s))).
Proof.
  intros Hn node. subst node. split.
  - intros quasis elements props cooked Hq Ha Hcooked.
    assert (forall s0, heap s0 = heap s ->
              array_map (field fields "quasis")
                (fun q => let* v := get builder q "value" in get builder v "cooked") s0
              = Some (Ok cooked s0)) as Hread.
    { intros s0 Hs0. rewrite Hq.
      apply (quasis_read builder s0 quasis elements props); [by rewrite Hs0|].
      eapply Forall2_impl; [exact Hcooked|].
      intros q c (v & Hv & Hc). exists v. unfold get_prop in *.
      rewrite Hs0. auto. }
    split.
    + intros r Hr Hstop. stopped r Hstop; enter_case;
        unfold convert_TemplateLiteral; case_steps;
        (rewrite (bind_ok _ _ _ _ _ (Hread (called (VRef l) s) eq_refl))); case_steps.
    + intros c s1 Hc Hnc. enter_case. unfold convert_TemplateLiteral. case_steps.
      rewrite (bind_ok _ _ _ _ _ (Hread (called (VRef l) s) eq_refl)). case_steps.
  - intros Hq. enter_case. unfold convert_TemplateLiteral. case_steps.
    erewrite bind_throw; [reflexivity|].
    unfold array_map. erewrite bind_throw; [reflexivity|].
    unfold reads_or_throws. change (elements_of (called (VRef l) s))
      with (elements_of s). by rewrite Hq.
Qed.

(** *** Leaves *)

(** X15: an identifier, [this] and a literal are never rejected and make
    [convert] convert nothing else.  An identifier gives
    [builder.identifier(name)], [this] gives [builder.thisExpression()], a
    literal without [regex] gives [builder.literal(value)] whatever the
    value ([null], [0], [false] and the empty string included): the call
    returns in the state it was made in.  A literal with a [regex] ends as
    [new RegExp(regex.pattern, regex.flags)] does: when the constructor
    throws (a [SyntaxError], on a pattern or flags that are not valid) the
    call throws that exception, and when it returns a regular expression the
    call returns [builder.literal] of it. *)
Theorem leaf_conversion {ir} (builder : Builder ir) s l fields :
  let node := VRef l in
  let returns v := converts builder node s (Ok v (returned node v (called node s))) in
  (node_at s l fields "Identifier" ->
     returns (VIR (identifier builder (field fields "name"))))
  /\ (node_at s l fields "ThisExpression" ->
      returns (VIR (thisExpression builder)))
  /\ (node_at s l fields "Literal" ->
      truthy (field fields "regex") = false ->
      returns (VIR (literal builder (field fields "value"))))
  /\ (node_at s l fields "Literal" ->
      forall pattern flags,
        truthy (field fields "regex") = true ->
        get_prop builder s (field fields "regex") "pattern" = Some pattern ->
        get_prop builder s (field fields "regex") "flags" = Some flags ->
        match newRegExp builder (heap s) pattern flags with
        | inl e => converts builder node s (Throw e (called node s))
        | inr (source, flags') =>
            returns (VIR (literal builder (VRegExp source flags')))
        end).
Proof.
  intros node returns. subst node returns. cbv beta.
  split; [|split; [|split]]; intros Hn.
  - enter_case. unfold convert_Identifier. case_steps.
  - enter_case. unfold convert_ThisExpression. case_steps.
  - intros Hre. enter_case. unfold convert_Literal. case_steps.
  - intros pattern flags Hre Hp Hf.
    destruct (newRegExp builder (heap s) pattern flags) as [e|[source flags']] eqn:Hnew.
    + enter_case. unfold convert_Literal. case_steps.
      erewrite bind_throw; [reflexivity|].
      erewrite bind_ok; [|apply get_ok; exact Hp].
      erewrite bind_ok; [|apply get_ok; exact Hf].
      unfold new_RegExp. cbn [heap called logged]. by rewrite Hnew.
    + enter_case. unfold convert_Literal. case_steps.
      erewrite bind_ok; [reflexivity|].
      erewrite bind_ok; [|apply get_ok; exact Hp].
      erewrite bind_ok; [|apply get_ok; exact Hf].
      unfold new_RegExp. cbn [heap called logged]. by rewrite Hnew.
Qed.

(** *** A program without a body *)

(** X16: a program whose [body] is absent ([null] or [undefined]) is not
    rejected and gives no empty container: the call throws a [TypeError],
    the one of iterating over the absent body, before converting
    anything. *)
Theorem program_body_absent_throws {ir} (builder : Builder ir) s l fields :
  node_at s l fields "Program" ->
  nullish (field fields "body") = true ->
  converts builder (VRef l) s (Throw TypeError (called (VRef l) s)).
Proof.
  intros Hn Hbody. enter_case. unfold convert_Program. case_steps.
  destruct (field fields "body"); try discriminate Hbody; reflexivity.
Qed.

(** ** Every call *)

Section EveryCall.
Context {ir : Type} (builder : Builder ir).
Implicit Types (s : state ir) (v node : value ir).

(** An array of the final store was an array of the initial one. *)
Lemma preserved_array_inv s s' l :
  preserved s s' -> isArray s' (VRef l) = true ->
  exists elements props, heap s !! l = Some (Arr elements props).
Proof.
  intros [H _] Ha. specialize (H l). unfold isArray in Ha.
  destruct (heap s !! l) as [[fields|elements props]|].
  - by rewrite H in Ha.
  - eauto.
  - by rewrite H in Ha.
Qed.

(** A value without properties has no [type]: the call runs the [default]
    label. *)
Lemma convert_untyped fuel v s :
  as_array (called v s) v = None ->
  get_prop builder (called v s) v "type" = Some VUndefined ->
  convert builder (S fuel) v s = Some (Ok VNull (returned v VNull (called v s))).
Proof.
  intros Ha Ht. simpl. rewrite convert_call_eq, Ha.
  by rewrite (bind_ok _ _ _ _ _ (get_ok builder _ _ _ _ Ht)).
Qed.

(** The array loop stops with the conversion that stops. *)
Lemma array_stops s nodes elements props frame cs s1 x r :
  heap s !! nodes = Some (Arr elements props) ->
  converted_in_order builder (VRef nodes) (store_result nodes) frame 0
    (called (VRef nodes) s) cs s1 ->
  length cs < length elements ->
  get_elem builder s1 (VRef nodes) (length cs) = Some x ->
  converts builder x s1 r -> stops r ->
  converts builder (VRef nodes) s (return_from (VRef nodes) r).
Proof.
  intros Ha Hcs Hlen Hx Hc Hstop. apply eventually_converts.
  apply elements_in_order in Hcs. apply converts_eventually in Hc.
  eapply eventually_mono; [|exact (eventually_and _ _ Hcs Hc)].
  intros fuel [El Ec].
  rewrite (convert_array_eq builder fuel nodes elements props s Ha).
  replace (length elements) with (length cs + S (length elements - length cs - 1)) by lia.
  rewrite El. simpl.
  bind_by read_field.
  destruct r as [v s2|e s2]; [simpl in Hstop; subst v|].
  - bind_by eassumption. reflexivity.
  - erewrite bind_throw by eassumption. reflexivity.
Qed.

End EveryCall.

(** X17: whenever a call of [convert] returns, what it returns is the
    sentinel [null], an IR node, or an array, and then one that was in the
    store when the call was made: never [undefined], a boolean, a number or
    a string.  So the two tests the code applies to a result, [!x] and
    [x == null], agree on every result. *)
Theorem convert_result_shape {ir} (builder : Builder ir) node s v s' :
  converts builder node s (Ok v s') ->
  (v = VNull
   \/ (exists x, v = VIR x)
   \/ (exists l elements props, v = VRef l /\ heap s !! l = Some (Arr elements props)))
  /\ truthy v = negb (nullish v).
Proof.
  intros Hc. pose proof (converts_well _ _ _ _ Hc) as (Hp & Hr & _).
  split.
  - destruct v; simpl in Hr; try contradiction; eauto.
    right. right. destruct (preserved_array_inv s s' l Hp Hr) as (elements & props & Hl).
    eauto.
  - rewrite (is_result_nullish _ _ Hr). by destruct (truthy v).
Qed.

(** X18: [convert] given [null] or [undefined] throws a [TypeError], that of
    reading the [type] of nothing; given a boolean, a number, a string or a
    regular expression object, none of which has a [type], it returns the
    sentinel.  In both cases nothing else happens. *)
Theorem convert_without_node {ir} (builder : Builder ir) v s :
  (nullish v = true ->
     converts builder v s (Throw TypeError (called v s)))
  /\ (match v with
      | VBool _ | VNum _ | VStr _ | VRegExp _ _ => True
      | _ => False
      end ->
      converts builder v s (Ok VNull (returned v VNull (called v s)))).
Proof.
  split.
  - apply converts_nullish.
  - intros Hv. exists 1. apply convert_untyped.
    + by destruct v.
    + destruct v; try contradiction; try reflexivity.
Qed.

(** X19: a conversion of an array that fails leaves the array half
    converted.  When the elements before one are converted (none of these
    conversions writing to the array) and the conversion of that one throws
    or gives the sentinel, the call on the array ends the same way, and
    (the failing conversion not writing to the array either) the array is
    left holding the results in place of the elements converted, followed by
    the elements from the failing one on.  In particular an array with a
    hole ([null] or [undefined]) after elements that convert makes the call
    throw a [TypeError]. *)
Theorem array_failure_keeps_results {ir} (builder : Builder ir)
    s nodes elements props cs s1 x :
  heap s !! nodes = Some (Arr elements props) ->
  converted_in_order builder (VRef nodes) (store_result nodes) (untouched nodes) 0
    (called (VRef nodes) s) cs s1 ->
  elements !! length cs = Some x ->
  (forall r,
      converts builder x s1 r -> stops r ->
      converts builder (VRef nodes) s (return_from (VRef nodes) r)
      /\ (untouched nodes s1 (final r) ->
          heap (final (return_from (VRef nodes) r)) !! nodes
          = Some (Arr (cs ++ drop (length cs) elements) props)))
  /\ (nullish x = true ->
      converts builder (VRef nodes) s (Throw TypeError (called x s1))).
Proof.
  intros Ha Hcs Hx.
  assert (length cs < length elements) as Hlen by (by eapply lookup_lt_Some).
  assert (heap s1 !! nodes = Some (Arr (cs ++ drop (length cs) elements) props)) as Hs1.
  { rewrite (elements_stored builder nodes 0 _ cs s1 Hcs elements props Ha)
      by (simpl; lia). reflexivity. }
  assert (get_elem builder s1 (VRef nodes) (length cs) = Some x) as Hget.
  { unfold get_elem. rewrite Hs1. f_equal.
    rewrite lookup_app_r by lia. rewrite Nat.sub_diag, lookup_drop, Nat.add_0_r.
    by rewrite Hx. }
  assert (forall r,
            converts builder x s1 r -> stops r ->
            converts builder (VRef nodes) s (return_from (VRef nodes) r)) as Hstops.
  { intros r Hr Hstop. eapply array_stops; eauto. }
  split.
  - intros r Hr Hstop. split; [by apply Hstops|].
    intros Hu. unfold untouched in Hu.
    destruct r as [v s2|e s2]; simpl in *; by rewrite Hu.
  - intros Hnull.
    exact (Hstops _ (converts_nullish builder x s1 Hnull) I).
Qed.

(** ** Termination on trees *)

Section Total.
Context {ir : Type}.
Implicit Types (s : state ir) (v : value ir).

Lemma total_ret {A} (a : A) s (Q : A -> state ir -> Prop) E :
  Q a s -> total (ret a) s Q E.
Proof. intros H. exact H. Qed.

Lemma total_bind {A B} (m : M ir A) (k : A -> M ir B) s Q E :
  total m s (fun a s' => total (k a) s' Q E) E -> total (bind m k) s Q E.
Proof.
  unfold total, bind. destruct (m s) as [[a s'|e s']|]; auto.
Qed.

Lemma total_mono {A} (m : M ir A) s (Q Q' : A -> state ir -> Prop)
    (E E' : state ir -> Prop) :
  total m s Q E ->
  (forall a s', Q a s' -> Q' a s') -> (forall s', E s' -> E' s') ->
  total m s Q' E'.
Proof.
  unfold total. destruct (m s) as [[a s'|e s']|]; auto.
Qed.

Lemma total_reads {A} (f : state ir -> A) s (Q : A -> state ir -> Prop) E :
  Q (f s) s -> total (reads f) s Q E.
Proof. intros H. exact H. Qed.

Lemma total_reads_or_throws {A} (f : state ir -> option A) s
    (Q : A -> state ir -> Prop) (E : state ir -> Prop) :
  (forall a, f s = Some a -> Q a s) -> (f s = None -> E s) ->
  total (reads_or_throws f) s Q E.
Proof.
  unfold total, reads_or_throws. intros HQ HE.
  destruct (f s) as [a|]; auto.
Qed.

Lemma total_modify (f : state ir -> state ir) s (Q : unit -> state ir -> Prop) E :
  Q tt (f s) -> total (modify f) s Q E.
Proof. intros H. exact H. Qed.

Lemma total_elim {A} (m : M ir A) s Q E :
  total m s Q E ->
  exists r, m s = Some r /\ match r with Ok a s' => Q a s' | Throw _ s' => E s' end.
Proof.
  unfold total. destruct (m s) as [[a s'|e s']|]; [eauto|eauto|contradiction].
Qed.

Lemma total_intro {A} (m : M ir A) s (Q : A -> state ir -> Prop)
    (E : state ir -> Prop) r :
  m s = Some r ->
  match r with Ok a s' => Q a s' | Throw _ s' => E s' end ->
  total m s Q E.
Proof. unfold total. by intros ->. Qed.

(** *** Stores that differ at some locations only *)

Lemma changes_only_refl (P : loc -> Prop) s : changes_only P s s.
Proof. by intros l _. Qed.

Lemma changes_only_heap (P : loc -> Prop) s s' :
  heap s' = heap s -> changes_only P s s'.
Proof. intros H l _. by rewrite H. Qed.

Lemma changes_only_trans (P : loc -> Prop) s1 s2 s3 :
  changes_only P s1 s2 -> changes_only P s2 s3 -> changes_only P s1 s3.
Proof. intros H1 H2 l Hl. by rewrite (H2 l Hl), (H1 l Hl). Qed.

Lemma changes_only_weaken (P P' : loc -> Prop) s s' :
  (forall l, P l -> P' l) -> changes_only P s s' -> changes_only P' s s'.
Proof. intros HP H l Hl. apply H. auto. Qed.

Lemma changes_only_heap_l (P : loc -> Prop) s0 s s' :
  heap s0 = heap s -> changes_only P s s' -> changes_only P s0 s'.
Proof. intros H0 H l Hl. rewrite H0. by apply H. Qed.

Lemma changes_only_stored (P : loc -> Prop) nodes i x s :
  P nodes -> changes_only P s (stored nodes i x s).
Proof.
  intros HP l Hl. unfold stored.
  destruct (heap s !! nodes) as [[fields|elements props]|]; try reflexivity.
  simpl. apply lookup_insert_ne. by intros ->.
Qed.

Lemma changes_only_assigned (P : loc -> Prop) l' name x s :
  P l' -> changes_only P s (assigned l' name x s).
Proof.
  intros HP l Hl. unfold assigned.
  destruct (heap s !! l') as [[fields|elements props]|]; try reflexivity;
    simpl; apply lookup_insert_ne; by intros ->.
Qed.

(** *** Trees *)

Lemma tree_at_agree s s' v F h :
  tree_at s v F h ->
  (forall l, l ∈ F -> heap s' !! l = heap s !! l) ->
  tree_at s' v F h.
Proof.
  induction 1 as [v h Hv|l c fp F h Hl _ IH Hd Hs HlF]; intros Hagree.
  - by apply tree_leaf.
  - apply tree_cell with (c := c) (fp := fp); auto.
    + rewrite Hagree by set_solver. exact Hl.
    + intros k. apply IH. intros l' Hl'. apply Hagree.
      specialize (Hs k). set_solver.
Qed.

Lemma tree_at_mono s v F h h' :
  tree_at s v F h -> h <= h' -> tree_at s v F h'.
Proof.
  intros H. revert h'.
  induction H as [v h Hv|l c fp F h Hl _ IH Hd Hs HlF]; intros h' Hh.
  - by apply tree_leaf.
  - destruct h' as [|h']; [lia|].
    apply tree_cell with (c := c) (fp := fp); auto. intros k. apply IH. lia.
Qed.

Lemma tree_at_leaf s v F h :
  tree_at s v F h -> is_leaf v = true -> F = ∅.
Proof. intros H Hv. by destruct H. Qed.

(** A falsy value is a leaf, and a call on a leaf converts nothing. *)
Lemma falsy_leaf v : truthy v = false -> is_leaf v = true.
Proof. by destruct v. Qed.

End Total.

Section Leaves.
Context {ir : Type} (builder : Builder ir).
Implicit Types (s : state ir) (v : value ir).

Lemma leaf_total fuel v s :
  is_leaf v = true ->
  total (convert builder (S fuel) v) s
    (fun r s' => heap s' = heap s /\ r = VNull) (fun s' => heap s' = heap s).
Proof.
  intros Hv. destruct (nullish v) eqn:Hn.
  - eapply total_intro; [by apply convert_nullish|]. reflexivity.
  - eapply total_intro.
    + apply convert_untyped; destruct v; try discriminate; reflexivity.
    + by split.
Qed.

(** [new RegExp] ends, in the state it was called in. *)
Lemma total_new_RegExp pattern flags s
    (Q : value ir -> state ir -> Prop) (E : state ir -> Prop) :
  (forall source flags', Q (VRegExp source flags') s) -> E s ->
  total (new_RegExp builder pattern flags) s Q E.
Proof.
  unfold total, new_RegExp. intros HQ HE.
  destruct (newRegExp builder (heap s) pattern flags) as [e|[source flags']]; auto.
Qed.

(** A property of a cell, read through a reference to it. *)
Lemma get_prop_slot s l c name :
  heap s !! l = Some c -> name <> "length" ->
  get_prop builder s (VRef l) name = Some (slot_of c (Field name)).
Proof.
  intros Hl Hn. unfold get_prop. rewrite Hl. destruct c as [fields|elements props].
  - reflexivity.
  - apply String.eqb_neq in Hn. by rewrite Hn.
Qed.

Lemma get_prop_leaf s v name x :
  is_leaf v = true -> get_prop builder s v name = Some x -> is_leaf x = true.
Proof.
  destruct v; try discriminate; simpl; intros _ [= <-]; try reflexivity.
  - by destruct (String.eqb name "length").
  - by repeat destruct (String.eqb name _).
Qed.

Lemma get_elem_leaf s v i x :
  is_leaf v = true -> get_elem builder s v i = Some x -> is_leaf x = true.
Proof.
  destruct v; try discriminate; simpl; intros _ [= <-]; try reflexivity.
  unfold char_at. by destruct (String.get i s0).
Qed.

End Leaves.

(** *** The case of a cell that is an object *)

Section Cells.
Context {ir : Type} (builder : Builder ir).
Variable conv : value ir -> M ir (value ir).
Variable fuel : nat.
Variable h : nat.
Implicit Types (s : state ir) (v : value ir).

(** The calls the case makes end, on the trees of height at most [h]. *)
Hypothesis conv_total : forall v F s,
  tree_at s v F h ->
  total (conv v) s (stays_in F v s) (changes_only (fun l => l ∈ F) s).

(** The cell at [l] and the trees at its places, in the state [s0]. *)
Variables (s0 : state ir) (l : loc) (c : cell ir) (fp : slot -> gset loc)
  (F : gset loc).
Hypothesis Hl : heap s0 !! l = Some c.
Hypothesis Hkids : forall k, tree_at s0 (slot_of c k) (fp k) h.
Hypothesis Hdisj : forall k k', k <> k' -> fp k ## fp k'.
Hypothesis Hsub : forall k, fp k ⊆ F.
Hypothesis HlF : l ∉ F.

Lemma cells_keep_cell D s :
  changes_only (cells_at fp D) s0 s -> heap s !! l = Some c.
Proof.
  intros H. rewrite H; [exact Hl|].
  intros (k & _ & Hk). apply HlF, (Hsub k), Hk.
Qed.

Lemma cells_keep_tree D s k :
  changes_only (cells_at fp D) s0 s -> ~ In k D ->
  tree_at s (slot_of c k) (fp k) h.
Proof using Hkids Hdisj.
  intros H Hk. apply tree_at_agree with (s := s0); [apply Hkids|].
  intros l' Hl'. apply H. intros (k' & Hin & Hk').
  assert (k <> k') as Hne by (intros ->; contradiction).
  pose proof (Hdisj k k' Hne) as Hd. clear -Hd Hl' Hk'. set_solver.
Qed.

Lemma cells_step D s k s' :
  changes_only (cells_at fp D) s0 s ->
  changes_only (fun l' => l' ∈ fp k) s s' ->
  changes_only (cells_at fp (k :: D)) s0 s'.
Proof.
  intros H1 H2 l' Hl'. rewrite H2, H1; [reflexivity| |].
  - intros (k' & Hin & Hk'). apply Hl'. exists k'. split; [by right|exact Hk'].
  - intros Hk. apply Hl'. exists k. split; [by left|exact Hk].
Qed.

Lemma cells_end D s :
  changes_only (cells_at fp D) s0 s ->
  (In (Field "alternate") D -> truthy (slot_of c (Field "consequent")) = true) ->
  changes_only (cells_of l c fp) s0 s.
Proof.
  intros H Halt. eapply changes_only_weaken; [|exact H].
  intros l' (k & Hin & Hk). right. exists k. split; [exact Hk|].
  intros ->. auto.
Qed.

Lemma result_in_cell k v : result_in (fp k) v -> result_in ({[l]} ∪ F) v.
Proof using Hsub.
  destruct v; simpl; auto. intros H. pose proof (Hsub k) as Hk.
  clear -H Hk. set_solver.
Qed.

(** A child is converted: the call on it ends, and changes the cells of its
    tree only. *)
Lemma total_child D s name (k : value ir -> M ir (value ir))
    (Q : value ir -> state ir -> Prop) (E : state ir -> Prop) :
  changes_only (cells_at fp D) s0 s ->
  ~ In (Field name) D -> name <> "length" ->
  (forall v s',
      changes_only (cells_at fp (Field name :: D)) s0 s' ->
      result_in (fp (Field name)) v ->
      (truthy v = true -> truthy (slot_of c (Field name)) = true) ->
      total (k v) s' Q E) ->
  (forall s', changes_only (cells_at fp (Field name :: D)) s0 s' -> E s') ->
  total (bind (convert_field builder conv (VRef l) name) k) s Q E.
Proof.
  intros HD Hin Hname Hk HE. apply total_bind. unfold convert_field.
  apply total_bind. unfold get. apply total_reads_or_throws.
  - intros a Ha.
    rewrite (get_prop_slot builder s l c name (cells_keep_cell D s HD) Hname) in Ha.
    injection Ha as <-.
    eapply total_mono; [apply conv_total, (cells_keep_tree D s _ HD Hin)| |].
    + intros v s' (Hs' & Hv & Ht). apply Hk; [|exact Hv|exact Ht].
      by apply (cells_step D s).
    + intros s' Hs'. apply HE. by apply (cells_step D s).
  - intros Ha.
    by rewrite (get_prop_slot builder s l c name (cells_keep_cell D s HD) Hname) in Ha.
Qed.

Lemma total_child_last D s name
    (Q : value ir -> state ir -> Prop) (E : state ir -> Prop) :
  changes_only (cells_at fp D) s0 s ->
  ~ In (Field name) D -> name <> "length" ->
  (forall v s',
      changes_only (cells_at fp (Field name :: D)) s0 s' ->
      result_in (fp (Field name)) v ->
      Q v s') ->
  (forall s', changes_only (cells_at fp (Field name :: D)) s0 s' -> E s') ->
  total (convert_field builder conv (VRef l) name) s Q E.
Proof.
  intros HD Hin Hname HQ HE. unfold convert_field.
  apply total_bind. unfold get. apply total_reads_or_throws.
  - intros a Ha.
    rewrite (get_prop_slot builder s l c name (cells_keep_cell D s HD) Hname) in Ha.
    injection Ha as <-.
    eapply total_mono; [apply conv_total, (cells_keep_tree D s _ HD Hin)| |].
    + intros v s' (Hs' & Hv & Ht). apply HQ; [|exact Hv].
      by apply (cells_step D s).
    + intros s' Hs'. apply HE. by apply (cells_step D s).
  - intros Ha.
    by rewrite (get_prop_slot builder s l c name (cells_keep_cell D s HD) Hname) in Ha.
Qed.

End Cells.

(** One step of a proof of [total m s Q E] that follows the code of [m]. *)
Ltac not_among :=
  let H := fresh in simpl; intros H; intuition discriminate.

Ltac child_premise :=
  first
    [ eassumption
    | lazymatch goal with
      | |- ~ In _ _ => not_among
      | |- _ <> _ => discriminate
      | |- forall v s', _ -> _ -> _ -> total _ _ _ _ => intros ? ? ? ? ?
      | |- forall v s', _ -> _ -> _ => intros ? ? ? ?
      | |- forall s', changes_only _ _ _ -> _ => intros ? ?
      end ].

Ltac total_step :=
  match goal with
  | |- total (bind (convert_field _ _ _ _) _) _ _ _ =>
      eapply total_child; child_premise
  | |- total (convert_field _ _ _ _) _ _ _ =>
      eapply total_child_last; child_premise
  | |- total (bind _ _) _ _ _ => apply total_bind
  | |- total (ret _) _ _ _ => apply total_ret
  | |- total (get _ _ _) _ _ _ =>
      unfold get; apply total_reads_or_throws; [intros ? ?|intros ?]
  | |- total (get_index _ _ _) _ _ _ =>
      unfold get_index; apply total_reads_or_throws; [intros ? ?|intros ?]
  | |- total (iterate _ _) _ _ _ =>
      unfold iterate; apply total_reads_or_throws; [intros ? ?|intros ?]
  | |- total (reads_or_throws _) _ _ _ =>
      apply total_reads_or_throws; [intros ? ?|intros ?]
  | |- total (new_RegExp _ _ _) _ _ _ => apply total_new_RegExp; [intros ? ?|]
  | |- total (if ?b then _ else _) _ _ _ => destruct b eqn:?
  end.

(** The end of a case: the cells changed are cells of the tree, and a
    result that is an array is one of them. *)
Ltac not_among_alternate :=
  first
    [ let H := fresh in intros H; exfalso; simpl in H; solve [intuition discriminate]
    | intros _; guards; solve [eauto] ].

Ltac total_end :=
  match goal with
  | |- changes_only (cells_of _ _ _) _ _ =>
      eapply cells_end; first [eassumption|not_among_alternate]
  | |- _ /\ _ => split; [total_end|total_end]
  | |- result_in _ (VIR _) => exact I
  | |- result_in _ VNull => exact I
  | |- result_in _ _ => eapply result_in_cell; eassumption
  end.

Ltac total_steps := repeat total_step; try total_end.

Section Reads.
Context {ir : Type} (builder : Builder ir).
Implicit Types (s : state ir) (v : value ir).

(** The cooked strings are read without a change of the state. *)
Lemma total_map_values (f : value ir -> M ir (value ir)) l :
  (forall x s, total (f x) s (fun _ s' => s' = s) (fun s' => s' = s)) ->
  forall s, total (map_values f l) s (fun _ s' => s' = s) (fun s' => s' = s).
Proof.
  intros Hf. induction l as [|x l IH]; intros s; simpl.
  - by apply total_ret.
  - apply total_bind. eapply total_mono; [apply Hf| |auto].
    intros y sa Ea. simpl in Ea. subst sa. apply total_bind.
    eapply total_mono; [apply IH| |auto].
    intros ys sa Ea. simpl in Ea. subst sa. by apply total_ret.
Qed.

Lemma total_quasis v s :
  total (array_map v (fun q => let* x := get builder q "value" in get builder x "cooked")) s
    (fun _ s' => s' = s) (fun s' => s' = s).
Proof.
  unfold array_map. apply total_bind. apply total_reads_or_throws; [|auto].
  intros l _. apply total_map_values. intros x s1.
  apply total_bind. unfold get. apply total_reads_or_throws; [|auto].
  intros y _. apply total_reads_or_throws; auto.
Qed.

Lemma total_property_key computed key s :
  total (property_key builder computed key) s (fun _ s' => s' = s) (fun s' => s' = s).
Proof.
  unfold property_key. destruct (negb computed); [|by apply total_ret].
  apply total_bind. unfold get. apply total_reads_or_throws; [intros type _|done].
  destruct (is_str type "Identifier"); [|by apply total_ret].
  apply total_bind. apply total_reads_or_throws; [intros name _|done].
  by apply total_ret.
Qed.

(** What reads the state leaves it as it is. *)
Lemma total_reading {A} (m : M ir A) s (Q : A -> state ir -> Prop) E :
  total m s (fun _ s' => s' = s) (fun s' => s' = s) ->
  (forall a, Q a s) -> E s ->
  total m s Q E.
Proof.
  intros Hm HQ HE. eapply total_mono; [exact Hm| |].
  - intros a s' ->. apply HQ.
  - intros s' ->. exact HE.
Qed.

Lemma is_leaf_tree s v F h :
  tree_at s v F h ->
  (is_leaf v = true /\ F = ∅)
  \/ exists l c fp F' h',
       v = VRef l /\ h = S h' /\ F = {[l]} ∪ F'
       /\ heap s !! l = Some c
       /\ (forall k, tree_at s (slot_of c k) (fp k) h')
       /\ (forall k k', k <> k' -> fp k ## fp k')
       /\ (forall k, fp k ⊆ F')
       /\ l ∉ F'.
Proof.
  intros [v' h' Hv|l c fp F' h' Hl Hk Hd Hs HlF]; [by left|].
  right. exists l, c, fp, F', h'. auto 10.
Qed.

End Reads.

Section Cases.
Context {ir : Type} (builder : Builder ir).
Variable conv : value ir -> M ir (value ir).
Variable fuel : nat.
Variable h : nat.
Implicit Types (s : state ir) (v : value ir).

Hypothesis conv_total : forall v F s,
  tree_at s v F h ->
  total (conv v) s (stays_in F v s) (changes_only (fun l => l ∈ F) s).

Variables (s0 : state ir) (l : loc) (c : cell ir) (fp : slot -> gset loc)
  (F : gset loc).
Hypothesis Hl : heap s0 !! l = Some c.
Hypothesis Hkids : forall k, tree_at s0 (slot_of c k) (fp k) h.
Hypothesis Hdisj : forall k k', k <> k' -> fp k ## fp k'.
Hypothesis Hsub : forall k, fp k ⊆ F.
Hypothesis HlF : l ∉ F.

(** What a case guarantees. *)
Local Abbreviation ends m :=
  (total m s0
     (fun r s' => changes_only (cells_of l c fp) s0 s' /\ result_in ({[l]} ∪ F) r)
     (changes_only (cells_of l c fp) s0)).

Lemma cells_assigned D s k lq name x :
  changes_only (cells_at fp D) s0 s -> In k D -> lq ∈ fp k ->
  changes_only (cells_at fp D) s0 (assigned lq name x s).
Proof.
  intros H Hin Hq. eapply changes_only_trans; [exact H|].
  apply changes_only_assigned. by exists k.
Qed.

Lemma total_TemplateLiteral :
  ends (convert_TemplateLiteral builder conv (VRef l)).
Proof.
  pose proof (changes_only_refl (cells_at fp []) s0) as H0.
  unfold convert_TemplateLiteral. total_steps.
  apply total_reading; [apply total_quasis| |total_end].
  intros quasis. total_steps.
Qed.

Lemma total_TaggedTemplateExpression :
  ends (convert_TaggedTemplateExpression builder conv (VRef l)).
Proof.
  pose proof (changes_only_refl (cells_at fp []) s0) as H0.
  unfold convert_TaggedTemplateExpression. total_steps.
  unfold assign. destruct v as [| | | | | |lq|x]; total_steps.
  apply total_modify. total_steps. split; [|total_end].
  eapply cells_end.
  - eapply cells_assigned; [eassumption|by left|eassumption].
  - not_among_alternate.
Qed.

Lemma total_Property :
  ends (convert_Property builder conv (VRef l)).
Proof.
  pose proof (changes_only_refl (cells_at fp []) s0) as H0.
  unfold convert_Property. total_steps.
  apply total_reading; [apply total_property_key| |total_end].
  intros key. total_steps.
Qed.

End Cases.

(** *** The chain of an if statement *)

Section Chain.
Context {ir : Type} (builder : Builder ir).
Variable conv : value ir -> M ir (value ir).
Variable h : nat.
Implicit Types (s : state ir) (v : value ir).

Hypothesis conv_total : forall v F s,
  tree_at s v F h ->
  total (conv v) s (stays_in F v s) (changes_only (fun l => l ∈ F) s).

(** A call on a cell leaves the trees at its places that it does not
    convert, and the properties of the cell. *)
Hypothesis conv_cell : forall la ca fpa Fa ha s,
  S ha <= h ->
  heap s !! la = Some ca ->
  (forall k, tree_at s (slot_of ca k) (fpa k) ha) ->
  (forall k k', k <> k' -> fpa k ## fpa k') ->
  (forall k, fpa k ⊆ Fa) ->
  la ∉ Fa ->
  total (conv (VRef la)) s
    (fun _ s' =>
       changes_only (cells_of la ca fpa) s s'
       /\ forall name, name <> "length" ->
            get_prop builder s' (VRef la) name = Some (slot_of ca (Field name)))
    (fun _ => True).

Lemma total_and {A} (m : M ir A) s (Q Q' : A -> state ir -> Prop)
    (E E' : state ir -> Prop) :
  total m s Q E -> total m s Q' E' ->
  total m s (fun a s' => Q a s' /\ Q' a s') (fun s' => E s' /\ E' s').
Proof. unfold total. destruct (m s) as [[a s'|e s']|]; auto. Qed.

Lemma cells_coarse s0 l (fp : slot -> gset loc) F D s :
  (forall k, fp k ⊆ F) ->
  changes_only (cells_at fp D) s0 s ->
  changes_only (fun l' => l' ∈ {[l]} ∪ F) s0 s.
Proof.
  intros Hsub. apply changes_only_weaken.
  intros l' (k & _ & Hk). specialize (Hsub k). set_solver.
Qed.

(** A value that is not a cell has none of the properties the converter
    reads, the [length] of a string and the [flags] and [source] of a
    regular expression apart. *)
Lemma leaf_property s v name x :
  is_leaf v = true -> get_prop builder s v name = Some x ->
  name <> "length" -> name <> "flags" -> name <> "source" -> x = VUndefined.
Proof.
  intros Hv Hx Hn Hf Hs. apply String.eqb_neq in Hn, Hf, Hs.
  destruct v; try discriminate; simpl in Hx; try congruence.
  - rewrite Hn in Hx. congruence.
  - rewrite Hf, Hs in Hx. congruence.
Qed.

Lemma total_else_chain n : forall alt Fa ha container s,
  tree_at s alt Fa ha -> ha <= h -> ha < n ->
  total (else_chain builder conv n alt container) s
    (fun r s' => changes_only (fun l => l ∈ Fa) s s' /\ forall G, result_in G r)
    (changes_only (fun l => l ∈ Fa) s).
Proof.
  induction n as [|n IH]; intros alt Fa ha container s Htree Hha Hn; [lia|].
  cbn [else_chain]. cbv zeta.
  destruct (is_leaf_tree _ _ _ _ Htree)
    as [[Hleaf ->]|(la & ca & fpa & F' & h' & -> & -> & -> & Hla & Hk & Hd & Hs & HlF)].
  - (* a leaf *)
    apply total_bind. unfold get.
    apply total_reads_or_throws; [intros cq Hcq|intros _; apply changes_only_refl].
    rewrite (leaf_property s alt "consequent" cq Hleaf Hcq) by discriminate.
    simpl truthy. cbv iota. apply total_bind.
    eapply total_mono; [apply conv_total, (tree_leaf s alt h Hleaf)| |auto].
    intros e s1 (Hs1 & _ & _). destruct (negb (truthy e)).
    + apply total_ret. split; [exact Hs1|]. by intros G.
    + apply total_bind. apply total_reads_or_throws; [intros a Ha|intros _; exact Hs1].
      rewrite (leaf_property s1 alt "alternate" a Hleaf Ha) by discriminate.
      simpl truthy. cbv iota. apply total_ret. split; [exact Hs1|]. by intros G.
  - (* a cell *)
    assert (forall k, tree_at s (slot_of ca k) (fpa k) h) as Hk'
      by (intros k; apply (tree_at_mono s _ _ h'); [apply Hk|lia]).
    pose proof (changes_only_refl (cells_at fpa []) s) as H0.
    apply total_bind. unfold get. apply total_reads_or_throws; cycle 1.
    { intros Hcq. by rewrite (get_prop_slot builder s la ca "consequent" Hla) in Hcq. }
    intros cq Hcq.
    rewrite (get_prop_slot builder s la ca "consequent" Hla) in Hcq by discriminate.
    injection Hcq as <-.
    assert (forall s1 s2 (P : loc -> Prop),
              (forall l', P l' -> l' ∈ {[la]} ∪ F') ->
              changes_only P s s1 ->
              changes_only (fun l' => l' ∈ fpa (Field "alternate")) s1 s2 ->
              changes_only (fun l' => l' ∈ {[la]} ∪ F') s s2) as Hcompose.
    { intros s1 s2 P HP H1 H2. eapply changes_only_trans.
      - eapply changes_only_weaken; [|exact H1]. exact HP.
      - eapply changes_only_weaken; [|exact H2]. intros l' Hl'.
        specialize (Hs (Field "alternate")). set_solver. }
    destruct (truthy (slot_of ca (Field "consequent"))) eqn:Hcq.
    + (* an else-if link *)
      total_steps.
      * split; [|by intros G]. eapply cells_coarse; [exact Hs|eassumption].
      * match goal with
        | H : changes_only (cells_at fpa ?D) s ?s2,
          Ha : get_prop builder ?s2 (VRef la) "alternate" = Some _ |- _ =>
            rewrite (get_prop_slot builder s2 la ca "alternate"
                       (cells_keep_cell s la ca fpa F' Hla Hs HlF D s2 H)) in Ha
              by discriminate;
            injection Ha as <-;
            pose proof (cells_keep_tree h' s ca fpa Hk Hd D s2 (Field "alternate") H
                          ltac:(not_among)) as Halt
        end.
        eapply total_mono; [eapply (IH _ _ h'); [exact Halt|lia|lia]| |].
        -- intros r s3 (Hchain & Hr). split; [|exact Hr].
           eapply (Hcompose _ s3); [|eassumption|exact Hchain].
           intros l' (k & _ & Hl'). specialize (Hs k). set_solver.
        -- intros s3 Hchain.
           eapply (Hcompose _ s3); [|eassumption|exact Hchain].
           intros l' (k & _ & Hl'). specialize (Hs k). set_solver.
      * split; [|by intros G]. eapply cells_coarse; [exact Hs|eassumption].
      * eapply cells_coarse; [exact Hs|eassumption].
      * eapply cells_coarse; [exact Hs|eassumption].
      * eapply cells_coarse; [exact Hs|eassumption].
    + (* an else link *)
      assert (tree_at s (VRef la) ({[la]} ∪ F') h) as Hwhole.
      { apply (tree_at_mono s _ _ (S h')); [|lia]. by apply tree_cell with ca fpa. }
      apply total_bind.
      eapply total_mono;
        [exact (total_and _ _ _ _ _ _ (conv_total _ _ _ Hwhole)
                  (conv_cell la ca fpa F' h' s Hha Hla Hk Hd Hs HlF))| |].
      2: { intros s1 [H1 _]. exact H1. }
      intros e s1 [(H1 & _ & _) (H1' & Hprops)].
      destruct (negb (truthy e)).
      * apply total_ret. split; [exact H1|by intros G].
      * apply total_bind. apply total_reads_or_throws; [|intros _; exact H1].
        intros a Ha. rewrite Hprops in Ha by discriminate. injection Ha as <-.
        destruct (truthy (slot_of ca (Field "alternate"))); cycle 1.
        { apply total_ret. split; [exact H1|by intros G]. }
        assert (tree_at s1 (slot_of ca (Field "alternate")) (fpa (Field "alternate")) h')
          as Halt.
        { apply tree_at_agree with (s := s); [apply Hk|].
          intros l' Hl'. apply H1'. intros [->|(k & Hk1 & Hk2)].
          - apply HlF, (Hs (Field "alternate")), Hl'.
          - assert (k = Field "alternate" \/ k <> Field "alternate") as [->|Hne].
            { destruct k as [name|i]; [|by right].
              destruct (String.eqb_spec name "alternate") as [->|Hne]; [by left|].
              right. congruence. }
            + specialize (Hk2 eq_refl). congruence.
            + specialize (Hd k (Field "alternate") Hne). set_solver. }
        eapply total_mono; [eapply (IH _ _ h'); [exact Halt|lia|lia]| |].
        -- intros r s3 (Hchain & Hr). split; [|exact Hr].
           by eapply (Hcompose s1 s3 _ (fun _ H => H)).
        -- intros s3 Hchain. by eapply (Hcompose s1 s3 _ (fun _ H => H)).
Qed.

End Chain.

Section Places.
Context {ir : Type}.
Implicit Types (s : state ir) (v : value ir).

Lemma result_in_any (G : gset loc) v : (forall G', result_in G' v) -> result_in G v.
Proof. auto. Qed.

Lemma cells_at_weaken (fpb : slot -> gset loc) D D' s s' :
  (forall k, In k D -> In k D') ->
  changes_only (cells_at fpb D) s s' -> changes_only (cells_at fpb D') s s'.
Proof.
  intros HD. apply changes_only_weaken. intros l' (k & Hin & Hk). exists k. auto.
Qed.

(** The properties of an object, those named in [others] apart, are
    leaves. *)
Lemma field_leaf (fields : gmap string (value ir)) (others : list string) name :
  map_Forall (fun k x => k ∈ others \/ is_leaf x = true) fields ->
  name ∉ others ->
  is_leaf (field fields name) = true.
Proof.
  intros Hall Hname. unfold field.
  destruct (fields !! name) as [x|] eqn:Hx; [|reflexivity].
  destruct (Hall name x Hx) as [Hin|Hleaf]; [contradiction|exact Hleaf].
Qed.

Lemma index_before i j : In (Index j) (map Index (seq 0 i)) <-> j < i.
Proof.
  rewrite in_map_iff. split.
  - intros (j' & [= ->] & Hj). apply in_seq in Hj. lia.
  - intros Hj. exists j. split; [reflexivity|]. apply in_seq. lia.
Qed.

End Places.

(** *** Statements with a loop *)

Section Loops.
Context {ir : Type} (builder : Builder ir).
Variable conv : value ir -> M ir (value ir).
Variable fuel : nat.
Variable h : nat.
Implicit Types (s : state ir) (v : value ir).

Hypothesis conv_total : forall v F s,
  tree_at s v F h ->
  total (conv v) s (stays_in F v s) (changes_only (fun l => l ∈ F) s).

Hypothesis conv_cell : forall la ca fpa Fa ha s,
  S ha <= h ->
  heap s !! la = Some ca ->
  (forall k, tree_at s (slot_of ca k) (fpa k) ha) ->
  (forall k k', k <> k' -> fpa k ## fpa k') ->
  (forall k, fpa k ⊆ Fa) ->
  la ∉ Fa ->
  total (conv (VRef la)) s
    (fun _ s' =>
       changes_only (cells_of la ca fpa) s s'
       /\ forall name, name <> "length" ->
            get_prop builder s' (VRef la) name = Some (slot_of ca (Field name)))
    (fun _ => True).

Hypothesis enough : h < fuel.

Variables (s0 : state ir) (l : loc) (c : cell ir) (fp : slot -> gset loc)
  (F : gset loc).
Hypothesis Hl : heap s0 !! l = Some c.
Hypothesis Hkids : forall k, tree_at s0 (slot_of c k) (fp k) h.
Hypothesis Hdisj : forall k k', k <> k' -> fp k ## fp k'.
Hypothesis Hsub : forall k, fp k ⊆ F.
Hypothesis HlF : l ∉ F.

Local Abbreviation ends m :=
  (total m s0
     (fun r s' => changes_only (cells_of l c fp) s0 s' /\ result_in ({[l]} ∪ F) r)
     (changes_only (cells_of l c fp) s0)).

Lemma total_IfStatement :
  ends (convert_IfStatement builder conv fuel (VRef l)).
Proof using conv_total conv_cell enough Hl Hkids Hdisj Hsub HlF.
  pose proof (changes_only_refl (cells_at fp []) s0) as H0.
  unfold convert_IfStatement. total_steps.
  match goal with
  | H : changes_only (cells_at fp ?D) s0 ?s2,
    Ha : get_prop builder ?s2 (VRef l) "alternate" = Some _ |- _ =>
      rewrite (get_prop_slot builder s2 l c "alternate"
                 (cells_keep_cell s0 l c fp F Hl Hsub HlF D s2 H)) in Ha
        by discriminate;
      injection Ha as <-;
      pose proof (cells_keep_tree h s0 c fp Hkids Hdisj D s2 (Field "alternate") H
                    ltac:(not_among)) as Halt;
      pose proof (fun s3 => cells_step s0 fp D s2 (Field "alternate") s3 H) as Hstep
  end.
  guards.
  assert (truthy (slot_of c (Field "consequent")) = true) as Hcq by eauto.
  eapply total_mono;
    [eapply (total_else_chain builder conv h conv_total conv_cell fuel);
       [exact Halt|lia|exact enough]| |].
  - intros r s3 (Hchain & Hr). split; [|by apply result_in_any].
    eapply cells_end; [apply Hstep, Hchain|]. auto.
  - intros s3 Hchain. eapply cells_end; [apply Hstep, Hchain|]. auto.
Qed.

Lemma total_ConditionalExpression :
  ends (convert_ConditionalExpression builder conv (VRef l)).
Proof using conv_total Hl Hkids Hdisj Hsub HlF.
  pose proof (changes_only_refl (cells_at fp []) s0) as H0.
  unfold convert_ConditionalExpression. total_steps.
Qed.

(** The loop over the statements of a program. *)
Lemma total_children (next : nat -> M ir (value ir))
    (I : nat -> state ir -> Prop) (E : state ir -> Prop) :
  (forall i s, I i s -> E s) ->
  (forall i s, I i s ->
     total (next i) s
       (fun x s' => s' = s /\ total (conv x) s (fun _ s'' => I (S i) s'') E)
       E) ->
  forall n i container s, I i s ->
  total (append_children builder conv n next i container) s
    (fun r s' => E s' /\ forall G, result_in G r) E.
Proof using Type.
  intros HE Hnext. induction n as [|n IH]; intros i container s Hi; simpl.
  - apply total_ret. split; [by apply (HE i)|by intros G].
  - apply total_bind. eapply total_mono; [by apply Hnext| |auto].
    intros x s' [-> Hx]. apply total_bind. eapply total_mono; [exact Hx| |auto].
    intros r s'' Hi'. destruct (truthy r).
    + by apply IH.
    + apply total_ret. split; [by apply (HE (S i))|by intros G].
Qed.

(** Where the first statement of a body, and the statements a loop goes
    through, are: at a place of the cell of the body. *)
Lemma total_Program :
  ends (convert_Program builder conv (VRef l)).
Proof.
  unfold convert_Program.
  apply total_bind. unfold get. apply total_reads_or_throws; cycle 1.
  { intros Hb. by rewrite (get_prop_slot builder s0 l c "body" Hl) in Hb. }
  intros b Hb. rewrite (get_prop_slot builder s0 l c "body" Hl) in Hb by discriminate.
  injection Hb as <-.
  pose proof (Hkids (Field "body")) as Hbody.
  assert (forall (P : loc -> Prop) s',
            (forall l', P l' -> l' ∈ fp (Field "body")) ->
            changes_only P s0 s' -> changes_only (cells_of l c fp) s0 s') as Hend.
  { intros P s' HP. apply changes_only_weaken. intros l' Hl'.
    right. exists (Field "body"). split; [auto|discriminate]. }
  assert (forall (G : gset loc) v,
            G ⊆ fp (Field "body") -> result_in G v -> result_in ({[l]} ∪ F) v) as Hres.
  { intros G v HG Hv. apply (result_in_cell l fp F Hsub (Field "body")).
    destruct v; simpl in *; auto. }
  destruct (is_leaf_tree _ _ _ _ Hbody)
    as [[Hleaf Hfp]
       |(lb & cb & fpb & F' & h' & Hbv & Hh & Hfp & Hlb & Hkb & Hdb & Hsb & HlbF)].
  - (* the body is a leaf *)
    total_steps; try apply changes_only_refl.
    1: { (* the only statement *)
      match goal with Ha : get_elem _ _ _ _ = Some ?a |- _ =>
        pose proof (get_elem_leaf builder _ _ _ _ Hleaf Ha) as Hx
      end.
      eapply total_mono; [apply conv_total, (tree_leaf s0 _ h Hx)| |].
      - intros r s' (Hs' & Hr & _). split.
        + apply (Hend _ s' (fun l' (H : l' ∈ (∅ : gset loc)) =>
                              False_ind _ (not_elem_of_empty l' H)) Hs').
        + apply (Hres ∅); [set_solver|exact Hr].
      - intros s' Hs'.
        apply (Hend _ s' (fun l' (H : l' ∈ (∅ : gset loc)) =>
                            False_ind _ (not_elem_of_empty l' H)) Hs'). }
    (* the loop *)
    all: match goal with Ha : iterator _ _ _ = Some ?a |- _ =>
        unfold iterator in Ha;
        destruct (slot_of c (Field "body")) as [| | | |t| | |] eqn:Hb;
          try discriminate Ha; try discriminate Hleaf;
        injection Ha as <-
      end.
    all: simpl fst; simpl snd.
    all: eapply total_mono;
        [eapply (total_children _
                   (fun _ s => changes_only (fun l' => l' ∈ (∅ : gset loc)) s0 s)
                   (changes_only (cells_of l c fp) s0))| |];
        [ intros _ s Hs;
          apply (Hend _ s (fun l' (H : l' ∈ (∅ : gset loc)) =>
                             False_ind _ (not_elem_of_empty l' H)) Hs)
        | intros i s Hs; apply total_ret; split; [reflexivity|];
          assert (is_leaf (char_at t i : value ir) = true) as Hx
            by (unfold char_at; by destruct (String.get i t));
          eapply total_mono; [apply conv_total, (tree_leaf s _ h Hx)| |];
          [ intros r s' (Hs' & _); by apply (changes_only_trans _ s0 s s')
          | intros s' Hs';
            apply (Hend _ s' (fun l' (H : l' ∈ (∅ : gset loc)) =>
                                False_ind _ (not_elem_of_empty l' H)));
            by apply (changes_only_trans _ s0 s s') ]
        | apply changes_only_refl
        | intros r s' (Hs' & Hr); split; [exact Hs'|by apply result_in_any]
        | auto ].
  - (* the body is a cell *)
    assert (fp (Field "body") = {[lb]} ∪ F') as Hfp' by exact Hfp.
    assert (forall k, fpb k ⊆ fp (Field "body")) as Hsub'.
    { intros k. rewrite Hfp'. pose proof (Hsb k) as Hk0. clear -Hk0. set_solver. }
    assert (forall k, tree_at s0 (slot_of cb k) (fpb k) h) as Hkb'
      by (intros k; apply (tree_at_mono s0 _ _ h'); [apply Hkb|lia]).
    total_steps; try apply changes_only_refl.
    1: { (* the only statement *)
      match goal with Ha : get_elem _ _ _ _ = Some ?a |- _ =>
        assert (exists k, a = slot_of cb k) as [k ->]
          by (rewrite Hbv in Ha; unfold get_elem in Ha; rewrite Hlb in Ha;
              destruct cb as [fields|elements props]; injection Ha as <-;
              [by exists (Field (pretty 0))|by exists (Index 0)])
      end.
      eapply total_mono; [apply conv_total, Hkb'| |].
      - intros r s' (Hs' & Hr & _). split.
        + apply (Hend _ s' (fun l' H => Hsub' k l' H) Hs').
        + apply (Hres (fpb k)); [apply Hsub'|exact Hr].
      - intros s' Hs'. apply (Hend _ s' (fun l' H => Hsub' k l' H) Hs'). }
    (* the loop *)
    all: match goal with Ha : iterator _ _ _ = Some ?a |- _ =>
        rewrite Hbv in Ha; unfold iterator in Ha; rewrite Hlb in Ha;
        destruct cb as [fields|elements props]; [discriminate Ha|];
        injection Ha as <-
      end.
    all: simpl fst; simpl snd.
    all: eapply total_mono;
        [eapply (total_children _
                   (fun i s => changes_only (cells_at fpb (map Index (seq 0 i))) s0 s)
                   (changes_only (cells_of l c fp) s0))| |];
        [ intros i s Hs; eapply Hend; [|exact Hs];
          intros l' (k & _ & Hk); by apply (Hsub' k)
        |
        | apply changes_only_refl
        | intros r s' (Hs' & Hr); split; [exact Hs'|by apply result_in_any]
        | auto ].
    all: intros i s Hs; unfold get_index; apply total_reads_or_throws;
      [|unfold get_elem;
        by rewrite (cells_keep_cell s0 lb _ fpb F' Hlb Hsb HlbF _ s Hs)].
    all: intros x Hx; split; [reflexivity|].
    all: unfold get_elem in Hx;
      rewrite (cells_keep_cell s0 lb _ fpb F' Hlb Hsb HlbF _ s Hs) in Hx;
      injection Hx as <-.
    all: assert (~ In (Index i) (map Index (seq 0 i))) as Hnot
          by (rewrite index_before; lia).
    all: pose proof (cells_keep_tree h s0 _ fpb Hkb' Hdb _ s (Index i) Hs Hnot) as Hx.
    all: assert (forall s',
                  changes_only (fun l' => l' ∈ fpb (Index i)) s s' ->
                  changes_only (cells_at fpb (map Index (seq 0 (S i)))) s0 s') as Hnext
          by (intros s' Hs';
              apply (cells_at_weaken (fpb) (Index i :: map Index (seq 0 i)));
              [ intros k [<-|Hk]; [apply index_before; lia|];
                destruct k as [name|j];
                  [by apply in_map_iff in Hk as (? & ? & ?)|];
                apply index_before; apply index_before in Hk; lia
              | by apply (cells_step s0 fpb _ s) ]).
    all: eapply total_mono; [apply conv_total, Hx| |];
      [ intros r s' (Hs' & _); by apply Hnext
      | intros s' Hs'; eapply Hend; [|apply Hnext, Hs'];
        intros l' (k & _ & Hk); by apply (Hsub' k) ].
Qed.

Lemma total_switch type :
  ends (convert_switch builder conv fuel type (VRef l)).
Proof.
  pose proof (changes_only_refl (cells_at fp []) s0) as H0.
  unfold convert_switch.
  repeat (destruct (is_str type _);
          [first [ by apply total_Program
                 | by apply total_IfStatement
                 | by apply total_ConditionalExpression
                 | by eapply total_TemplateLiteral
                 | by eapply total_TaggedTemplateExpression
                 | by eapply total_Property
                 | unfold convert_ArrayExpression, convert_AssignmentExpression,
                     convert_BinaryExpression, convert_BlockStatement,
                     convert_CallExpression, convert_ExpressionStatement,
                     convert_Function, convert_Function_rest, convert_Identifier,
                     convert_Literal, convert_LogicalExpression,
                     convert_MemberExpression, convert_NewExpression,
                     convert_ObjectExpression, convert_ReturnStatement,
                     convert_ThisExpression, convert_UnaryExpression,
                     convert_UpdateExpression, convert_VariableDeclarator,
                     convert_VariableDeclaration, convert_ForStatement,
                     convert_WhileStatement; solve [total_steps] ]|]).
  total_steps.
Qed.

End Loops.

(** *** The case of a cell that is an array *)

Section Elements.
Context {ir : Type} (builder : Builder ir).
Variable conv : value ir -> M ir (value ir).
Variable h : nat.
Implicit Types (s : state ir) (v : value ir).

Hypothesis conv_total : forall v F s,
  tree_at s v F h ->
  total (conv v) s (stays_in F v s) (changes_only (fun l => l ∈ F) s).

Variables (s0 : state ir) (l : loc) (elements : list (value ir))
  (props : gmap string (value ir)) (fp : slot -> gset loc) (F : gset loc).
Hypothesis Hl : heap s0 !! l = Some (Arr elements props).
Hypothesis Hkids : forall k, tree_at s0 (slot_of (Arr elements props) k) (fp k) h.
Hypothesis Hdisj : forall k k', k <> k' -> fp k ## fp k'.
Hypothesis Hsub : forall k, fp k ⊆ F.
Hypothesis HlF : l ∉ F.

(** The array and the elements converted so far. *)
Local Abbreviation so_far i :=
  (fun l' => l' = l \/ cells_at fp (map Index (seq 0 i)) l').

Local Abbreviation kept s :=
  (changes_only (cells_of l (Arr elements props) fp) s0 s
   /\ forall name, name <> "length" ->
        get_prop builder s (VRef l) name
        = Some (slot_of (Arr elements props) (Field name))).

Lemma elements_kept i s els :
  heap s !! l = Some (Arr els props) ->
  changes_only (so_far i) s0 s ->
  kept s.
Proof using Type.
  intros Hs Hch. split.
  - eapply changes_only_weaken; [|exact Hch].
    intros l' [->|(k & Hin & Hk)]; [by left|].
    right. exists k. split; [exact Hk|]. intros ->.
    apply in_map_iff in Hin as (j & Hj & _). discriminate.
  - intros name Hname. by rewrite (get_prop_slot builder s l _ name Hs Hname).
Qed.

Lemma elements_next i s s1 :
  changes_only (so_far i) s0 s ->
  changes_only (fun l' => l' ∈ fp (Index i)) s s1 ->
  heap s1 !! l = heap s !! l /\ changes_only (so_far (S i)) s0 s1.
Proof using Hsub HlF.
  intros Hch H1. split.
  - apply H1. intros Hin. pose proof (Hsub (Index i)) as Hk.
    clear -Hin Hk HlF. set_solver.
  - intros l' Hl'. rewrite H1, Hch; [reflexivity| |].
    + intros [->|(k & Hin & Hk)]; apply Hl'; [by left|].
      right. exists k. split; [|exact Hk].
      apply in_map_iff in Hin as (j & <- & Hj). apply index_before.
      apply in_seq in Hj. lia.
    + intros Hk. apply Hl'. right. exists (Index i). split; [|exact Hk].
      apply index_before. lia.
Qed.

Lemma elements_tree i s :
  changes_only (so_far i) s0 s ->
  tree_at s (slot_of (Arr elements props) (Index i)) (fp (Index i)) h.
Proof using Hkids Hdisj Hsub HlF.
  intros Hch. apply tree_at_agree with (s := s0); [apply Hkids|].
  intros l' Hl'. apply Hch. intros [->|(k & Hin & Hk)].
  - pose proof (Hsub (Index i)) as Hs. clear -Hs Hl' HlF. set_solver.
  - apply in_map_iff in Hin as (j & <- & Hj). apply in_seq in Hj.
    assert (Index i <> Index j) as Hne by (intros [= ->]; lia).
    pose proof (Hdisj _ _ Hne) as Hd. clear -Hd Hl' Hk. set_solver.
Qed.

(** The loop over the elements ends; it writes to the array and to the
    cells of its elements, and leaves the properties of the array. *)
Lemma total_elements n : forall i s els,
  i + n = length elements ->
  heap s !! l = Some (Arr els props) ->
  length els = length elements ->
  (forall j, i <= j -> els !! j = elements !! j) ->
  changes_only (so_far i) s0 s ->
  total (convert_elements builder conv n l i) s
    (fun r s' => kept s' /\ result_in ({[l]} ∪ F) r)
    (fun s' => kept s').
Proof using conv_total Hl Hkids Hdisj Hsub HlF.
  induction n as [|n IH]; intros i s els Hn Hs Hlen Hels Hch; simpl.
  - apply total_ret. split; [by apply (elements_kept i s els)|].
    simpl. set_solver.
  - apply total_bind. unfold get_index. apply total_reads_or_throws; cycle 1.
    { unfold get_elem. by rewrite Hs. }
    intros x Hx. unfold get_elem in Hx. rewrite Hs, Hels in Hx by lia.
    injection Hx as <-.
    apply total_bind.
    eapply total_mono; [apply conv_total, (elements_tree i s Hch)| |].
    + intros r s1 (H1 & Hr & _).
      destruct (elements_next i s s1 Hch H1) as [Hs1 Hch1].
      rewrite Hs in Hs1.
      destruct (nullish r) eqn:Hnull.
      * apply total_ret. split; [by apply (elements_kept (S i) s1 els)|].
        by destruct r.
      * apply total_bind. unfold store_index. apply total_modify.
        assert (i < length els) as Hi by lia.
        apply (IH (S i) _ (<[i := r]> els)).
        -- lia.
        -- unfold stored. rewrite Hs1. simpl. rewrite lookup_insert_eq.
           unfold array_set. by rewrite decide_True by exact Hi.
        -- by rewrite length_insert.
        -- intros j Hj. rewrite list_lookup_insert_ne by lia. apply Hels. lia.
        -- eapply changes_only_trans; [exact Hch1|].
           apply changes_only_stored. by left.
    + intros s1 H1. destruct (elements_next i s s1 Hch H1) as [Hs1 Hch1].
      rewrite Hs in Hs1. by apply (elements_kept (S i) s1 els).
Qed.

End Elements.

(** *** Every call on a tree ends *)

Section Calls.
Context {ir : Type} (builder : Builder ir).
Implicit Types (s : state ir) (v : value ir).

Lemma total_return (m : M ir (value ir)) node s
    (Q Q' : value ir -> state ir -> Prop) (E E' : state ir -> Prop) r :
  total m (called node s) Q E ->
  r = option_map (return_from node) (m (called node s)) ->
  (forall a s', Q a s' -> Q' a (returned node a s')) ->
  (forall s', E s' -> E' s') ->
  match r with
  | Some (Ok a s') => Q' a s'
  | Some (Throw _ s') => E' s'
  | None => False
  end.
Proof.
  unfold total. intros H -> HQ HE.
  destruct (m (called node s)) as [[a s'|e s']|]; simpl; auto.
Qed.

Lemma cells_of_coarse l (c : cell ir) (fp : slot -> gset loc) F s s' :
  (forall k, fp k ⊆ F) ->
  changes_only (cells_of l c fp) s s' ->
  changes_only (fun l' => l' ∈ {[l]} ∪ F) s s'.
Proof.
  intros Hsub. apply changes_only_weaken.
  intros l' [->|(k & Hk & _)]; [set_solver|]. specialize (Hsub k). set_solver.
Qed.

Lemma total_well fuel v s (Q : value ir -> state ir -> Prop)
    (E : state ir -> Prop) :
  total (convert builder fuel v) s Q E ->
  total (convert builder fuel v) s
    (fun r s' => Q r s' /\ returns_well s r s')
    (fun s' => E s' /\ preserved s s').
Proof.
  pose proof (convert_well builder fuel v s) as Hwell.
  unfold total, post in *.
  destruct (convert builder fuel v s) as [[a s'|e s']|]; auto.
Qed.

(** A call on a cell whose places hold trees of height at most [h], with
    fuel for them: it ends, writes to the cells it converts only, returns
    no array that is not one of them, and leaves the properties of the
    cell. *)
Lemma total_cell h : forall fuel s l c fp F,
  h < fuel ->
  heap s !! l = Some c ->
  (forall k, tree_at s (slot_of c k) (fp k) h) ->
  (forall k k', k <> k' -> fp k ## fp k') ->
  (forall k, fp k ⊆ F) ->
  l ∉ F ->
  total (convert builder (S fuel) (VRef l)) s
    (fun r s' =>
       changes_only (cells_of l c fp) s s'
       /\ result_in ({[l]} ∪ F) r
       /\ forall name, name <> "length" ->
            get_prop builder s' (VRef l) name = Some (slot_of c (Field name)))
    (fun s' => changes_only (cells_of l c fp) s s').
Proof.
  induction h as [h IH] using lt_wf_ind.
  intros fuel s l c fp F Hfuel Hl Hkids Hdisj Hsub HlF.
  assert (forall v G s1,
            tree_at s1 v G h ->
            total (convert builder fuel v) s1 (stays_in G v s1)
              (changes_only (fun l' => l' ∈ G) s1)) as conv_total.
  { intros v G s1 Hv. destruct fuel as [|fuel']; [lia|].
    destruct (is_leaf_tree s1 v G h Hv)
      as [[Hleaf ->]|(lv & cv & fpv & Fv & hv & -> & -> & -> & Hlv & Hkv & Hdv & Hsv & Hnv)].
    - eapply total_mono; [by apply leaf_total| |].
      + intros r s' [Hh ->]. split; [by apply changes_only_heap|]. by split.
      + intros s' Hh. by apply changes_only_heap.
    - eapply total_mono;
        [apply (IH hv ltac:(lia) fuel' s1 lv cv fpv Fv ltac:(lia) Hlv Hkv Hdv Hsv Hnv)| |].
      + intros r s' (Hch & Hr & _). split; [by eapply cells_of_coarse|].
        by split.
      + intros s' Hch. by eapply cells_of_coarse. }
  assert (forall la ca fpa Fa ha s1,
            S ha <= h ->
            heap s1 !! la = Some ca ->
            (forall k, tree_at s1 (slot_of ca k) (fpa k) ha) ->
            (forall k k', k <> k' -> fpa k ## fpa k') ->
            (forall k, fpa k ⊆ Fa) ->
            la ∉ Fa ->
            total (convert builder fuel (VRef la)) s1
              (fun _ s' =>
                 changes_only (cells_of la ca fpa) s1 s'
                 /\ forall name, name <> "length" ->
                      get_prop builder s' (VRef la) name
                      = Some (slot_of ca (Field name)))
              (fun _ => True)) as conv_cell.
  { intros la ca fpa Fa ha s1 Hha Hla Hka Hda Hsa Hna.
    destruct fuel as [|fuel']; [lia|].
    eapply total_mono;
      [apply (IH ha ltac:(lia) fuel' s1 la ca fpa Fa ltac:(lia) Hla Hka Hda Hsa Hna)| |].
    - intros r s' (Hch & _ & Hp). by split.
    - done. }
  assert (forall k, tree_at (called (VRef l) s) (slot_of c k) (fp k) h) as Hkids'.
  { intros k. by apply tree_at_agree with (s := s). }
  destruct c as [fields|elements props].
  - eapply total_mono;
      [apply (total_well (S fuel) (VRef l) s
                (fun r s' =>
                   changes_only (cells_of l (Obj fields) fp) s s'
                   /\ result_in ({[l]} ∪ F) r)
                (changes_only (cells_of l (Obj fields) fp) s))| |].
    + unfold total.
      eapply total_return;
        [apply (total_switch builder (convert builder fuel) fuel h conv_total conv_cell
                  Hfuel (called (VRef l) s) l (Obj fields) fp F Hl Hkids' Hdisj Hsub HlF
                  (field fields "type"))
        |exact (convert_object builder fuel l fields s Hl)| |].
      * intros r s' Hr. exact Hr.
      * intros s' Hch. exact Hch.
    + intros r s' [[Hch Hr] (Hp & _)]. split; [exact Hch|]. split; [exact Hr|].
      intros name Hname.
      by rewrite (get_prop_slot builder s' l (Obj fields) name
                    (preserved_object s s' l fields Hp Hl) Hname).
    + by intros s' [Hch _].
  - unfold total.
    eapply total_return;
      [apply (total_elements builder (convert builder fuel) h conv_total
                (called (VRef l) s) l elements props fp F Hl Hkids' Hdisj Hsub HlF
                (length elements) 0 (called (VRef l) s) elements
                eq_refl Hl eq_refl (fun j _ => eq_refl)
                (changes_only_refl _ _))
      |exact (convert_array_eq builder fuel l elements props s Hl)| |].
    + intros r s' [[Hch Hp] Hr]. split; [exact Hch|]. split; [exact Hr|]. exact Hp.
    + intros s' [Hch _]. exact Hch.
Qed.

End Calls.

(** X20: on a tree, the recursion of [convert] ends, whatever the builder
    does.  When the objects and arrays reached from [v] form a tree of
    height at most [h] (each of them is reached along one path only, so
    there is no cycle and nothing is shared, and no IR node is among them),
    a call on [v] with [h + 1] levels of recursion does not run out of
    them: it returns or throws.  It then leaves the store as it was outside
    the cells of the tree, and an array it returns is one of these cells. *)
Theorem convert_terminates_on_trees {ir} (builder : Builder ir) s v F h :
  tree_at s v F h ->
  exists r,
    convert builder (S h) v s = Some r
    /\ converts builder v s r
    /\ changes_only (fun l => l ∈ F) s (final r)
    /\ match r with
       | Ok a _ => result_in F a
       | Throw _ _ => True
       end.
Proof.
  intros Hv.
  assert (total (convert builder (S h) v) s
            (fun a s' => changes_only (fun l => l ∈ F) s s' /\ result_in F a)
            (changes_only (fun l => l ∈ F) s)) as Ht.
  { destruct (is_leaf_tree s v F h Hv)
      as [[Hleaf ->]|(l & c & fp & F' & h' & -> & -> & -> & Hl & Hk & Hd & Hs & HlF)].
    - eapply total_mono; [by apply leaf_total| |].
      + intros r s' [Hh ->]. split; [by apply changes_only_heap|exact I].
      + intros s' Hh. by apply changes_only_heap.
    - eapply total_mono;
        [apply (total_cell builder h' (S h') s l c fp F' ltac:(lia) Hl Hk Hd Hs HlF)| |].
      + intros r s' (Hch & Hr & _). split; [by eapply cells_of_coarse|exact Hr].
      + intros s' Hch. by eapply cells_of_coarse. }
  apply total_elim in Ht as (r & Hr & Hpost).
  exists r. split; [exact Hr|]. split; [by exists (S h)|].
  destruct r as [a s'|e s']; simpl; [|by split]. exact Hpost.
Qed.

(** ** The other cases at the example trees *)

(** [a + b] converts to the binary node of [a], [+] and [b]. *)
Lemma operator_expression_conversion_witness :
  exists s',
    converts Stub.builder (VRef 1) Examples.sum_a_b
      (Ok (VIR (binaryExpression Stub.builder (Stub.ident "a") (VStr "+") (Stub.ident "b")))
          s').
Proof.
  destruct (operator_expression_conversion Stub.builder Examples.sum_a_b 1%positive
              (Stub.fields_of
                 (Stub.obj [("type", VStr "BinaryExpression"); ("operator", VStr "+");
                            ("left", VRef 2); ("right", VRef 3)])))
    as (_ & H & _).
  destruct (H ltac:(split; reflexivity)) as [_ Hleft].
  edestruct Hleft as [_ Hright]; [run_with 1|discriminate|].
  eexists. eapply (Hright (Stub.ident "b")); [run_with 1|discriminate].
Defined.

(** [a.b] converts to the member node of [a] and [b], not computed. *)
Lemma member_expression_conversion_witness :
  exists s',
    converts Stub.builder (VRef 1) Examples.member_a_b
      (Ok (VIR (memberExpression Stub.builder (Stub.ident "a") (Stub.ident "b")
                  (VBool false)))
          s').
Proof.
  destruct (member_expression_conversion Stub.builder Examples.member_a_b 1%positive
              (Stub.fields_of
                 (Stub.obj [("type", VStr "MemberExpression"); ("computed", VBool false);
                            ("object", VRef 2); ("property", VRef 3)])))
    as [_ Hobject]; [split; reflexivity|].
  edestruct Hobject as [_ Hproperty]; [run_with 1|discriminate|].
  eexists. eapply (Hproperty (Stub.ident "b")); [run_with 1|discriminate].
Defined.

(** [f(a)] converts to the call of [f] on the array of its arguments. *)
Lemma call_expression_conversion_witness :
  exists s',
    converts Stub.builder (VRef 1) Examples.call_f_a
      (Ok (VIR (functionCall Stub.builder (Stub.ident "f") (VRef 3))) s')
    /\ heap s' !! 3%positive = Some (Stub.arr [Stub.ident "a"]).
Proof.
  destruct (call_expression_conversion Stub.builder Examples.call_f_a 1%positive
              (Stub.fields_of
                 (Stub.obj [("type", VStr "CallExpression"); ("callee", VRef 2);
                            ("arguments", VRef 3)])))
    as (H & _).
  destruct (H ltac:(split; reflexivity)) as [_ Hcallee].
  edestruct Hcallee as [_ Hargs]; [run_with 1|discriminate|].
  eexists. split.
  - eapply (Hargs (VRef 3)); [run_with 2|discriminate].
  - reflexivity.
Defined.

(** [a ? b : c] converts to the conditional node of [a], [b] and [c]. *)
Lemma conditional_expression_conversion_witness :
  exists s',
    converts Stub.builder (VRef 1) Examples.conditional_a_b_c
      (Ok (VIR (conditionalExpression Stub.builder
                  (Stub.ident "a") (Stub.ident "b") (Stub.ident "c")))
          s').
Proof.
  destruct (conditional_expression_conversion Stub.builder Examples.conditional_a_b_c
              1%positive
              (Stub.fields_of
                 (Stub.obj [("type", VStr "ConditionalExpression"); ("test", VRef 2);
                            ("consequent", VRef 3); ("alternate", VRef 4)])))
    as [_ Htest]; [split; reflexivity|].
  edestruct Htest as [_ Hconsequent]; [run_with 1|discriminate|].
  edestruct Hconsequent as [_ Halternate]; [run_with 1|discriminate|].
  eexists. eapply (Halternate (Stub.ident "c")); [run_with 1|discriminate].
Defined.

(** [[a]] converts to the array node of its array of elements. *)
Lemma list_expression_conversion_witness :
  exists s',
    converts Stub.builder (VRef 1) Examples.array_literal_a
      (Ok (VIR (arrayExpression Stub.builder (VRef 2))) s')
    /\ heap s' !! 2%positive = Some (Stub.arr [Stub.ident "a"]).
Proof.
  destruct (list_expression_conversion Stub.builder Examples.array_literal_a 1%positive
              (Stub.fields_of
                 (Stub.obj [("type", VStr "ArrayExpression"); ("elements", VRef 2)])))
    as (H & _).
  destruct (H ltac:(split; reflexivity)) as [_ Helements].
  eexists. split.
  - eapply (Helements (VRef 2)); [run_with 2|discriminate].
  - reflexivity.
Defined.

(** [!a] converts to the unary node of [a], [!] and [true]. *)
Lemma unary_expression_conversion_witness :
  exists s',
    converts Stub.builder (VRef 1) Examples.not_a
      (Ok (VIR (unaryExpression Stub.builder (Stub.ident "a") (VStr "!") (VBool true)))
          s').
Proof.
  destruct (unary_expression_conversion Stub.builder Examples.not_a 1%positive
              (Stub.fields_of
                 (Stub.obj [("type", VStr "UnaryExpression"); ("operator", VStr "!");
                            ("prefix", VBool true); ("argument", VRef 2)])))
    as (H & _).
  destruct (H ltac:(split; reflexivity)) as [_ Hargument].
  eexists. eapply (Hargument (Stub.ident "a")); [run_with 1|discriminate].
Defined.

(** [{ a; }] converts to the array of its body, which then holds [a]. *)
Lemma statement_passes_conversion_on_witness :
  exists s',
    converts Stub.builder (VRef 1) Examples.block_of_a (Ok (VRef 2) s')
    /\ heap s' !! 2%positive = Some (Stub.arr [Stub.ident "a"]).
Proof.
  destruct (statement_passes_conversion_on Stub.builder Examples.block_of_a 1%positive
              (Stub.fields_of (Stub.BlockStatement 2)))
    as (_ & H & _).
  pose proof (H ltac:(split; reflexivity)) as Hbody.
  eexists. split.
  - eapply (Hbody (Ok (VRef 2) _)). run_with 3.
  - reflexivity.
Defined.

(** [function f(a) {}] converts to the function node named [f]. *)
Lemma function_conversion_witness :
  exists s',
    converts Stub.builder (VRef 1) Examples.function_f_a
      (Ok (VIR (functionDeclaration Stub.builder (Stub.ident "f") (VRef 3) (VRef 6))) s').
Proof.
  destruct (function_conversion Stub.builder Examples.function_f_a 1%positive
              (Stub.fields_of
                 (Stub.obj [("type", VStr "FunctionDeclaration"); ("id", VRef 2);
                            ("params", VRef 3); ("body", VRef 5)])))
    as [_ H]; [left; split; reflexivity|].
  destruct (H eq_refl) as [_ Hid].
  edestruct Hid as [_ Hparams]; [run_with 1|discriminate|].
  edestruct Hparams as [_ Hbody]; [run_with 2|discriminate|].
  eexists. eapply (Hbody (VRef 6)); [run_with 2|discriminate].
Defined.

(** [return;] converts to the return node of [null], [return x;] to that of
    [x]. *)
Lemma return_statement_conversion_witness :
  (exists s',
      converts Stub.builder (VRef 1) Examples.return_nothing
        (Ok (VIR (returnStatement Stub.builder VNull)) s'))
  /\ (exists s',
      converts Stub.builder (VRef 1) Examples.return_x
        (Ok (VIR (returnStatement Stub.builder (Stub.ident "x"))) s')).
Proof.
  split.
  - destruct (return_statement_conversion Stub.builder Examples.return_nothing 1%positive
                (Stub.fields_of
                   (Stub.obj [("type", VStr "ReturnStatement"); ("argument", VNull)])))
      as [H _]; [split; reflexivity|].
    eexists. exact (H eq_refl).
  - destruct (return_statement_conversion Stub.builder Examples.return_x 1%positive
                (Stub.fields_of
                   (Stub.obj [("type", VStr "ReturnStatement"); ("argument", VRef 2)])))
      as [_ H]; [split; reflexivity|].
    destruct (H eq_refl) as [_ Hargument].
    eexists. eapply (Hargument (Stub.ident "x")); [run_with 1|discriminate].
Defined.

(** The declarator of [var x] gets [undefined] for its initialiser, that of
    [var x = a] gets [a]. *)
Lemma variable_declarator_conversion_witness :
  (exists s',
      converts Stub.builder (VRef 1) Examples.declarator_x
        (Ok (VIR (variableDeclarator Stub.builder (Stub.ident "x") VUndefined)) s'))
  /\ (exists s',
      converts Stub.builder (VRef 1) Examples.declarator_x_a
        (Ok (VIR (variableDeclarator Stub.builder (Stub.ident "x") (Stub.ident "a"))) s')).
Proof.
  split.
  - destruct (variable_declarator_conversion Stub.builder Examples.declarator_x 1%positive
                (Stub.fields_of
                   (Stub.obj [("type", VStr "VariableDeclarator"); ("id", VRef 2);
                              ("init", VNull)])))
      as [H _]; [split; reflexivity|].
    destruct (H eq_refl) as [_ Hid].
    eexists. eapply (Hid (Stub.ident "x")); [run_with 1|discriminate].
  - destruct (variable_declarator_conversion Stub.builder Examples.declarator_x_a
                1%positive
                (Stub.fields_of
                   (Stub.obj [("type", VStr "VariableDeclarator"); ("id", VRef 2);
                              ("init", VRef 3)])))
      as [_ H]; [split; reflexivity|].
    destruct (H eq_refl) as [_ Hid].
    edestruct Hid as [_ Hinit]; [run_with 1|discriminate|].
    eexists. eapply (Hinit (Stub.ident "a")); [run_with 1|discriminate].
Defined.

(** [while (a) b;] converts to the while node of [a] and [b]. *)
Lemma while_statement_conversion_witness :
  exists s',
    converts Stub.builder (VRef 1) Examples.while_a_b
      (Ok (VIR (whileStatement Stub.builder (Stub.ident "a") (Stub.ident "b"))) s').
Proof.
  destruct (while_statement_conversion Stub.builder Examples.while_a_b 1%positive
              (Stub.fields_of
                 (Stub.obj [("type", VStr "WhileStatement"); ("test", VRef 2);
                            ("body", VRef 3)])))
    as (_ & _ & H); [split; reflexivity|].
  edestruct H as [_ Hboth]; [run_with 1|run_with 2|].
  eexists. apply Hboth; discriminate.
Defined.

(** [for (a; b; c) d;] converts to the for node of [a], [b], [c] and [d]. *)
Lemma for_statement_conversion_witness :
  exists s',
    converts Stub.builder (VRef 1) Examples.for_a_b_c_d
      (Ok (VIR (forStatement Stub.builder
                  (Stub.ident "a") (Stub.ident "b") (Stub.ident "c") (Stub.ident "d")))
          s').
Proof.
  destruct (for_statement_conversion Stub.builder Examples.for_a_b_c_d 1%positive
              (Stub.fields_of (Stub.ForStatement (VRef 2) (VRef 3) (VRef 4) 5)))
    as (H & _); [split; reflexivity|].
  edestruct H as [_ Hall]; [run_with 1|run_with 1|run_with 1|run_with 2|].
  eexists. apply Hall; discriminate.
Defined.

(** The property of [{[a]: 1}] keeps the identifier [a] for its key. *)
Lemma property_conversion_witness :
  exists s',
    converts Stub.builder (VRef 1) Examples.property_computed_a
      (Ok (VIR (property Stub.builder (Stub.ident "a")
                  (VIR (literal Stub.builder (VNum 1))) (VBool true)))
          s').
Proof.
  destruct (property_conversion Stub.builder Examples.property_computed_a 1%positive
              (Stub.fields_of (Stub.Property "init" true 2 3)))
    as (_ & _ & H); [split; reflexivity|].
  edestruct (H (Stub.ident "a")) as [_ Hvalue];
    [run_with 1|discriminate|split; reflexivity|reflexivity|].
  eexists. eapply (Hvalue (VIR (literal Stub.builder (VNum 1)))); [run_with 1|discriminate].
Defined.

(** The template of [$nonstandard`x`] converts to the template node of the
    string [x] and no expression. *)
Lemma template_literal_conversion_witness :
  exists s',
    converts Stub.builder (VRef 3) Examples.tagged_nonstandard
      (Ok (VIR (templateLiteral Stub.builder [VStr "x"] (VRef 7))) s').
Proof.
  destruct (template_literal_conversion Stub.builder Examples.tagged_nonstandard
              3%positive
              (Stub.fields_of
                 (Stub.obj [("type", VStr "TemplateLiteral"); ("quasis", VRef 4);
                            ("expressions", VRef 7)])))
    as [H _]; [split; reflexivity|].
  edestruct (H 4%positive [VRef 5] ∅ [VStr "x"]) as [_ Hexpressions];
    [reflexivity|reflexivity| |].
  - constructor; [|constructor]. exists (VRef 6). split; reflexivity.
  - eexists. eapply (Hexpressions (VRef 7)); [run_with 1|discriminate].
Defined.

(** [/ab+c/gi] converts to the literal of the regular expression; [/a/zz],
    whose flags are not valid, makes the call throw. *)
Lemma leaf_conversion_witness :
  converts Stub.builder (VRef 1) Examples.regex_literal
    (Ok (VIR (literal Stub.builder (VRegExp "ab+c" "gi")))
        (returned (VRef 1)
           (VIR (literal Stub.builder (VRegExp "ab+c" "gi")))
           (called (VRef 1) Examples.regex_literal)))
  /\ converts Stub.builder (VRef 1) Examples.regex_literal_invalid
       (Throw SyntaxError (called (VRef 1) Examples.regex_literal_invalid)).
Proof.
  split.
  - destruct (leaf_conversion Stub.builder Examples.regex_literal 1%positive
                (Stub.fields_of
                   (Stub.obj [("type", VStr "Literal"); ("value", VNull);
                              ("regex", VRef 2)])))
      as (_ & _ & _ & H).
    apply (H ltac:(split; reflexivity) (VStr "ab+c") (VStr "gi")); reflexivity.
  - destruct (leaf_conversion Stub.builder Examples.regex_literal_invalid 1%positive
                (Stub.fields_of
                   (Stub.obj [("type", VStr "Literal"); ("value", VNull);
                              ("regex", VRef 2)])))
      as (_ & _ & _ & H).
    apply (H ltac:(split; reflexivity) (VStr "a") (VStr "zz")); reflexivity.
Defined.

(** A program node without a body throws. *)
Lemma program_body_absent_throws_witness :
  converts Stub.builder (VRef 1) Examples.program_without_body
    (Throw TypeError (called (VRef 1) Examples.program_without_body)).
Proof.
  apply (program_body_absent_throws Stub.builder Examples.program_without_body
           1%positive (Stub.fields_of (Stub.obj [("type", VStr "Program")]))).
  - split; reflexivity.
  - reflexivity.
Defined.

(** The block [{ a; }] converts to an array that the store had. *)
Lemma convert_result_shape_witness :
  exists elements props,
    heap Examples.block_of_a !! 2%positive = Some (Arr elements props).
Proof.
  assert (exists s', converts Stub.builder (VRef 1) Examples.block_of_a (Ok (VRef 2) s'))
    as [s' Hc] by (eexists; run_with 4).
  destruct (convert_result_shape Stub.builder _ _ _ _ Hc) as [[H|[[x H]|H]] _];
    [discriminate H|discriminate H|].
  destruct H as (l & elements & props & [= <-] & Hl). eauto.
Defined.

(** A number is rejected, [undefined] makes the call throw. *)
Lemma convert_without_node_witness :
  converts Stub.builder (VNum 1) Examples.array_with_hole
    (Ok VNull (returned (VNum 1) VNull (called (VNum 1) Examples.array_with_hole)))
  /\ converts Stub.builder VUndefined Examples.array_with_hole
       (Throw TypeError (called VUndefined Examples.array_with_hole)).
Proof.
  split.
  - exact (proj2 (convert_without_node Stub.builder (VNum 1) Examples.array_with_hole) I).
  - exact (proj1 (convert_without_node Stub.builder VUndefined Examples.array_with_hole)
             eq_refl).
Defined.

(** [[a, <hole>, b]]: the call throws at the hole, and leaves the array
    holding the IR identifier [a], the hole and the node of [b]. *)
Lemma array_failure_keeps_results_witness :
  exists s',
    converts Stub.builder (VRef 1) Examples.array_with_hole (Throw TypeError s')
    /\ heap s' !! 1%positive = Some (Stub.arr [Stub.ident "a"; VNull; VRef 3]).
Proof.
  edestruct (array_failure_keeps_results Stub.builder Examples.array_with_hole 1%positive
               [VRef 2; VNull; VRef 3] ∅ [Stub.ident "a"])
    as [H _].
  - reflexivity.
  - eapply in_order_cons;
      [vm_compute; reflexivity|run_with 1|discriminate|reflexivity|apply in_order_nil].
  - reflexivity.
  - destruct (H (Throw TypeError _) (converts_nullish Stub.builder VNull _ eq_refl) I)
      as [Hc Hheap].
    eexists. split; [exact Hc|]. apply Hheap. reflexivity.
Defined.

(** ** A tree *)

(** [a.b] is a tree of three cells: the member expression and the two
    identifiers. *)
Lemma convert_terminates_on_trees_witness :
  exists r,
    convert Stub.builder 3 (VRef 1) Examples.member_a_b = Some r
    /\ converts Stub.builder (VRef 1) Examples.member_a_b r
    /\ changes_only (fun l => l ∈ ({[1%positive]} ∪ ({[2%positive]} ∪ {[3%positive]}) : gset loc))
         Examples.member_a_b (final r)
    /\ match r with
       | Ok a _ => result_in ({[1%positive]} ∪ ({[2%positive]} ∪ {[3%positive]})) a
       | Throw _ _ => True
       end.
Proof.
  apply (convert_terminates_on_trees Stub.builder Examples.member_a_b (VRef 1)).
  apply tree_cell with
    (c := Stub.obj [("type", VStr "MemberExpression"); ("computed", VBool false);
                    ("object", VRef 2); ("property", VRef 3)])
    (fp := fun k =>
             match k with
             | Field name =>
                 if String.eqb name "object" then {[2%positive]} ∪ ∅
                 else if String.eqb name "property" then {[3%positive]} ∪ ∅
                 else ∅
             | Index _ => ∅
             end).
  - reflexivity.
  - intros [name|i]; [|by apply tree_leaf].
    destruct (String.eqb_spec name "object") as [->|Hobject];
      [|destruct (String.eqb_spec name "property") as [->|Hproperty]].
    + apply tree_cell with (c := Stub.Identifier "a") (fp := fun _ => ∅);
        [reflexivity| |intros; apply disjoint_empty_l|intros; apply empty_subseteq
        |apply not_elem_of_empty].
      intros [name|i]; apply tree_leaf; [|reflexivity].
      apply (field_leaf _ []); [|apply not_elem_of_nil].
      apply (bool_decide_unpack _). vm_compute. exact I.
    + apply tree_cell with (c := Stub.Identifier "b") (fp := fun _ => ∅);
        [reflexivity| |intros; apply disjoint_empty_l|intros; apply empty_subseteq
        |apply not_elem_of_empty].
      intros [name|i]; apply tree_leaf; [|reflexivity].
      apply (field_leaf _ []); [|apply not_elem_of_nil].
      apply (bool_decide_unpack _). vm_compute. exact I.
    + apply tree_leaf, (field_leaf _ ["object"; "property"]);
        [|rewrite !not_elem_of_cons; auto using not_elem_of_nil].
      apply (bool_decide_unpack _). vm_compute. exact I.
  - intros [name|i] [name'|i'] Hne;
      try apply disjoint_empty_l; try apply disjoint_empty_r.
    destruct (String.eqb_spec name "object") as [->|Hobject];
      destruct (String.eqb_spec name' "object") as [->|Hobject'];
      try destruct (String.eqb_spec name "property") as [->|Hproperty];
      try destruct (String.eqb_spec name' "property") as [->|Hproperty'];
      try apply disjoint_empty_l; try apply disjoint_empty_r;
      try congruence; rewrite !right_id_L by apply _;
      apply disjoint_singleton_l, not_elem_of_singleton; discriminate.
  - intros [name|i]; [|apply empty_subseteq].
    destruct (String.eqb_spec name "object") as [->|Hobject];
      [|destruct (String.eqb_spec name "property") as [->|Hproperty]];
      [rewrite right_id_L by apply _; apply union_subseteq_l
      |rewrite right_id_L by apply _; apply union_subseteq_r
      |apply empty_subseteq].
  - rewrite not_elem_of_union, !not_elem_of_singleton. split; discriminate.
Defined.
